(** * Mealie recipe sync: discovery and synchronisation engine

    A shallow embedding of the Python sources of the [mealie-sync] stack
    ([app/sources.py], [app/mealie_client.py], [app/main.py]) together with
    the properties that its design document states about them.

    Definitions:
    - [Py]: the fragment of Python's dynamic values and exceptions that the
      sources rely on (YAML configuration values, truthiness, slicing,
      iteration, [dict.fromkeys]);
    - [Eff]: a small state, trace and exception monad;
    - [Trace], [Spec]: readings of a trace, specifications of computations;
    - [URLNormalizer]: the URL canonicaliser (module [crawler], modelled);
    - [State]: the persistent state store (module [state], modelled);
    - [Sources]: [sources.py];
    - [Mealie]: [mealie_client.py] and the retry policy of its transport;
    - [Main]: [main.py], the orchestrator;
    - [Run]: what a run of the orchestrator does, as pure functions of the
      outside world and of the store;
    - [Claims], [Fixtures]: statements that are refuted, and small worlds;
    - [Outcome], [Search], [Loader], [Entries]: the rest of the import
      client and of the orchestrator ([search_recipes],
      [_load_sources_config]) and readings of what they do;
    - [Indexer]: the file watcher of the document indexer
      ([local-indexer.py]).

    The facts follow, in the same order. *)

From Stdlib Require Import ZArith String Ascii.
From stdpp Require Import gmap strings list.

Local Open Scope string_scope.
Local Open Scope list_scope.

(* ===================================================================== *)
(** * Python values, exceptions and the built-ins used by the sources     *)
(* ===================================================================== *)

Module Py.

(** Values as they come out of [yaml.safe_load] and [response.json()]. A
    dictionary keeps its items in insertion order; lookup takes the first
    item with the key. *)
#[warnings="-register-all"]
Inductive pyval : Type :=
| PNone
| PBool (b : bool)
| PInt (z : Z)
| PStr (s : string)
| PList (l : list pyval)
| PDict (d : list (string * pyval)).

Definition dict : Type := list (string * pyval).

(** The exception classes that occur; all of them derive from [Exception],
    so every [except Exception] clause catches every one of them. *)
Inductive exn : Type :=
| TypeError (msg : string)
| AttributeError (msg : string)
| KeyError (msg : string)
| Timeout
| ConnectionError
| RetryError
| HTTPError (status : Z)
| JSONDecodeError
| OtherError (msg : string).

(** [str(e)] *)
Definition str_exn (e : exn) : string :=
  match e with
  | TypeError m | AttributeError m | KeyError m | OtherError m => m
  | Timeout => "timed out"
  | ConnectionError => "connection error"
  | RetryError => "too many retries"
  | HTTPError _ => "http error"
  | JSONDecodeError => "invalid json"
  end.

Inductive result (A : Type) : Type :=
| Ok (a : A)
| Raise (e : exn).
Arguments Ok {A} a.
Arguments Raise {A} e.

Definition rbind {A B} (r : result A) (k : A -> result B) : result B :=
  match r with
  | Ok a => k a
  | Raise e => Raise e
  end.

Definition is_ok {A} (r : result A) : bool :=
  match r with Ok _ => true | Raise _ => false end.

(** [bool(l)] for a list or a dictionary: whether it has an item. *)
Definition nonempty {A} (l : list A) : bool :=
  match l with [] => false | _ => true end.

(** [bool(v)] *)
Definition truthy (v : pyval) : bool :=
  match v with
  | PNone => false
  | PBool b => b
  | PInt z => negb (z =? 0)%Z
  | PStr s => negb (String.eqb s "")
  | PList l => nonempty l
  | PDict d => nonempty d
  end.

(** [d.get(key, default)] on a dictionary. *)
Fixpoint dict_get (d : dict) (key : string) (default : pyval) : pyval :=
  match d with
  | [] => default
  | (k, v) :: d' => if String.eqb k key then v else dict_get d' key default
  end.

(** [v.get(key, default)] on an arbitrary value: only dictionaries have the
    method. *)
Definition py_get (v : pyval) (key : string) (default : pyval) : result pyval :=
  match v with
  | PDict d => Ok (dict_get d key default)
  | _ => Raise (AttributeError "object has no attribute 'get'")
  end.

(** [v == 'literal'] for a string literal. *)
Definition is_str (v : pyval) (s : string) : bool :=
  match v with PStr s' => String.eqb s' s | _ => false end.

(** [for x in v]: the items that the loop visits, or the [TypeError] of a
    value that is not iterable. *)
Definition py_iter (v : pyval) : result (list pyval) :=
  match v with
  | PList l => Ok l
  | PDict d => Ok (map (fun kv => PStr (fst kv)) d)
  | PStr s => Ok (map (fun c => PStr (String c EmptyString)) (list_ascii_of_string s))
  | PNone => Raise (TypeError "'NoneType' object is not iterable")
  | PBool _ => Raise (TypeError "'bool' object is not iterable")
  | PInt _ => Raise (TypeError "'int' object is not iterable")
  end.

(** [l[:n]] for an integer [n]: a negative bound counts from the end. *)
Definition slice_to {A} (l : list A) (n : Z) : list A :=
  if (0 <=? n)%Z then take (Z.to_nat n) l
  else take (Z.to_nat (Z.of_nat (length l) + n)) l.

(** [l[:v]]: [None] keeps the list, an integer (or a boolean, which is an
    integer) cuts it, anything else is a [TypeError]. *)
Definition py_slice_to {A} (l : list A) (v : pyval) : result (list A) :=
  match v with
  | PNone => Ok l
  | PInt n => Ok (slice_to l n)
  | PBool b => Ok (slice_to l (if b then 1 else 0)%Z)
  | _ => Raise (TypeError "slice indices must be integers or None")
  end.

(** [s.rstrip(c)] for a one-character [c]. *)
Fixpoint rstrip (c : ascii) (s : string) : string :=
  match s with
  | EmptyString => EmptyString
  | String a s' =>
      let r := rstrip c s' in
      if Ascii.eqb a c && String.eqb r "" then EmptyString else String a r
  end.

(** [list(dict.fromkeys(l))]: the keys are inserted one after the other; a
    key that is already present keeps its place. [fromkeys_into keys l] is
    the key order after inserting [l] into a dictionary whose keys are
    [keys]. *)
Fixpoint fromkeys_into (keys : list string) (l : list string) : list string :=
  match l with
  | [] => keys
  | k :: l' =>
      if bool_decide (k ∈ keys) then fromkeys_into keys l'
      else fromkeys_into (keys ++ [k]) l'
  end.

Definition dict_fromkeys (l : list string) : list string := fromkeys_into [] l.

(** [v['literal']]: the value under the key of a dictionary, the
    [KeyError] of a dictionary without the key, or the [TypeError] of a
    value that takes no such subscript. *)
Fixpoint dict_find (d : dict) (key : string) : option pyval :=
  match d with
  | [] => None
  | (k, v) :: d' => if String.eqb k key then Some v else dict_find d' key
  end.

Definition py_getitem (v : pyval) (key : string) : result pyval :=
  match v with
  | PDict d =>
      match dict_find d key with
      | Some x => Ok x
      | None => Raise (KeyError (String.append "'" (String.append key "'")))
      end
  | PList _ => Raise (TypeError "list indices must be integers or slices, not str")
  | PStr _ => Raise (TypeError "string indices must be integers")
  | PNone => Raise (TypeError "'NoneType' object is not subscriptable")
  | PBool _ => Raise (TypeError "'bool' object is not subscriptable")
  | PInt _ => Raise (TypeError "'int' object is not subscriptable")
  end.

(** [l.index(x)], with [length l] where Python raises [ValueError]. *)
Fixpoint index_of (x : string) (l : list string) : nat :=
  match l with
  | [] => 0
  | y :: l' => if bool_decide (y = x) then 0 else S (index_of x l')
  end.

End Py.
Export Py.

(* ===================================================================== *)
(** * Observable events                                                   *)
(* ===================================================================== *)

(** Calls on the state store ([StateManager]). *)
Inductive StoreCall : Type :=
| MarkUrlSeen (url domain : string)
| GetImportedUrls
| RecordImport (url : string) (name : pyval) (source_name : option string)
| RecordAttempt (url : string) (success : bool) (error_message : option string)
| StartSyncRun (run_id : nat)
| CompleteSyncRun (run_id discovered imported failed : nat)
                  (failure_reason : option string)
| GetStats.

(** What a run does to the outside world, in the order in which it does
    it. [EvHttp] is one request on the wire; [EvImportCall] is one call of
    [MealieClient.import_recipe_from_url]. *)
Inductive Event : Type :=
| EvFeedParse (url : pyval)
| EvCrawl (url : pyval)
| EvHttp (method target : string) (json_url : option string)
| EvBackoff (seconds : Z)
| EvSleep (seconds : Z)
| EvImportCall (url : string)
| EvStore (c : StoreCall).

(* ===================================================================== *)
(** * State, trace and exception monad                                    *)
(* ===================================================================== *)

Module Eff.

(** A computation over a state [St] returns the new state, the events it
    produced, and a value or the exception it raised. The state and the
    events of a computation that raises are kept: what was written before
    the exception stays written. *)
Definition M (St A : Type) : Type := St -> St * list Event * result A.

Definition ret {St A} (a : A) : M St A := fun st => (st, [], Ok a).

Definition raise {St A} (e : exn) : M St A := fun st => (st, [], Raise e).

Definition bind {St A B} (m : M St A) (k : A -> M St B) : M St B :=
  fun st =>
    match m st with
    | (st1, ev1, Ok a) =>
        match k a st1 with
        | (st2, ev2, r) => (st2, ev1 ++ ev2, r)
        end
    | (st1, ev1, Raise e) => (st1, ev1, Raise e)
    end.

(** [try: m except Exception as e: h e] *)
Definition try_catch {St A} (m : M St A) (h : exn -> M St A) : M St A :=
  fun st =>
    match m st with
    | (st1, ev1, Ok a) => (st1, ev1, Ok a)
    | (st1, ev1, Raise e) =>
        match h e st1 with
        | (st2, ev2, r) => (st2, ev1 ++ ev2, r)
        end
    end.

Definition log {St} (e : Event) : M St unit := fun st => (st, [e], Ok tt).

Definition liftR {St A} (r : result A) : M St A := fun st => (st, [], r).

(** Computations that have no state of their own (sources, HTTP client). *)
Definition W (A : Type) : Type := M unit A.

Definition lift {St A} (m : W A) : M St A :=
  fun st => match m tt with (_, ev, r) => (st, ev, r) end.

Definition events_of {St A} (x : St * list Event * result A) : list Event :=
  snd (fst x).
Definition state_of {St A} (x : St * list Event * result A) : St :=
  fst (fst x).
Definition value_of {St A} (x : St * list Event * result A) : result A :=
  snd x.
Arguments events_of {St A} !x /.
Arguments state_of {St A} !x /.
Arguments value_of {St A} !x /.

End Eff.
Export Eff.

Declare Scope eff_scope.
Delimit Scope eff_scope with eff.
Notation "'let*' x ':=' c1 'in' c2" := (bind c1 (fun x => c2))
  (at level 10, x pattern, c1 at level 100, c2 at level 200) : eff_scope.
Notation "'let?' x ':=' c1 'in' c2" := (rbind c1 (fun x => c2))
  (at level 10, x pattern, c1 at level 100, c2 at level 200) : eff_scope.
Notation "c1 ';;' c2" := (bind c1 (fun _ => c2))
  (at level 100, c2 at level 200, right associativity) : eff_scope.
Local Open Scope eff_scope.

(* ===================================================================== *)
(** * Reading a trace; specifications of computations                     *)
(* ===================================================================== *)

Module Trace.

(** The URLs for which the import client was called, in order. *)
Definition import_calls (evs : list Event) : list string :=
  omap (fun e => match e with EvImportCall u => Some u | _ => None end) evs.

(** The [complete_sync_run] calls, in order. *)
Definition completions (evs : list Event) : list StoreCall :=
  omap (fun e => match e with
                 | EvStore (CompleteSyncRun i d m f r) => Some (CompleteSyncRun i d m f r)
                 | _ => None
                 end) evs.

(** The requests on the wire, in order. *)
Definition requests (evs : list Event) : list Event :=
  omap (fun e => match e with EvHttp m t b => Some (EvHttp m t b) | _ => None end) evs.

(** The pauses between the requests of one call, in order. *)
Definition backoffs (evs : list Event) : list Z :=
  omap (fun e => match e with EvBackoff s => Some s | _ => None end) evs.

(** The feeds that were parsed and the pages that were crawled, in order. *)
Definition fetches (evs : list Event) : list Event :=
  omap (fun e => match e with
                 | EvFeedParse u => Some (EvFeedParse u)
                 | EvCrawl u => Some (EvCrawl u)
                 | _ => None
                 end) evs.

(** Traffic of the HTTP session: requests and the pauses between them. *)
Definition net_event (method : string) (e : Event) : Prop :=
  match e with
  | EvHttp m _ _ => m = method
  | EvBackoff _ => True
  | _ => False
  end.

(** What a source does: it parses feeds and crawls pages. *)
Definition source_event (e : Event) : Prop :=
  match e with
  | EvFeedParse _ | EvCrawl _ => True
  | _ => False
  end.

(** What discovery does: what its sources do, and [mark_url_seen]. *)
Definition discovery_event (e : Event) : Prop :=
  match e with
  | EvFeedParse _ | EvCrawl _ | EvStore (MarkUrlSeen _ _) => True
  | _ => False
  end.

(** What the import loop does. *)
Definition import_event (e : Event) : Prop :=
  match e with
  | EvImportCall _ | EvHttp _ _ _ | EvBackoff _ | EvSleep _
  | EvStore (RecordImport _ _ _) | EvStore (RecordAttempt _ _ _) => True
  | _ => False
  end.

(** Events of a dry run: feeds and pages are fetched, the server is asked
    with [GET] only, and on the store there is nothing but [mark_url_seen],
    the reading of the imported URLs, and the opening and closing of the
    run. *)
Definition dry_event (e : Event) : Prop :=
  match e with
  | EvFeedParse _ | EvCrawl _ | EvBackoff _ => True
  | EvHttp m _ _ => m = "GET"
  | EvStore (MarkUrlSeen _ _) | EvStore GetImportedUrls
  | EvStore (StartSyncRun _) | EvStore (CompleteSyncRun _ _ _ _ _) => True
  | _ => False
  end.

Arguments import_calls : simpl never.
Arguments completions : simpl never.
Arguments requests : simpl never.
Arguments backoffs : simpl never.
Arguments fetches : simpl never.

End Trace.
Export Trace.

Module Spec.

(** [sat R P Q m]: from every state, [m] moves the state along [R],
    produces only events in [P], and ends with a result in [Q]. *)
Definition sat {St A} (R : St -> St -> Prop) (P : Event -> Prop)
  (Q : result A -> Prop) (m : M St A) : Prop :=
  forall st, R st (state_of (m st)) /\ Forall P (events_of (m st))
             /\ Q (value_of (m st)).

Definition returns {A} (r : result A) : Prop :=
  match r with Ok _ => True | Raise _ => False end.

Definition anything {A} (_ : A) : Prop := True.

End Spec.
Export Spec.

(* ===================================================================== *)
(** * URL normaliser ([crawler.URLNormalizer])                            *)
(* ===================================================================== *)

Module URLNormalizer.

Local Open Scope char_scope.

Definition chars : Type := list ascii.

(** [break c l] cuts [l] at the first [c]: what is before it, and what is
    after it when there is one. *)
Fixpoint break (c : ascii) (l : chars) : chars * option chars :=
  match l with
  | [] => ([], None)
  | a :: l' =>
      if Ascii.eqb a c then ([], Some l')
      else match break c l' with (b, r) => (a :: b, r) end
  end.

(** [s.split(c)]: never empty. *)
Fixpoint split_on (c : ascii) (l : chars) : list chars :=
  match l with
  | [] => [[]]
  | a :: l' =>
      if Ascii.eqb a c then [] :: split_on c l'
      else match split_on c l' with
           | [] => [[a]]
           | p :: ps => (a :: p) :: ps
           end
  end.

(** [c.join(ps)] *)
Fixpoint join (c : ascii) (ps : list chars) : chars :=
  match ps with
  | [] => []
  | p :: ps' =>
      match ps' with
      | [] => p
      | _ => p ++ c :: join c ps'
      end
  end.

(** End of the host: the first of [/] and [?]. *)
Definition host_end (a : ascii) : bool := Ascii.eqb a "/" || Ascii.eqb a "?".

Fixpoint span_host (l : chars) : chars * chars :=
  match l with
  | [] => ([], [])
  | a :: l' =>
      if host_end a then ([], l)
      else match span_host l' with (h, t) => (a :: h, t) end
  end.

(** ASCII lower case of one character. *)
Definition lower (a : ascii) : ascii :=
  let n := N_of_ascii a in
  if ((65 <=? n) && (n <=? 90))%N then ascii_of_N (n + 32) else a.

(** A URL cut into its parts, the fragment already dropped. The query is
    kept as its [&]-separated parameters. *)
Record url_parts : Type := {
  scheme : chars;
  host : chars;
  path : chars;
  query : option (list chars);
}.

(** [scheme://host/path?query#fragment]; anything without [scheme://] does
    not parse. *)
Definition parse (l : chars) : option url_parts :=
  match break ":" l with
  | (sch, Some (c1 :: c2 :: rest)) =>
      if Ascii.eqb c1 "/" && Ascii.eqb c2 "/" then
        let nofrag := fst (break "#" rest) in
        match span_host nofrag with
        | (h, tail) =>
            match break "?" tail with
            | (p, q) =>
                Some {| scheme := sch; host := h; path := p;
                        query := option_map (split_on "&") q |}
            end
        end
      else None
  | _ => None
  end.

Definition unparse (p : url_parts) : chars :=
  scheme p ++ ":" :: "/" :: "/" :: host p ++ path p ++
  match query p with
  | None => []
  | Some ps => "?" :: join "&" ps
  end.

(** What [parse] guarantees about the parts, and what [parse] needs to
    find them again in the text that [unparse] writes. *)
Definition wf (p : url_parts) : Prop :=
  (":" ∉ scheme p)
  /\ Forall (fun a => host_end a = false /\ a <> "#") (host p)
  /\ ("?" ∉ path p) /\ ("#" ∉ path p)
  /\ (path p = [] \/ exists t, path p = "/" :: t)
  /\ match query p with
     | None => True
     | Some ps => ps <> [] /\ Forall (fun q => ("&" ∉ q) /\ ("#" ∉ q)) ps
     end.

(** The name of a query parameter: what is before its [=]. *)
Definition param_name (p : chars) : string :=
  string_of_list_ascii (fst (break "=" p)).

Section Normalize.

(** The fixed denylist of tracking parameters, as a predicate on the
    parameter name. *)
Variable is_tracking : string -> bool.

Definition keep_param (p : chars) : Prop := is_tracking (param_name p) = false.

Definition canon (p : url_parts) : url_parts :=
  {| scheme := scheme p;
     host := map lower (host p);
     path := path p;
     query :=
       match query p with
       | None => None
       | Some ps =>
           match filter keep_param ps with
           | [] => None
           | kept => Some kept
           end
       end |}.

Definition normalize_chars (l : chars) : chars :=
  match parse l with
  | Some p => unparse (canon p)
  | None => l
  end.

(** Modelled from the spec: [URLNormalizer.normalize] is in [crawler.py],
    which is not part of the sources at hand. Following the design
    document, it removes the query parameters whose name is on the fixed
    denylist, drops the fragment, lower-cases the host, leaves the scheme,
    the path and the remaining parameters in place and in order, and
    returns an input that does not parse unchanged. *)
Definition normalize (url : string) : string :=
  string_of_list_ascii (normalize_chars (list_ascii_of_string url)).

End Normalize.

(** The denylist named by the design document: [utm_*], [fbclid], [gclid],
    [ref]. *)
Definition default_tracking (name : string) : bool :=
  String.prefix "utm_" name
  || bool_decide (name ∈ ["fbclid"; "gclid"; "ref"]%string).

End URLNormalizer.

(* ===================================================================== *)
(** * State store ([state.StateManager])                                  *)
(* ===================================================================== *)

Module State.

(** The persisted records. Time stamps are left out: nothing below depends
    on the clock. *)
Record SeenRecord : Type := {
  seen_url : string;
  seen_domain : string;
}.

Record ImportRecord : Type := {
  imp_url : string;
  imp_name : pyval;
  imp_source : option string;
}.

Record AttemptRecord : Type := {
  att_url : string;
  att_success : bool;
  att_error : option string;
}.

Record SyncRun : Type := {
  run_id : nat;
  run_finished : bool;
  run_discovered : nat;
  run_imported : nat;
  run_failed : nat;
  run_reason : option string;
}.

Record Store : Type := {
  seen : list SeenRecord;
  imports : list ImportRecord;
  attempts : list AttemptRecord;
  runs : list SyncRun;
}.

Definition empty : Store :=
  {| seen := []; imports := []; attempts := []; runs := [] |}.

(** Modelled from the spec: [StateManager] is in [state.py], which is not
    part of the sources at hand. Each operation below follows section 4.5
    of the design document and logs the call it stands for.

    [mark_url_seen(url, domain)] upserts a SeenRecord: the first record of
    a URL stays. *)
Definition mark_url_seen (url domain : string) : M Store unit :=
  fun st =>
    let st' :=
      if bool_decide (url ∈ map seen_url (seen st)) then st
      else {| seen := seen st ++ [ {| seen_url := url; seen_domain := domain |} ];
              imports := imports st; attempts := attempts st; runs := runs st |} in
    (st', [EvStore (MarkUrlSeen url domain)], Ok tt).

Definition imported_urls (st : Store) : gset string :=
  list_to_set (map imp_url (imports st)).

(** Modelled from the spec: [get_imported_urls()] is the set of all URLs
    with an ImportRecord. *)
Definition get_imported_urls : M Store (gset string) :=
  fun st => (st, [EvStore GetImportedUrls], Ok (imported_urls st)).

(** Modelled from the spec: [record_import(url, display_name, source_name)]
    inserts an ImportRecord. *)
Definition record_import (url : string) (name : pyval) (source_name : option string)
  : M Store unit :=
  fun st =>
    ({| seen := seen st;
        imports := imports st ++
          [ {| imp_url := url; imp_name := name; imp_source := source_name |} ];
        attempts := attempts st; runs := runs st |},
     [EvStore (RecordImport url name source_name)], Ok tt).

(** Modelled from the spec: [record_attempt(url, success, error_message)]
    appends an AttemptRecord and does nothing else. *)
Definition record_attempt (url : string) (success : bool) (error_message : option string)
  : M Store unit :=
  fun st =>
    ({| seen := seen st; imports := imports st;
        attempts := attempts st ++
          [ {| att_url := url; att_success := success; att_error := error_message |} ];
        runs := runs st |},
     [EvStore (RecordAttempt url success error_message)], Ok tt).

(** Modelled from the spec: [start_sync_run()] creates a SyncRun in the
    open state and returns its identifier. *)
Definition start_sync_run : M Store nat :=
  fun st =>
    let id := S (length (runs st)) in
    ({| seen := seen st; imports := imports st; attempts := attempts st;
        runs := runs st ++
          [ {| run_id := id; run_finished := false; run_discovered := 0;
               run_imported := 0; run_failed := 0; run_reason := None |} ] |},
     [EvStore (StartSyncRun id)], Ok id).

Definition finalize (id discovered imported failed : nat) (reason : option string)
  (r : SyncRun) : SyncRun :=
  if bool_decide (run_id r = id) && negb (run_finished r) then
    {| run_id := id; run_finished := true; run_discovered := discovered;
       run_imported := imported; run_failed := failed; run_reason := reason |}
  else r.

(** Modelled from the spec: [complete_sync_run] finalizes exactly the run
    with the given identifier; a second call for a run that is already
    finalized is ignored. *)
Definition complete_sync_run (id discovered imported failed : nat)
  (reason : option string) : M Store unit :=
  fun st =>
    ({| seen := seen st; imports := imports st; attempts := attempts st;
        runs := map (finalize id discovered imported failed reason) (runs st) |},
     [EvStore (CompleteSyncRun id discovered imported failed reason)], Ok tt).

(** Modelled from the spec: [get_stats()] reads aggregate counts, the
    total of the imports to date among them, as a mapping. *)
Definition get_stats : M Store pyval :=
  fun st =>
    (st, [EvStore GetStats],
     Ok (PDict [("total_seen", PInt (Z.of_nat (length (seen st))));
                ("total_imports", PInt (Z.of_nat (length (imports st))));
                ("total_attempts", PInt (Z.of_nat (length (attempts st))));
                ("total_runs", PInt (Z.of_nat (length (runs st))))])).

End State.

(* ===================================================================== *)
(** * External collaborators                                              *)
(* ===================================================================== *)

(** What [feedparser.parse] returns: the malformed-content flag and, for
    each entry, its [link] when it has one. *)
Record Feed : Type := {
  bozo : bool;
  entries : list (option string);
}.

(** What comes back for one request on the wire: a response with its
    status, its [Retry-After] header and its JSON body, or a failure to
    connect. *)
Inductive Wire : Type :=
| WStatus (code : Z) (retry_after : option Z) (json : result pyval)
| WConnectTimeout
| WConnectError.

(** The behaviour of everything outside the three sources at hand during
    one run: the feed parser, the crawler and the normaliser of
    [crawler.py], and the downstream server ([server m t b n] answers the
    [n]-th request of one call). Each of them may raise. *)
Record Env : Type := {
  feedparser_parse : pyval -> result Feed;
  crawl_index_page : pyval -> pyval -> pyval -> result (list string);
  matches_domain : pyval -> pyval -> result bool;
  normalize : pyval -> result string;
  extract_domain : string -> result string;
  server : string -> string -> option string -> nat -> Wire;
}.

(* ===================================================================== *)
(** * Sources ([sources.py])                                              *)
(* ===================================================================== *)

Module Sources.

Inductive SourceKind : Type :=
| RSSFeedSource
| RSSSuffixSource
| CrawlIndexSource
| RSSOrCrawlSource
| URLListSource.

Section WithEnv.

Variable env : Env.

Definition parse_feed (url : pyval) : W Feed :=
  log (EvFeedParse url);; liftR (feedparser_parse env url).

Definition crawl (url allow_domains max_pages : pyval) : W (list string) :=
  log (EvCrawl url);; liftR (crawl_index_page env url allow_domains max_pages).

(** [self.allow_domains and not URLNormalizer.matches_domain(url, ...)] *)
Definition outside_allowed (allow_domains url : pyval) : result bool :=
  if truthy allow_domains then
    let? m := matches_domain env url allow_domains in Ok (negb m)
  else Ok false.

(** The body of [for entry in ...] shared by the feed variants. *)
Fixpoint collect_links (allow_domains : pyval) (es : list (option string))
  (urls : list string) : result (list string) :=
  match es with
  | [] => Ok urls
  | entry :: es' =>
      let url := default "" entry in
      if String.eqb url "" then collect_links allow_domains es' urls
      else
        let? skip := outside_allowed allow_domains (PStr url) in
        if skip then collect_links allow_domains es' urls
        else
          let? normalized := normalize env (PStr url) in
          collect_links allow_domains es' (urls ++ [normalized])
  end.

Definition entry_links (allow_domains : pyval) (feed : Feed) (max_entries : pyval)
  : result (list string) :=
  let? es := py_slice_to (entries feed) max_entries in
  collect_links allow_domains es [].

Definition allow_domains_of (config : dict) : pyval :=
  dict_get config "allow_domains" (PList []).

Definition RSSFeedSource_get_recipe_urls (config : dict) : W (list string) :=
  let rss_url := dict_get config "rss_url" PNone in
  let max_entries := dict_get config "max_entries" (PInt 20) in
  if negb (truthy rss_url) then ret []
  else
    try_catch
      (let* feed := parse_feed rss_url in
       liftR (entry_links (allow_domains_of config) feed max_entries))
      (fun _ => ret []).

(** [index_url.rstrip('/') + rss_suffix] *)
Definition suffix_url (index_url rss_suffix : pyval) : result pyval :=
  match index_url with
  | PStr s =>
      match rss_suffix with
      | PStr t => Ok (PStr (String.append (rstrip "/" s) t))
      | _ => Raise (TypeError "can only concatenate str to str")
      end
  | _ => Raise (AttributeError "object has no attribute 'rstrip'")
  end.

Definition RSSSuffixSource_get_recipe_urls (config : dict) : W (list string) :=
  let index_url := dict_get config "index_url" PNone in
  let rss_suffix := dict_get config "rss_suffix" (PStr "/rss") in
  let max_entries := dict_get config "max_entries" (PInt 20) in
  if negb (truthy index_url) then ret []
  else
    let* rss_url := liftR (suffix_url index_url rss_suffix) in
    try_catch
      (let* feed := parse_feed rss_url in
       liftR (entry_links (allow_domains_of config) feed max_entries))
      (fun _ => ret []).

Definition CrawlIndexSource_get_recipe_urls (config : dict) : W (list string) :=
  let index_url := dict_get config "index_url" PNone in
  let max_pages := dict_get config "max_pages" (PInt 100) in
  if negb (truthy index_url) then ret []
  else if negb (truthy (allow_domains_of config)) then ret []
  else
    try_catch
      (crawl index_url (allow_domains_of config) max_pages)
      (fun _ => ret []).

(** One round of [for rss_url in rss_candidates]: the URLs with which the
    method returns, or [None] when the loop goes on. *)
Definition try_candidate (allow_domains max_entries rss_url : pyval)
  : W (option (list string)) :=
  try_catch
    (let* feed := parse_feed rss_url in
     if negb (bozo feed) && nonempty (entries feed) then
       let* urls := liftR (entry_links allow_domains feed max_entries) in
       match urls with
       | [] => ret None
       | _ => ret (Some urls)
       end
     else ret None)
    (fun _ => ret None).

Fixpoint try_candidates (allow_domains max_entries : pyval) (candidates : list pyval)
  : W (option (list string)) :=
  match candidates with
  | [] => ret None
  | rss_url :: rest =>
      let* found := try_candidate allow_domains max_entries rss_url in
      match found with
      | Some urls => ret (Some urls)
      | None => try_candidates allow_domains max_entries rest
      end
  end.

Definition RSSOrCrawlSource_get_recipe_urls (config : dict) : W (list string) :=
  let rss_candidates := dict_get config "rss_url_candidates" (PList []) in
  let crawl_fallback := dict_get config "crawl_fallback_url" PNone in
  let max_entries := dict_get config "max_entries" (PInt 20) in
  let max_pages := dict_get config "max_pages" (PInt 100) in
  let* candidates := liftR (py_iter rss_candidates) in
  let* found := try_candidates (allow_domains_of config) max_entries candidates in
  match found with
  | Some urls => ret urls
  | None =>
      if truthy crawl_fallback then
        if negb (truthy (allow_domains_of config)) then ret []
        else
          try_catch
            (crawl crawl_fallback (allow_domains_of config) max_pages)
            (fun _ => ret [])
      else ret []
  end.

Fixpoint url_list_loop (allow_domains : pyval) (urls : list pyval)
  (normalized : list string) : result (list string) :=
  match urls with
  | [] => Ok normalized
  | url :: rest =>
      let? skip := outside_allowed allow_domains url in
      if skip then url_list_loop allow_domains rest normalized
      else
        let? n := normalize env url in
        url_list_loop allow_domains rest (normalized ++ [n])
  end.

Definition URLListSource_get_recipe_urls (config : dict) : W (list string) :=
  let urls := dict_get config "urls" (PList []) in
  let* items := liftR (py_iter urls) in
  liftR (url_list_loop (allow_domains_of config) items []).

Definition get_recipe_urls (kind : SourceKind) (config : dict) : W (list string) :=
  match kind with
  | RSSFeedSource => RSSFeedSource_get_recipe_urls config
  | RSSSuffixSource => RSSSuffixSource_get_recipe_urls config
  | CrawlIndexSource => CrawlIndexSource_get_recipe_urls config
  | RSSOrCrawlSource => RSSOrCrawlSource_get_recipe_urls config
  | URLListSource => URLListSource_get_recipe_urls config
  end.

End WithEnv.

Definition create_source (config : dict) : option SourceKind :=
  let source_type := dict_get config "type" PNone in
  if is_str source_type "rss" then Some RSSFeedSource
  else if is_str source_type "rss_suffix" then Some RSSSuffixSource
  else if is_str source_type "crawl_index" then Some CrawlIndexSource
  else if is_str source_type "rss_or_crawl" then Some RSSOrCrawlSource
  else if is_str source_type "url_list" then Some URLListSource
  else None.

End Sources.

(* ===================================================================== *)
(** * Import client ([mealie_client.py])                                  *)
(* ===================================================================== *)

Module Mealie.

(** The arguments of [urllib3.util.retry.Retry] that the client sets.
    [total] is the number of retries that are left: each retry takes one
    away, and the request is given up when none is left to take. *)
Record Retry : Type := {
  total : nat;
  backoff_factor : Z;
  status_forcelist : list Z;
  allowed_methods : list string;
}.

(** [Retry(total=3, backoff_factor=2,
          status_forcelist=[429, 500, 502, 503, 504],
          allowed_methods=["GET", "POST"])] *)
Definition retry_strategy : Retry :=
  {| total := 3;
     backoff_factor := 2;
     status_forcelist := [429; 500; 502; 503; 504]%Z;
     allowed_methods := ["GET"; "POST"] |}.

(** [Retry.RETRY_AFTER_STATUS_CODES] *)
Definition RETRY_AFTER_STATUS_CODES : list Z := [413; 429; 503]%Z.

Definition is_method_retryable (r : Retry) (method : string) : bool :=
  bool_decide (method ∈ allowed_methods r).

(** [Retry.is_retry(method, status_code, has_retry_after)], with [left] the
    current value of [total]. *)
Definition is_retry (r : Retry) (left : nat) (method : string) (code : Z)
  (has_retry_after : bool) : bool :=
  is_method_retryable r method
  && (bool_decide (code ∈ status_forcelist r)
      || (negb (left =? 0)%nat && has_retry_after
          && bool_decide (code ∈ RETRY_AFTER_STATUS_CODES))).

(** [Retry.get_backoff_time()] after [errors] consecutive failures. *)
Definition get_backoff_time (r : Retry) (errors : nat) : Z :=
  if (errors <=? 1)%nat then 0%Z
  else Z.min 120 (backoff_factor r * 2 ^ (Z.of_nat errors - 1))%Z.

(** [Retry.sleep(response)]: the server's [Retry-After] when it gives one,
    the backoff time otherwise. *)
Definition sleep_time (r : Retry) (errors : nat) (retry_after : option Z) : Z :=
  match retry_after with
  | Some s => if (s =? 0)%Z then get_backoff_time r errors else s
  | None => get_backoff_time r errors
  end.

Record Response : Type := {
  status_code : Z;
  json : result pyval;
}.

Section WithEnv.

Variable env : Env.

(** One call through the session's adapter: the request goes out, and goes
    out again while the answer is one to retry and a retry is left.
    [errors] counts the failures so far, [n] the requests so far. *)
Fixpoint urlopen (r : Retry) (left errors : nat) (method target : string)
  (body : option string) (n : nat) : W Response :=
  log (EvHttp method target body);;
  match server env method target body n with
  | WStatus code retry_after js =>
      if is_retry r left method code (bool_decide (is_Some retry_after)) then
        match left with
        | O => raise RetryError
        | S left' =>
            log (EvBackoff (sleep_time r (S errors) retry_after));;
            urlopen r left' (S errors) method target body (S n)
        end
      else ret {| status_code := code; json := js |}
  | WConnectTimeout =>
      match left with
      | O => raise Timeout
      | S left' =>
          log (EvBackoff (get_backoff_time r (S errors)));;
          urlopen r left' (S errors) method target body (S n)
      end
  | WConnectError =>
      match left with
      | O => raise ConnectionError
      | S left' =>
          log (EvBackoff (get_backoff_time r (S errors)));;
          urlopen r left' (S errors) method target body (S n)
      end
  end.

Definition session_request (method target : string) (body : option string)
  : W Response :=
  urlopen retry_strategy (total retry_strategy) 0 method target body 0.

(** [response.raise_for_status()] *)
Definition raise_for_status (response : Response) : W unit :=
  if (400 <=? status_code response)%Z && (status_code response <? 600)%Z
  then raise (HTTPError (status_code response))
  else ret tt.

Definition test_connection : W bool :=
  try_catch
    (let* response := session_request "GET" "/api/app/about" None in
     raise_for_status response;;
     ret true)
    (fun e =>
       match e with
       | Timeout => ret false
       | ConnectionError => ret false
       | _ => ret false
       end).

Definition dry_run_recipe (url : string) : pyval :=
  PDict [("name", PStr "Dry Run Recipe"); ("url", PStr url); ("dry_run", PBool true)].

Definition existing_recipe (url : string) : pyval :=
  PDict [("name", PStr "Existing Recipe"); ("url", PStr url);
         ("already_exists", PBool true)].

(** Returns the recipe, or [None] as [PNone]. *)
Definition import_recipe_from_url (dry_run : bool) (url : string) : W pyval :=
  log (EvImportCall url);;
  if dry_run then ret (dry_run_recipe url)
  else
    try_catch
      (let* response :=
         session_request "POST" "/api/recipes/create-url" (Some url) in
       raise_for_status response;;
       let* recipe := liftR (json response) in
       let* recipe_name := liftR (py_get recipe "name" (PStr "Unknown")) in
       ret recipe)
      (fun e =>
         match e with
         | Timeout => ret PNone
         | HTTPError status =>
             if (status =? 400)%Z then ret PNone
             else if (status =? 409)%Z then ret (existing_recipe url)
             else if (status =? 429)%Z then ret PNone
             else ret PNone
         | _ => ret PNone
         end).

End WithEnv.

End Mealie.

(* ===================================================================== *)
(** * Orchestrator ([main.py])                                            *)
(* ===================================================================== *)

Module Main.

Import State.

(** What [RecipeSyncManager.__init__] reads: the configuration document,
    [MAX_NEW_RECIPES_PER_RUN] and [DRY_RUN]. *)
Record Manager : Type := {
  sources_config : pyval;
  max_recipes_per_run : Z;
  dry_run : bool;
}.

Section WithEnv.

Variable env : Env.

(** [for url in urls: domain = extract_domain(url); mark_url_seen(url, domain)] *)
Fixpoint mark_seen_all (urls : list string) : M Store unit :=
  match urls with
  | [] => ret tt
  | url :: rest =>
      let* domain := liftR (extract_domain env url) in
      mark_url_seen url domain;;
      mark_seen_all rest
  end.

(** One round of [for source_config in ...]: [all_urls] after it. *)
Definition discover_source (source_config : pyval) (all_urls : list string)
  : M Store (list string) :=
  let* enabled := liftR (py_get source_config "enabled" (PBool true)) in
  if negb (truthy enabled) then ret all_urls
  else
    match source_config with
    | PDict config =>
        match Sources.create_source config with
        | None => ret all_urls
        | Some source =>
            try_catch
              (let* urls := lift (Sources.get_recipe_urls env source config) in
               mark_seen_all urls;;
               ret (all_urls ++ urls))
              (fun _ => ret all_urls)
        end
    | _ => raise (AttributeError "object has no attribute 'get'")
    end.

Fixpoint discover_loop (source_configs : list pyval) (all_urls : list string)
  : M Store (list string) :=
  match source_configs with
  | [] => ret all_urls
  | source_config :: rest =>
      let* all_urls' := discover_source source_config all_urls in
      discover_loop rest all_urls'
  end.

Definition discover_urls (self : Manager) : M Store (list string) :=
  let* sources := liftR (py_get (sources_config self) "sources" (PList [])) in
  let* source_configs := liftR (py_iter sources) in
  discover_loop source_configs [].

(** [[url for url in unique_urls if url not in imported_urls]] *)
Definition new_urls_of (unique_urls : list string) (imported_urls : gset string)
  : list string :=
  filter (fun url => url ∉ imported_urls) unique_urls.

(** One round of [for i, url in enumerate(urls_to_import, 1)]: the two
    counters after it. *)
Definition import_one (self : Manager) (url : string) (counts : nat * nat)
  : M Store (nat * nat) :=
  let '(imported_count, failed_count) := counts in
  try_catch
    (let* recipe := lift (Mealie.import_recipe_from_url env (dry_run self) url) in
     let* counts' :=
       (if truthy recipe then
          let* recipe_name := liftR (py_get recipe "name" (PStr "Unknown")) in
          record_import url recipe_name None;;
          record_attempt url true None;;
          ret (S imported_count, failed_count)
        else
          record_attempt url false (Some "Import failed");;
          ret (imported_count, S failed_count)) in
     log (EvSleep 2);;
     ret counts')
    (fun e =>
       record_attempt url false (Some (str_exn e));;
       ret (imported_count, S failed_count)).

Fixpoint import_loop (self : Manager) (urls : list string) (counts : nat * nat)
  : M Store (nat * nat) :=
  match urls with
  | [] => ret counts
  | url :: rest =>
      let* counts' := import_one self url counts in
      import_loop self rest counts'
  end.

(** [RecipeSyncManager.sync], over what [self.state.get_stats] does.
    [StateManager] is not part of the sources at hand, and this is the one
    call on it that follows the finalization of a run inside the [try]. *)
Definition sync_with (get_stats : M Store pyval) (self : Manager) : M Store unit :=
  let* run_id := start_sync_run in
  try_catch
    (let* connected := lift (Mealie.test_connection env) in
     if negb connected then
       complete_sync_run run_id 0 0 0 (Some "Failed to connect to Mealie")
     else
       let* discovered_urls := discover_urls self in
       let unique_urls := dict_fromkeys discovered_urls in
       let* imported_urls := get_imported_urls in
       let new_urls := new_urls_of unique_urls imported_urls in
       if negb (nonempty new_urls) then
         complete_sync_run run_id (length discovered_urls) 0 0 None
       else
         let urls_to_import := slice_to new_urls (max_recipes_per_run self) in
         if dry_run self then
           complete_sync_run run_id (length discovered_urls) 0 0 None
         else
           let* counts := import_loop self urls_to_import (0, 0) in
           complete_sync_run run_id (length discovered_urls)
                             (fst counts) (snd counts) None;;
           let* stats := get_stats in
           let* total_imports := liftR (py_getitem stats "total_imports") in
           ret tt)
    (fun e => complete_sync_run run_id 0 0 0 (Some (str_exn e))).

(** [sync] with the store as it is modelled. *)
Definition sync (self : Manager) : M Store unit := sync_with State.get_stats self.

(** [main]'s loop body, a bounded number of times: [manager.sync()] with
    whatever it raises caught. The configuration and the outside world may
    differ from one cycle to the next. *)
Definition cycle (self : Manager) : M Store unit :=
  try_catch (sync self) (fun _ => ret tt).

End WithEnv.

(** Consecutive cycles, each with the outside world and the manager given
    for it. *)
Fixpoint cycles (rs : list (Env * Manager)) : M Store unit :=
  match rs with
  | [] => ret tt
  | (env, self) :: rest => cycle env self;; cycles rest
  end.

End Main.

(* ===================================================================== *)
(** * What a run meets: the pure readings of the outside world            *)
(* ===================================================================== *)

Module Run.

Import State.

(** The methods that RFC 9110 calls idempotent. *)
Definition idempotent_method (method : string) : bool :=
  bool_decide (method ∈ ["GET"; "HEAD"; "PUT"; "DELETE"; "OPTIONS"; "TRACE"]).

(** Whether the connectivity check succeeds, and its traffic. *)
Definition connected (env : Env) : bool :=
  match value_of (Mealie.test_connection env tt) with
  | Ok b => b
  | Raise _ => false
  end.

Definition connection_events (env : Env) : list Event :=
  events_of (Mealie.test_connection env tt).

(** What the import client returns for a URL outside dry-run mode, and its
    events. *)
Definition recipe_of (env : Env) (url : string) : pyval :=
  match value_of (Mealie.import_recipe_from_url env false url tt) with
  | Ok v => v
  | Raise _ => PNone
  end.

Definition import_events (env : Env) (url : string) : list Event :=
  events_of (Mealie.import_recipe_from_url env false url tt).

(** What the import client returns is a dictionary or [None]. *)
Definition recipe_shape (r : result pyval) : Prop :=
  match r with
  | Ok v => v = PNone \/ exists d, v = PDict d
  | Raise _ => False
  end.

(** [recipe.get('name', 'Unknown')] *)
Definition recipe_name (recipe : pyval) : pyval :=
  match recipe with
  | PDict d => dict_get d "name" (PStr "Unknown")
  | _ => PStr "Unknown"
  end.

(** The records that the import of [url] leaves behind. *)
Definition import_record (env : Env) (url : string) : ImportRecord :=
  {| imp_url := url; imp_name := recipe_name (recipe_of env url); imp_source := None |}.

Definition attempt_record (env : Env) (url : string) : AttemptRecord :=
  if truthy (recipe_of env url)
  then {| att_url := url; att_success := true; att_error := None |}
  else {| att_url := url; att_success := false; att_error := Some "Import failed" |}.

(** The URLs with which [RSSOrCrawlSource.get_recipe_urls] returns at a
    candidate feed, if it returns there: the feed parses, is not flagged as
    malformed, has entries, and the links of its first [max_entries]
    entries, filtered and normalised, are not empty. *)
Definition candidate_urls (env : Env) (allow_domains max_entries rss_url : pyval)
  : option (list string) :=
  match feedparser_parse env rss_url with
  | Ok feed =>
      if negb (bozo feed) && nonempty (entries feed) then
        match Sources.entry_links env allow_domains feed max_entries with
        | Ok (u :: us) => Some (u :: us)
        | _ => None
        end
      else None
  | Raise _ => None
  end.

(** What the crawl fallback of [RSSOrCrawlSource.get_recipe_urls] does. *)
Definition fallback_run (env : Env) (config : dict) : unit * list Event * result (list string) :=
  let crawl_fallback := dict_get config "crawl_fallback_url" PNone in
  let allow_domains := Sources.allow_domains_of config in
  let max_pages := dict_get config "max_pages" (PInt 100) in
  if truthy crawl_fallback && truthy allow_domains then
    (tt, [EvCrawl crawl_fallback],
     match crawl_index_page env crawl_fallback allow_domains max_pages with
     | Ok urls => Ok urls
     | Raise _ => Ok []
     end)
  else (tt, [], Ok []).

(** Only the SeenRecords may differ. *)
Definition only_seen (st st' : Store) : Prop :=
  imports st' = imports st /\ attempts st' = attempts st /\ runs st' = runs st.

(** Whether [extract_domain] returns for each of the URLs. *)
Definition domains_ok (env : Env) (urls : list string) : bool :=
  forallb (fun url => is_ok (extract_domain env url)) urls.

(** What one entry of the configuration adds to [all_urls]: the list that
    its source returns, when the entry is enabled, its type is known, the
    source returns, and every URL of the list is marked seen; nothing
    otherwise. An entry that is not a dictionary raises. *)
Definition contribution (env : Env) (source_config : pyval) : result (list string) :=
  let? enabled := py_get source_config "enabled" (PBool true) in
  if negb (truthy enabled) then Ok []
  else
    match source_config with
    | PDict config =>
        match Sources.create_source config with
        | None => Ok []
        | Some source =>
            match value_of (Sources.get_recipe_urls env source config tt) with
            | Ok urls => if domains_ok env urls then Ok urls else Ok []
            | Raise _ => Ok []
            end
        end
    | _ => Raise (AttributeError "object has no attribute 'get'")
    end.

(** The contributions of the entries, one after the other in the order of
    the configuration. *)
Fixpoint contributions (env : Env) (source_configs : list pyval) : result (list string) :=
  match source_configs with
  | [] => Ok []
  | source_config :: rest =>
      let? urls := contribution env source_config in
      let? more := contributions env rest in
      Ok (urls ++ more)
  end.

(** What [discover_urls] returns. *)
Definition discovered (env : Env) (self : Main.Manager) : result (list string) :=
  let? sources := py_get (Main.sources_config self) "sources" (PList []) in
  let? source_configs := py_iter sources in
  contributions env source_configs.

(** Whether the import of a URL succeeds. *)
Definition succeeded (env : Env) (url : string) : bool := truthy (recipe_of env url).

(** One round of the import loop: the store, the events and the counters. *)
Definition after_import (env : Env) (st : Store) (url : string) : Store :=
  {| seen := seen st;
     imports := if succeeded env url then imports st ++ [import_record env url]
                else imports st;
     attempts := attempts st ++ [attempt_record env url];
     runs := runs st |}.

Definition import_one_events (env : Env) (url : string) : list Event :=
  import_events env url
  ++ (if succeeded env url
      then [EvStore (RecordImport url (recipe_name (recipe_of env url)) None);
            EvStore (RecordAttempt url true None)]
      else [EvStore (RecordAttempt url false (Some "Import failed"))])
  ++ [EvSleep 2].

Definition count_import (env : Env) (counts : nat * nat) (url : string) : nat * nat :=
  if succeeded env url then (S (fst counts), snd counts)
  else (fst counts, S (snd counts)).

(** The candidate list of a run: the discovered URLs without duplicates
    and without those that have an ImportRecord. *)
Definition candidates (discovered_urls : list string) (st : Store) : list string :=
  Main.new_urls_of (dict_fromkeys discovered_urls) (imported_urls st).

(** The ways through [sync]. *)
Inductive Plan : Type :=
| Offline
| Fatal (e : exn)
| Idle (discovered_urls : list string)
| Import (discovered_urls urls_to_import : list string).

Definition plan (env : Env) (self : Main.Manager) (st : Store) : Plan :=
  if negb (connected env) then Offline
  else
    match discovered env self with
    | Raise e => Fatal e
    | Ok discovered_urls =>
        if negb (nonempty (candidates discovered_urls st)) then Idle discovered_urls
        else if Main.dry_run self then Idle discovered_urls
        else Import discovered_urls
               (slice_to (candidates discovered_urls st) (Main.max_recipes_per_run self))
    end.

Definition next_id (st : Store) : nat := S (length (runs st)).

Definition opened (st : Store) : Store := state_of (start_sync_run st).

Definition closed (id discovered imported failed : nat) (reason : option string)
  (st : Store) : Store :=
  state_of (complete_sync_run id discovered imported failed reason st).

(** What [sync] does on each way. *)
Definition run_of_plan (env : Env) (self : Main.Manager) (st : Store) (p : Plan)
  : Store * list Event * result unit :=
  let id := next_id st in
  let disc := Main.discover_urls env self (opened st) in
  match p with
  | Offline =>
      (closed id 0 0 0 (Some "Failed to connect to Mealie") (opened st),
       EvStore (StartSyncRun id) :: connection_events env
       ++ [EvStore (CompleteSyncRun id 0 0 0 (Some "Failed to connect to Mealie"))],
       Ok tt)
  | Fatal e =>
      (closed id 0 0 0 (Some (str_exn e)) (state_of disc),
       EvStore (StartSyncRun id) :: connection_events env ++ events_of disc
       ++ [EvStore (CompleteSyncRun id 0 0 0 (Some (str_exn e)))],
       Ok tt)
  | Idle discovered_urls =>
      (closed id (length discovered_urls) 0 0 None (state_of disc),
       EvStore (StartSyncRun id) :: connection_events env ++ events_of disc
       ++ [EvStore GetImportedUrls;
           EvStore (CompleteSyncRun id (length discovered_urls) 0 0 None)],
       Ok tt)
  | Import discovered_urls urls =>
      let counts := foldl (count_import env) (0, 0) urls in
      (closed id (length discovered_urls) (fst counts) (snd counts) None
         (foldl (after_import env) (state_of disc) urls),
       EvStore (StartSyncRun id) :: connection_events env ++ events_of disc
       ++ [EvStore GetImportedUrls]
       ++ concat (map (import_one_events env) urls)
       ++ [EvStore (CompleteSyncRun id (length discovered_urls)
                      (fst counts) (snd counts) None);
           EvStore GetStats],
       Ok tt)
  end.

(** The URLs that a run hands to the import client, the records that it
    adds, and the call that closes it, read off its plan. *)
Definition attempted (p : Plan) : list string :=
  match p with
  | Import _ urls => urls
  | _ => []
  end.

Definition new_imports (env : Env) (p : Plan) : list ImportRecord :=
  map (import_record env) (filter (fun url => succeeded env url = true) (attempted p)).

Definition new_attempts (env : Env) (p : Plan) : list AttemptRecord :=
  map (attempt_record env) (attempted p).

Definition final_call (env : Env) (st : Store) (p : Plan) : StoreCall :=
  match p with
  | Offline =>
      CompleteSyncRun (next_id st) 0 0 0 (Some "Failed to connect to Mealie")
  | Fatal e => CompleteSyncRun (next_id st) 0 0 0 (Some (str_exn e))
  | Idle discovered_urls =>
      CompleteSyncRun (next_id st) (length discovered_urls) 0 0 None
  | Import discovered_urls urls =>
      CompleteSyncRun (next_id st) (length discovered_urls)
        (fst (foldl (count_import env) (0, 0) urls))
        (snd (foldl (count_import env) (0, 0) urls)) None
  end.

(** The run record that a [complete_sync_run] call writes. *)
Definition finished_run (c : StoreCall) : option SyncRun :=
  match c with
  | CompleteSyncRun id d i f r =>
      Some {| run_id := id; run_finished := true; run_discovered := d;
              run_imported := i; run_failed := f; run_reason := r |}
  | _ => None
  end.

(** What a [complete_sync_run] call does to the runs that are there. *)
Definition finalized_by (c : StoreCall) (r : SyncRun) : SyncRun :=
  match c with
  | CompleteSyncRun id d i f reason => finalize id d i f reason r
  | _ => r
  end.

(** A [get_stats] that ends with [r] and leaves the store as it is: the
    counts of a store that answers, or the exception of one that cannot be
    read. *)
Definition get_stats_giving (r : result pyval) : M Store pyval :=
  fun st => (st, [EvStore GetStats], r).

(** What follows the finalization of a run that imported:
    [stats = self.state.get_stats()] and [stats['total_imports']]. *)
Definition summary (r : result pyval) : result pyval :=
  let? stats := r in py_getitem stats "total_imports".

End Run.
Export Run.

(* ===================================================================== *)
(** * Statements of the design document that are put to the test          *)
(* ===================================================================== *)

Module Claims.

Import Sources.

(** The transport policy as the design document states it: no call makes
    more than three requests, and a call that makes more than one uses an
    idempotent method. *)
Definition three_attempts_idempotent_only : Prop :=
  forall (env : Env) (method target : string) (body : option string),
    length (requests (events_of (Mealie.session_request env method target body tt))) <= 3
    /\ (1 < length (requests (events_of (Mealie.session_request env method target body tt)))
        -> idempotent_method method = true).

(** A candidate feed as the design document describes an acceptable one:
    it parses without the malformed-content flag and yields entries. *)
Definition parses_with_entries (env : Env) (rss_url : pyval) : bool :=
  match feedparser_parse env rss_url with
  | Ok feed => negb (bozo feed) && nonempty (entries feed)
  | Raise _ => false
  end.

(** The feed-or-crawl variant as the design document states it: the first
    candidate that parses without the flag and yields entries is the
    accepted one, so it is the last feed that is parsed and no page is
    crawled. *)
Definition first_parsing_candidate_accepted : Prop :=
  forall (env : Env) (config : dict) (candidates : list pyval) (c : pyval),
    py_iter (dict_get config "rss_url_candidates" (PList [])) = Ok candidates ->
    List.find (parses_with_entries env) candidates = Some c ->
    last (fetches (events_of (RSSOrCrawlSource_get_recipe_urls env config tt)))
    = Some (EvFeedParse c).

End Claims.

(* ===================================================================== *)
(** * Fixtures: small worlds and configurations for examples              *)
(* ===================================================================== *)

Module Fixtures.

Import Sources Mealie Main State.

Definition soup : pyval := PDict [("name", PStr "Soup")].

(** A world without feeds: the crawler finds nothing, every domain is
    allowed, URLs are normalised with the default denylist, and the server
    answers [200] to everything. *)
Definition plain_env : Env :=
  {| feedparser_parse := fun _ => Raise (OtherError "no such feed");
     crawl_index_page := fun _ _ _ => Ok [];
     matches_domain := fun _ _ => Ok true;
     normalize := fun v =>
       match v with
       | PStr s => Ok (URLNormalizer.normalize URLNormalizer.default_tracking s)
       | _ => Raise (TypeError "expected str")
       end;
     extract_domain := fun _ => Ok "example.com";
     server := fun _ _ _ _ => WStatus 200 None (Ok soup) |}.

(** The same world with a server that answers [answer] to every [POST]. *)
Definition env_with_post (answer : Wire) : Env :=
  {| feedparser_parse := feedparser_parse plain_env;
     crawl_index_page := crawl_index_page plain_env;
     matches_domain := matches_domain plain_env;
     normalize := normalize plain_env;
     extract_domain := extract_domain plain_env;
     server := fun method _ _ _ =>
       if String.eqb method "POST" then answer else WStatus 200 None (Ok soup) |}.

Definition env_503 : Env := env_with_post (WStatus 503 None (Raise JSONDecodeError)).
Definition env_409 : Env := env_with_post (WStatus 409 None (Raise JSONDecodeError)).

(** The same world with a server that cannot be reached. *)
Definition env_offline : Env :=
  {| feedparser_parse := feedparser_parse plain_env;
     crawl_index_page := crawl_index_page plain_env;
     matches_domain := matches_domain plain_env;
     normalize := normalize plain_env;
     extract_domain := extract_domain plain_env;
     server := fun _ _ _ _ => WConnectError |}.

Definition url_list_source (name : string) (urls : list string) : pyval :=
  PDict [("name", PStr name); ("type", PStr "url_list");
         ("urls", PList (map PStr urls))].

Definition manager_of (sources : list pyval) (cap : Z) (dry : bool) : Manager :=
  {| sources_config := PDict [("sources", PList sources)];
     max_recipes_per_run := cap;
     dry_run := dry |}.

Definition u1 : string := "https://example.com/r/1".
Definition u2 : string := "https://example.com/r/2".
Definition u3 : string := "https://example.com/r/3".
Definition u4 : string := "https://example.com/r/4".
Definition u5 : string := "https://example.com/r/5".

(** A world with three feeds. The first is well formed, but its only
    entry links to another site; the second is well formed and links to
    the allowed site; the third is flagged as malformed. The crawler finds
    one page. *)
Definition feed_a : pyval := PStr "https://example.com/a.xml".
Definition feed_b : pyval := PStr "https://example.com/b.xml".
Definition feed_c : pyval := PStr "https://example.com/c.xml".

Definition env_feeds : Env :=
  {| feedparser_parse := fun v =>
       if is_str v "https://example.com/a.xml" then
         Ok {| bozo := false; entries := [Some "https://other.org/x"] |}
       else if is_str v "https://example.com/b.xml" then
         Ok {| bozo := false; entries := [Some "https://example.com/r/1?utm_source=rss"] |}
       else if is_str v "https://example.com/c.xml" then
         Ok {| bozo := true; entries := [Some "https://example.com/r/2"] |}
       else Raise (OtherError "no such feed");
     crawl_index_page := fun _ _ _ => Ok [u3];
     matches_domain := fun v _ =>
       match v with
       | PStr s => Ok (String.prefix "https://example.com/" s)
       | _ => Raise (TypeError "expected str")
       end;
     normalize := normalize plain_env;
     extract_domain := extract_domain plain_env;
     server := server plain_env |}.

Definition feeds_config (candidates : list pyval) (fallback : pyval) : dict :=
  [("name", PStr "feeds"); ("type", PStr "rss_or_crawl");
   ("rss_url_candidates", PList candidates);
   ("crawl_fallback_url", fallback);
   ("allow_domains", PList [PStr "example.com"])].

(** A static list whose [urls] key is left empty in the YAML document. *)
Definition empty_urls_config : dict :=
  [("name", PStr "list"); ("type", PStr "url_list"); ("urls", PNone)].

Definition null_candidates_config : dict :=
  [("name", PStr "feeds"); ("type", PStr "rss_or_crawl");
   ("rss_url_candidates", PNone)].

(** Managers over static lists. *)
Definition five_manager : Manager :=
  manager_of [url_list_source "list" [u1; u2; u3; u4; u5]] 2 false.

Definition twice_manager : Manager :=
  manager_of [url_list_source "a" [u1; u2]; url_list_source "b" [u2; u1; u1]] 10 false.

Definition two_manager : Manager :=
  manager_of [url_list_source "list" [u1; u2]] 10 false.

Definition dry_manager : Manager :=
  manager_of [url_list_source "list" [u1; u2]] 10 true.

(** A configuration whose second entry is a string instead of a mapping. *)
Definition broken_manager : Manager :=
  manager_of [url_list_source "a" [u1]; PStr "oops"] 10 false.

End Fixtures.

(* ===================================================================== *)
(** * The rest of the import client and of the orchestrator               *)
(* ===================================================================== *)

Module Outcome.

Import Mealie.

(** The statuses for which [raise_for_status] raises. *)
Definition error_status (code : Z) : bool := (400 <=? code)%Z && (code <? 600)%Z.

(** What the handlers of [import_recipe_from_url] return: the branches for
    400, 429 and the other statuses differ in what they log only. *)
Definition on_error (url : string) (e : exn) : pyval :=
  match e with
  | HTTPError status => if (status =? 409)%Z then existing_recipe url else PNone
  | _ => PNone
  end.

(** What [import_recipe_from_url] makes of what the session gives back:
    the recipe, the record of an existing recipe, or [None]. *)
Definition classify (url : string) (r : result Response) : pyval :=
  match r with
  | Raise e => on_error url e
  | Ok response =>
      if error_status (status_code response) then
        on_error url (HTTPError (status_code response))
      else
        match json response with
        | Ok (PDict d) => PDict d
        | Ok _ => PNone
        | Raise e => on_error url e
        end
  end.

(** What [test_connection] makes of it. *)
Definition reachable (r : result Response) : bool :=
  match r with
  | Ok response => negb (error_status (status_code response))
  | Raise _ => false
  end.

(** What [search_recipes] makes of it. *)
Definition items_of (r : result Response) : pyval :=
  match r with
  | Raise _ => PList []
  | Ok response =>
      if error_status (status_code response) then PList []
      else
        match json response with
        | Ok (PDict d) => dict_get d "items" (PList [])
        | _ => PList []
        end
  end.

End Outcome.

Module Search.

Import Mealie.

(** [MealieClient.search_recipes]. The request carries the query as its
    [search] parameter; it is logged in the place of the body. *)
Definition search_recipes (env : Env) (dry_run : bool) (query : string) : W pyval :=
  if dry_run then ret (PList [])
  else
    try_catch
      (let* response := session_request env "GET" "/api/recipes" (Some query) in
       raise_for_status response;;
       let* body := liftR (json response) in
       liftR (py_get body "items" (PList [])))
      (fun _ => ret (PList [])).

End Search.

Module Loader.

(** [needle in s] for strings. *)
Fixpoint is_substring (needle s : string) : bool :=
  String.prefix needle s
  || match s with
     | EmptyString => false
     | String _ s' => is_substring needle s'
     end.

(** ['literal' in v]: a key of a dictionary, an item of a list, a part of
    a string; the other values are not containers. *)
Definition py_contains (needle : string) (v : pyval) : result bool :=
  match v with
  | PDict d => Ok (existsb (fun kv => String.eqb (fst kv) needle) d)
  | PList l => Ok (existsb (fun x => is_str x needle) l)
  | PStr s => Ok (is_substring needle s)
  | PNone => Raise (TypeError "argument of type 'NoneType' is not iterable")
  | PBool _ => Raise (TypeError "argument of type 'bool' is not iterable")
  | PInt _ => Raise (TypeError "argument of type 'int' is not iterable")
  end.

(** The body of the [try] of [_load_sources_config], given what opening and
    parsing the file gives: the configuration, or [None] where the process
    exits. Every exception ends in [sys.exit(1)] as well. *)
Definition check_config (loaded : result pyval) : option pyval :=
  match loaded with
  | Raise _ => None
  | Ok config =>
      if negb (truthy config) then None
      else
        match py_contains "sources" config with
        | Ok true => Some config
        | Ok false => None
        | Raise _ => None
        end
  end.

(** [RecipeSyncManager._load_sources_config]. [files name] is what opening
    and parsing the file [name] of the configuration directory gives, when
    the file exists. *)
Definition load_sources_config (files : string -> option (result pyval))
  : option pyval :=
  match files "sources.yaml" with
  | Some loaded => check_config loaded
  | None =>
      match files "recipe_sources.yaml" with
      | Some loaded => check_config loaded
      | None => None
      end
  end.

End Loader.

Module Fixtures2.

Import Fixtures Main.

(** A server that answers [200] with an empty JSON object to every [POST]. *)
Definition env_empty_object : Env := env_with_post (WStatus 200 None (Ok (PDict []))).

(** A cap of minus one. *)
Definition negative_cap_manager : Manager :=
  manager_of [url_list_source "list" [u1; u2; u3; u4; u5]] (-1) false.

(** A world in which the domain of [u2] cannot be extracted. *)
Definition env_no_domain : Env :=
  {| feedparser_parse := feedparser_parse plain_env;
     crawl_index_page := crawl_index_page plain_env;
     matches_domain := matches_domain plain_env;
     normalize := normalize plain_env;
     extract_domain := fun url =>
       if String.eqb url u2 then Raise (OtherError "no domain") else Ok "example.com";
     server := server plain_env |}.

(** A configuration directory in which [sources.yaml] holds a list. *)
Definition list_document (name : string) : option (result pyval) :=
  if String.eqb name "sources.yaml" then Some (Ok (PList [PStr "sources"])) else None.

End Fixtures2.

Module Entries.

(** An entry of the configuration on which discovery works: a mapping
    that is not disabled and whose type is known. What is not a mapping is
    kept: discovery stops there with an exception. *)
Definition active (source_config : pyval) : bool :=
  match source_config with
  | PDict config =>
      truthy (dict_get config "enabled" (PBool true))
      && match Sources.create_source config with Some _ => true | None => false end
  | _ => true
  end.

(** The [mark_url_seen] calls for a list of URLs whose domains are found. *)
Definition domain_of (env : Env) (url : string) : string :=
  match extract_domain env url with Ok d => d | Raise _ => "" end.

Definition marks (env : Env) (urls : list string) : list Event :=
  map (fun url => EvStore (MarkUrlSeen url (domain_of env url))) urls.

(** The URLs of the SeenRecords. *)
Definition seen_urls (st : State.Store) : list string :=
  map State.seen_url (State.seen st).

(** The store after those calls. *)
Definition marked (env : Env) (st : State.Store) (urls : list string) : State.Store :=
  foldl (fun st url => state_of (State.mark_url_seen url (domain_of env url) st)) st urls.

(** [self.allow_domains and not matches_domain(url, ...)] when the matcher
    returns. *)
Definition kept (env : Env) (allow_domains url : pyval) : bool :=
  negb (truthy allow_domains)
  || match matches_domain env url allow_domains with Ok m => m | Raise _ => false end.

End Entries.

Module Fixtures3.

Import Fixtures Main.

Definition feed_b_config : dict :=
  [("type", PStr "rss"); ("rss_url", feed_b); ("max_entries", PInt 1);
   ("allow_domains", PList [PStr "example.com"])].

Definition suffix_config : dict :=
  [("type", PStr "rss_suffix"); ("index_url", PStr "https://example.com/b.xml//");
   ("rss_suffix", PStr "")].

(** Two entries that discovery passes over, and one that it reads. *)
Definition mixed_sources : list pyval :=
  [PDict [("name", PStr "off"); ("type", PStr "url_list"); ("enabled", PBool false);
          ("urls", PList [PStr u3])];
   url_list_source "list" [u1; u2];
   PDict [("name", PStr "odd"); ("type", PStr "sitemap")]].

End Fixtures3.

(* ===================================================================== *)
(** * The watcher of the document indexer ([local-indexer.py])            *)
(* ===================================================================== *)

Module Indexer.

(** What the watcher does, in order: it asks for the size of the file,
    sleeps, and hands the file to [index_document]. *)
Inductive Step : Type :=
| StatFile
| Sleep (seconds : Z)
| IndexDocument.

(** How a call ends: it returns a value, or [time.sleep] raises
    [ValueError] for a negative length; nothing in the watcher catches
    that. *)
Inductive Outcome (A : Type) : Type :=
| Returned (a : A)
| ValueError.
Arguments Returned {A} a.
Arguments ValueError {A}.

(** A run: its steps and how it ends, or [None] when the fuel does not
    suffice. *)
Definition Run (A : Type) : Type := option (list Step * Outcome A).

Definition step_then {A} (s : Step) (k : Run A) : Run A :=
  match k with
  | Some (steps, r) => Some (s :: steps, r)
  | None => None
  end.

(** [time.sleep(FILE_SETTLE_TIME); wait_time += FILE_SETTLE_TIME] and what
    follows. *)
Definition sleep_then {A} (settle : Z) (k : Run A) : Run A :=
  if (settle <? 0)%Z then Some ([], ValueError) else step_then (Sleep settle) k.

(** The loop of [DocumentEventHandler._wait_for_file_stable]. [stat n] is
    the size that the [n]-th [file_path.stat()] gives, or [None] where it
    raises [OSError]; [checks] counts the calls so far. *)
Fixpoint wait_loop (settle max_wait : Z) (stat : nat -> option Z) (fuel : nat)
  (checks : nat) (last_size stable_count wait_time : Z) : Run bool :=
  if negb (wait_time <? max_wait)%Z then Some ([], Returned false)
  else
    match fuel with
    | O => None
    | S fuel' =>
        step_then StatFile
          match stat checks with
          | Some current_size =>
              if (current_size =? last_size)%Z then
                if (2 <=? stable_count + 1)%Z then Some ([], Returned true)
                else
                  sleep_then settle
                    (wait_loop settle max_wait stat fuel' (S checks)
                       current_size (stable_count + 1) (wait_time + settle))
              else
                sleep_then settle
                  (wait_loop settle max_wait stat fuel' (S checks)
                     current_size 0 (wait_time + settle))
          | None =>
              sleep_then settle
                (wait_loop settle max_wait stat fuel' (S checks)
                   last_size stable_count (wait_time + settle))
          end
    end.

(** [_wait_for_file_stable(file_path, max_wait)], with [settle] for
    [FILE_SETTLE_TIME]. *)
Definition wait_for_file_stable (settle max_wait : Z) (stat : nat -> option Z)
  (fuel : nat) : Run bool :=
  wait_loop settle max_wait stat fuel 0 (-1) 0 0.

(** [SUPPORTED_EXTENSIONS] *)
Definition SUPPORTED_EXTENSIONS : list string :=
  [".pdf"; ".txt"; ".md"; ".docx"; ".odt"; ".rtf"; ".doc"].

(** [s.lower()] on ASCII letters. *)
Fixpoint str_lower (s : string) : string :=
  match s with
  | EmptyString => EmptyString
  | String a s' => String (URLNormalizer.lower a) (str_lower s')
  end.

(** [file_path.suffix.lower() in SUPPORTED_EXTENSIONS] *)
Definition supported (suffix : string) : bool :=
  bool_decide (str_lower suffix ∈ SUPPORTED_EXTENSIONS).

(** [on_created] and [on_modified], which have the same body, for an event
    on a path with the given suffix. What [index_document] returns is not
    looked at, and neither is what the wait returns. *)
Definition on_event (is_directory : bool) (suffix : string) (settle : Z)
  (stat : nat -> option Z) (fuel : nat) : Run unit :=
  if is_directory then Some ([], Returned tt)
  else if supported suffix then
    match wait_for_file_stable settle 10 stat fuel with
    | Some (steps, Returned _) => Some (steps ++ [IndexDocument], Returned tt)
    | Some (steps, ValueError) => Some (steps, ValueError)
    | None => None
    end
  else Some ([], Returned tt).

(** The number of size checks and the time slept in a run. *)
Definition checks_of (steps : list Step) : nat :=
  length (List.filter (fun s => match s with StatFile => true | _ => false end) steps).

Definition slept (steps : list Step) : Z :=
  fold_right (fun s t => match s with Sleep n => (n + t)%Z | _ => t end) 0%Z steps.

End Indexer.

(* ===================================================================== *)
(** * Facts about the Python built-ins                                    *)
(* ===================================================================== *)

Section PyFacts.

Implicit Types (l keys : list string) (x y k : string).

Lemma filter_notin_snoc keys k l :
  filter (fun x => x ∉ keys ++ [k]) l
  = filter (fun x => x ∉ keys) (filter (fun x => x ≠ k) l).
Proof.
  induction l as [|a l IH]; [done|].
  rewrite (filter_cons (fun x => x ≠ k)).
  destruct (decide (a ≠ k)) as [Hak|Hak].
  - rewrite !filter_cons. rewrite IH.
    destruct (decide (a ∉ keys ++ [k])) as [H1|H1];
      destruct (decide (a ∉ keys)) as [H2|H2]; try done; exfalso; set_solver.
  - apply dec_stable in Hak. subst a.
    rewrite filter_cons. rewrite decide_False by set_solver. exact IH.
Qed.

Lemma filter_notin_absorb keys k l :
  k ∈ keys ->
  filter (fun x => x ∉ keys) (filter (fun x => x ≠ k) l)
  = filter (fun x => x ∉ keys) l.
Proof.
  intros Hk. induction l as [|a l IH]; [done|].
  rewrite (filter_cons (fun x => x ≠ k)).
  destruct (decide (a ≠ k)) as [Hak|Hak].
  - rewrite !filter_cons. rewrite IH. done.
  - apply dec_stable in Hak. subst a.
    rewrite (filter_cons (fun x => x ∉ keys)).
    rewrite decide_False by (intros H; apply H, Hk). exact IH.
Qed.

Lemma dict_fromkeys_unfold k l : dict_fromkeys (k :: l) = fromkeys_into [k] l.
Proof.
  unfold dict_fromkeys. cbn [fromkeys_into].
  rewrite bool_decide_eq_false_2; [done|]. apply not_elem_of_nil.
Qed.

Lemma filter_notin_singleton k l :
  filter (fun x => x ∉ [k]) l = filter (fun x => x ≠ k) l.
Proof. apply list_filter_iff. intros x. set_solver. Qed.

(** Inserting into a dictionary that has keys already: the old keys stay
    in front, the new ones follow in the order of their first insertion. *)
Lemma fromkeys_into_app keys l :
  fromkeys_into keys l = keys ++ filter (fun x => x ∉ keys) (dict_fromkeys l).
Proof.
  revert keys. induction l as [|k l IH]; intros keys.
  - simpl. by rewrite app_nil_r.
  - rewrite dict_fromkeys_unfold, (IH [k]), filter_notin_singleton.
    cbn [fromkeys_into app].
    rewrite filter_cons.
    case_bool_decide as E.
    + rewrite decide_False by (intros H; apply H, E).
      by rewrite IH, filter_notin_absorb.
    + rewrite decide_True by done.
      rewrite IH, <- app_assoc. simpl. by rewrite filter_notin_snoc.
Qed.

(** [dict.fromkeys] keeps the first occurrence of each key. *)
Lemma dict_fromkeys_cons k l :
  dict_fromkeys (k :: l) = k :: filter (fun x => x ≠ k) (dict_fromkeys l).
Proof.
  by rewrite dict_fromkeys_unfold, fromkeys_into_app, filter_notin_singleton.
Qed.

Lemma dict_fromkeys_nil : dict_fromkeys [] = [].
Proof. reflexivity. Qed.

Lemma elem_of_dict_fromkeys x l : x ∈ dict_fromkeys l <-> x ∈ l.
Proof.
  induction l as [|k l IH]; [done|].
  rewrite dict_fromkeys_cons, !elem_of_cons, list_elem_of_filter, IH.
  destruct (decide (x = k)); naive_solver.
Qed.

Lemma NoDup_dict_fromkeys l : NoDup (dict_fromkeys l).
Proof.
  induction l as [|k l IH]; [constructor|].
  rewrite dict_fromkeys_cons. constructor.
  - rewrite list_elem_of_filter. naive_solver.
  - by apply NoDup_filter.
Qed.

Lemma index_of_filter (P : string -> Prop) `{forall x, Decision (P x)} l x y :
  P x -> P y ->
  (index_of x (filter P l) < index_of y (filter P l)
   <-> index_of x l < index_of y l).
Proof.
  intros Px Py. induction l as [|a l IH]; [done|].
  rewrite filter_cons. destruct (decide (P a)) as [Pa|Pa]; simpl.
  - repeat case_bool_decide; lia.
  - rewrite !bool_decide_eq_false_2 by congruence. lia.
Qed.

(** The order of the keys is the order of their first occurrences. *)
Lemma dict_fromkeys_order l x y :
  index_of x (dict_fromkeys l) < index_of y (dict_fromkeys l)
  <-> index_of x l < index_of y l.
Proof.
  induction l as [|a l IH]; [done|].
  rewrite dict_fromkeys_cons. simpl.
  repeat case_bool_decide; try lia.
  rewrite <- !Nat.succ_lt_mono, <- IH.
  apply (index_of_filter (fun z => z ≠ a)); congruence.
Qed.

Lemma filter_ne_notin k l : k ∉ l -> filter (fun x => x ≠ k) l = l.
Proof.
  induction l as [|a l IH]; [done|].
  rewrite not_elem_of_cons. intros [Hka Hkl].
  rewrite filter_cons, decide_True by congruence. f_equal. by apply IH.
Qed.

Lemma dict_fromkeys_NoDup_id l : NoDup l -> dict_fromkeys l = l.
Proof.
  induction 1 as [|k l Hk Hl IH]; [done|].
  by rewrite dict_fromkeys_cons, IH, filter_ne_notin.
Qed.

Lemma filter_idem {A} (P : A -> Prop) `{forall a, Decision (P a)} (l : list A) :
  filter P (filter P l) = filter P l.
Proof.
  induction l as [|a l IH]; [done|].
  rewrite (filter_cons P a l). destruct (decide (P a)) as [Pa|Pa]; [|done].
  by rewrite filter_cons, decide_True, IH.
Qed.

Lemma slice_to_nonneg {A} (l : list A) (n : Z) :
  (0 <= n)%Z -> slice_to l n = take (Z.to_nat n) l.
Proof. intros Hn. unfold slice_to. by rewrite (proj2 (Z.leb_le 0 n)). Qed.

Lemma slice_to_sublist {A} (l : list A) (n : Z) : slice_to l n `prefix_of` l.
Proof. unfold slice_to. destruct (0 <=? n)%Z; apply prefix_take. Qed.

Lemma elem_of_slice_to {A} (l : list A) (n : Z) (a : A) :
  a ∈ slice_to l n -> a ∈ l.
Proof.
  intros Ha. destruct (slice_to_sublist l n) as [k' Hk].
  rewrite Hk. apply elem_of_app. by left.
Qed.

Example dict_fromkeys_ABAC :
  dict_fromkeys ["A"; "B"; "A"; "C"] = ["A"; "B"; "C"].
Proof. reflexivity. Qed.

Example slice_to_negative : slice_to ["A"; "B"; "C"] (-1) = ["A"; "B"].
Proof. reflexivity. Qed.

End PyFacts.

(* ===================================================================== *)
(** * Facts about the URL normaliser                                      *)
(* ===================================================================== *)

Section NormalizerFacts.

Import URLNormalizer.
Local Open Scope char_scope.

Implicit Types (l b r h t : chars) (c a : ascii) (ps : list chars).

Lemma break_spec c l :
  (c ∉ fst (break c l))
  /\ l = fst (break c l) ++ match snd (break c l) with
                            | Some r => c :: r
                            | None => []
                            end.
Proof.
  induction l as [|a l [IH1 IH2]]; simpl.
  - split; [apply not_elem_of_nil|done].
  - destruct (Ascii.eqb_spec a c) as [->|Hac]; simpl.
    + split; [apply not_elem_of_nil|done].
    + destruct (break c l) as [b r]; simpl in *. split.
      * rewrite not_elem_of_cons. split; [congruence|done].
      * by f_equal.
Qed.

Lemma break_hit c b r : c ∉ b -> break c (b ++ c :: r) = (b, Some r).
Proof.
  induction b as [|a b IH]; simpl; intros Hc.
  - by rewrite Ascii.eqb_refl.
  - apply not_elem_of_cons in Hc as [Hca Hcb].
    destruct (Ascii.eqb_spec a c) as [->|_]; [done|].
    by rewrite IH.
Qed.

Lemma break_miss c l : c ∉ l -> break c l = (l, None).
Proof.
  induction l as [|a l IH]; simpl; intros Hc; [done|].
  apply not_elem_of_cons in Hc as [Hca Hcl].
  destruct (Ascii.eqb_spec a c) as [->|_]; [done|].
  by rewrite IH.
Qed.

Lemma split_on_cons c l : exists p ps, split_on c l = p :: ps.
Proof.
  induction l as [|a l (p & ps & IH)]; simpl; [by eauto|].
  destruct (Ascii.eqb a c); [by eauto|]. rewrite IH. by eauto.
Qed.

Lemma split_on_pieces c l :
  Forall (fun p => (c ∉ p) /\ forall x, x ∈ p -> x ∈ l) (split_on c l).
Proof.
  induction l as [|a l IH]; simpl.
  - constructor; [|constructor]. split; [apply not_elem_of_nil|done].
  - destruct (Ascii.eqb_spec a c) as [->|Hac].
    + constructor.
      * split; [apply not_elem_of_nil|]. intros x Hx. by apply elem_of_nil in Hx.
      * eapply Forall_impl; [exact IH|]. intros p [H1 H2]. split; [done|].
        intros x Hx. right. by apply H2.
    + destruct (split_on c l) as [|p ps]; [|inversion IH as [|? ? [H1 H2] Hps]; subst].
      * constructor; [|constructor]. split.
        -- rewrite not_elem_of_cons. split; [congruence|apply not_elem_of_nil].
        -- intros x Hx. apply list_elem_of_singleton in Hx as ->. by left.
      * constructor.
        -- split; [rewrite not_elem_of_cons; split; [congruence|done]|].
           intros x Hx. apply elem_of_cons in Hx as [->|Hx]; [by left|right; by apply H2].
        -- eapply Forall_impl; [exact Hps|]. intros q [H3 H4]. split; [done|].
           intros x Hx. right. by apply H4.
Qed.

Lemma split_on_miss c l : c ∉ l -> split_on c l = [l].
Proof.
  induction l as [|a l IH]; simpl; intros Hc; [done|].
  apply not_elem_of_cons in Hc as [Hca Hcl].
  destruct (Ascii.eqb_spec a c) as [->|_]; [done|].
  by rewrite IH.
Qed.

Lemma split_on_hit c b r : c ∉ b -> split_on c (b ++ c :: r) = b :: split_on c r.
Proof.
  induction b as [|a b IH]; simpl; intros Hc.
  - by rewrite Ascii.eqb_refl.
  - apply not_elem_of_cons in Hc as [Hca Hcb].
    destruct (Ascii.eqb_spec a c) as [->|_]; [done|].
    by rewrite IH.
Qed.

(** Splitting what was joined gives the pieces back. *)
Lemma split_on_join c ps :
  ps <> [] -> Forall (fun p => c ∉ p) ps -> split_on c (join c ps) = ps.
Proof.
  induction ps as [|p ps IH]; [done|]. intros _ Hps.
  inversion Hps as [|? ? Hp Hps']; subst.
  destruct ps as [|q ps].
  - simpl. by apply split_on_miss.
  - change (join c (p :: q :: ps)) with (p ++ c :: join c (q :: ps)).
    rewrite split_on_hit by done. f_equal. by apply IH.
Qed.

Lemma join_chars c ps x :
  x ∈ join c ps -> x = c \/ exists p, p ∈ ps /\ x ∈ p.
Proof.
  induction ps as [|p ps IH]; [intros Hx; by apply elem_of_nil in Hx|].
  destruct ps as [|q ps].
  - simpl. intros Hx. right. exists p. split; [by left|done].
  - change (join c (p :: q :: ps)) with (p ++ c :: join c (q :: ps)).
    rewrite elem_of_app, elem_of_cons. intros [Hx|[->|Hx]].
    + right. exists p. split; [by left|done].
    + by left.
    + destruct (IH Hx) as [->|(p' & Hp' & Hx')]; [by left|].
      right. exists p'. split; [by right|done].
Qed.

Lemma span_host_spec l :
  l = fst (span_host l) ++ snd (span_host l)
  /\ Forall (fun a => host_end a = false) (fst (span_host l))
  /\ (snd (span_host l) = []
      \/ exists a t, snd (span_host l) = a :: t /\ host_end a = true).
Proof.
  induction l as [|a l (IH1 & IH2 & IH3)]; simpl.
  - split; [done|]. split; [constructor|by left].
  - destruct (host_end a) eqn:E; simpl.
    + split; [done|]. split; [constructor|]. right. by eauto.
    + destruct (span_host l) as [h t]; simpl in *.
      split; [by f_equal|]. split; [by constructor|done].
Qed.

Lemma span_host_app h t :
  Forall (fun a => host_end a = false) h ->
  (t = [] \/ exists a t', t = a :: t' /\ host_end a = true) ->
  span_host (h ++ t) = (h, t).
Proof.
  intros Hh Ht. induction Hh as [|a h Ha Hh IH]; simpl.
  - destruct Ht as [->|(a & t' & -> & Ha)]; [done|]. simpl. by rewrite Ha.
  - by rewrite Ha, IH.
Qed.

Lemma lower_idem a : lower (lower a) = lower a.
Proof. destruct a as [[] [] [] [] [] [] [] []]; reflexivity. Qed.

Lemma host_end_lower a : host_end (lower a) = host_end a.
Proof. destruct a as [[] [] [] [] [] [] [] []]; reflexivity. Qed.

Lemma hash_lower a : Ascii.eqb (lower a) "#" = Ascii.eqb a "#".
Proof. destruct a as [[] [] [] [] [] [] [] []]; reflexivity. Qed.

Lemma parse_wf l p : parse l = Some p -> wf p.
Proof.
  unfold parse.
  pose proof (break_spec ":" l) as [Hs _].
  destruct (break ":" l) as [sch [[|c1 [|c2 rest]]|]]; try done.
  destruct (Ascii.eqb c1 "/" && Ascii.eqb c2 "/"); [|done].
  pose proof (break_spec "#" rest) as [Hf _].
  pose proof (span_host_spec (fst (break "#" rest))) as (Hsplit & Hh & Ht).
  destruct (span_host (fst (break "#" rest))) as [h tail]; simpl in *.
  pose proof (break_spec "?" tail) as [Hp Hq].
  destruct (break "?" tail) as [pa q] eqn:Eb; simpl in *.
  intros [= <-]. unfold wf; simpl.
  rewrite Hsplit in Hf. apply not_elem_of_app in Hf as [Hfh Hft].
  assert (Hfp : "#" ∉ pa).
  { intros H. apply Hft. rewrite Hq. apply elem_of_app. by left. }
  split; [done|]. split.
  { apply Forall_forall. intros a Ha. split.
    - by apply (proj1 (Forall_forall _ _) Hh).
    - intros ->. by apply Hfh. }
  split; [done|]. split; [done|]. split.
  { destruct Ht as [->|(a & t' & -> & Ha)].
    - simpl in Eb. injection Eb as <- _. by left.
    - simpl in Eb. destruct (Ascii.eqb_spec a "?") as [->|Na].
      + injection Eb as <- _. by left.
      + destruct (break "?" t') as [b' r']. injection Eb as <- _.
        right. exists b'. f_equal. unfold host_end in Ha.
        destruct (Ascii.eqb_spec a "/") as [->|]; [done|].
        destruct (Ascii.eqb_spec a "?"); done. }
  destruct q as [qs|]; simpl; [|done].
  split.
  { destruct (split_on_cons "&" qs) as (p0 & ps0 & ->). done. }
  eapply Forall_impl; [apply split_on_pieces|]. intros piece [H1 H2].
  split; [done|]. intros H. apply Hft. rewrite Hq.
  apply elem_of_app. right. right. by apply H2.
Qed.

Lemma parse_unparse p : wf p -> parse (unparse p) = Some p.
Proof.
  destruct p as [sch h pa q].
  intros (Hs & Hh & Hp & Hpf & Hpath & Hq). simpl in *.
  unfold parse, unparse; simpl.
  rewrite break_hit by done.
  set (qs := match q with Some ps => "?" :: join "&" ps | None => [] end).
  assert (Hfrag : "#" ∉ h ++ pa ++ qs).
  { rewrite !not_elem_of_app. split; [|split; [done|]].
    - intros H. apply (proj1 (Forall_forall _ _) Hh) in H as [_ H]. done.
    - subst qs. destruct q as [ps|]; [|apply not_elem_of_nil].
      destruct Hq as [_ Hps]. rewrite not_elem_of_cons. split; [done|].
      intros H. apply join_chars in H as [H|(p' & Hp' & H)]; [done|].
      apply (proj1 (Forall_forall _ _) Hps) in Hp' as [_ Hp']. done. }
  rewrite (break_miss "#") by done. simpl.
  rewrite span_host_app; cycle 1.
  { eapply Forall_impl; [exact Hh|]. by intros a [Ha _]. }
  { destruct Hpath as [->|[t ->]].
    - subst qs. destruct q as [ps|]; [|by left]. right. by eauto.
    - right. by eauto. }
  subst qs. destruct q as [ps|].
  - rewrite break_hit by done. simpl. destruct Hq as [Hne Hps].
    rewrite split_on_join; [done|done|].
    eapply Forall_impl; [exact Hps|]. by intros a [Ha _].
  - rewrite app_nil_r, break_miss by done. done.
Qed.

Section Canon.

Variable is_tracking : string -> bool.

Lemma canon_wf p : wf p -> wf (canon is_tracking p).
Proof.
  destruct p as [sch h pa q].
  intros (Hs & Hh & Hp & Hpf & Hpath & Hq). unfold wf, canon; simpl in *.
  split; [done|]. split.
  { apply Forall_forall. intros a Ha.
    apply list_elem_of_fmap in Ha as (a0 & -> & Ha0).
    apply (proj1 (Forall_forall _ _) Hh) in Ha0 as [H1 H2].
    rewrite host_end_lower. split; [done|]. intros H.
    apply H2. apply Ascii.eqb_eq. rewrite <- hash_lower. by apply Ascii.eqb_eq. }
  split; [done|]. split; [done|]. split; [done|].
  destruct q as [ps|]; [|done]. destruct Hq as [_ Hps].
  destruct (filter (keep_param is_tracking) ps) as [|k kept] eqn:E; [done|].
  split; [done|]. rewrite <- E. apply Forall_forall. intros x Hx.
  apply list_elem_of_filter in Hx as [_ Hx].
  by apply (proj1 (Forall_forall _ _) Hps).
Qed.

Lemma canon_idem p : canon is_tracking (canon is_tracking p) = canon is_tracking p.
Proof.
  destruct p as [sch h pa q]. unfold canon; simpl. f_equal.
  - rewrite <- list_fmap_compose. apply list_fmap_ext. intros _ a _. apply lower_idem.
  - destruct q as [ps|]; [|done].
    destruct (filter (keep_param is_tracking) ps) as [|k kept] eqn:E; [done|].
    rewrite <- E, filter_idem. by rewrite E.
Qed.

Lemma normalize_chars_idem l :
  normalize_chars is_tracking (normalize_chars is_tracking l)
  = normalize_chars is_tracking l.
Proof.
  unfold normalize_chars. destruct (parse l) as [p|] eqn:E.
  - rewrite parse_unparse by (apply canon_wf; by eapply parse_wf).
    by rewrite canon_idem.
  - by rewrite E.
Qed.

(** C9. URL normalisation is idempotent: normalising a URL that is already
    normalised gives the same URL, whatever the denylist of tracking
    parameters is. *)
Theorem normalize_idempotent (u : string) :
  normalize is_tracking (normalize is_tracking u) = normalize is_tracking u.
Proof.
  unfold normalize.
  by rewrite list_ascii_of_string_of_list_ascii, normalize_chars_idem.
Qed.

End Canon.

Example normalize_tracking :
  normalize default_tracking "https://Example.com/r?utm_source=a&id=1#c"
  = "https://example.com/r?id=1"%string.
Proof. reflexivity. Qed.

Example normalize_only_tracking :
  normalize default_tracking "https://example.com/recipe?fbclid=abc123"
  = "https://example.com/recipe"%string.
Proof. reflexivity. Qed.

Example normalize_unparseable :
  normalize default_tracking "not a url#x" = "not a url#x"%string.
Proof. reflexivity. Qed.

End NormalizerFacts.

(* ===================================================================== *)
(** * Rules for specifications of computations                            *)
(* ===================================================================== *)

Section Rules.

Context {St : Type}.
Variable R : St -> St -> Prop.
Context `{!PreOrder R}.
Variable P : Event -> Prop.

Lemma sat_ret {A} (Q : result A -> Prop) (a : A) : Q (Ok a) -> sat R P Q (ret a).
Proof. intros HQ st. simpl. split; [reflexivity|]. split; [constructor|done]. Qed.

Lemma sat_raise {A} (Q : result A -> Prop) e : Q (Raise e) -> sat R P Q (raise e).
Proof. intros HQ st. simpl. split; [reflexivity|]. split; [constructor|done]. Qed.

Lemma sat_liftR {A} (Q : result A -> Prop) (r : result A) : Q r -> sat R P Q (liftR r).
Proof. intros HQ st. simpl. split; [reflexivity|]. split; [constructor|done]. Qed.

Lemma sat_log (Q : result unit -> Prop) e : P e -> Q (Ok tt) -> sat R P Q (log e).
Proof.
  intros HP HQ st. simpl. split; [reflexivity|].
  split; [by repeat constructor|done].
Qed.

Lemma sat_lift {A} (Q : result A -> Prop) (m : W A) :
  sat (fun _ _ => True) P Q m -> sat R P Q (lift m).
Proof.
  intros Hm st. destruct (Hm tt) as (_ & HP & HQ).
  unfold lift, state_of, events_of, value_of in *.
  destruct (m tt) as [[[] evs] r]. simpl in *. split; [reflexivity|done].
Qed.

Lemma sat_bind {A B} (Q1 : result A -> Prop) (Q2 : result B -> Prop)
  (m : M St A) (k : A -> M St B) :
  sat R P Q1 m ->
  (forall a, Q1 (Ok a) -> sat R P Q2 (k a)) ->
  (forall e, Q1 (Raise e) -> Q2 (Raise e)) ->
  sat R P Q2 (bind m k).
Proof.
  intros Hm Hk He st. destruct (Hm st) as (HR & HP & HQ).
  unfold bind, state_of, events_of, value_of in *.
  destruct (m st) as [[st1 ev1] [a|e]]; simpl in *.
  - destruct (Hk a HQ st1) as (HR2 & HP2 & HQ2).
    destruct (k a st1) as [[st2 ev2] r]. simpl in *.
    split; [by etrans|]. split; [by apply Forall_app|done].
  - split; [done|]. split; [done|]. by apply He.
Qed.

Lemma sat_try {A} (Q1 Q2 : result A -> Prop) (m : M St A) (h : exn -> M St A) :
  sat R P Q1 m ->
  (forall a, Q1 (Ok a) -> Q2 (Ok a)) ->
  (forall e, Q1 (Raise e) -> sat R P Q2 (h e)) ->
  sat R P Q2 (try_catch m h).
Proof.
  intros Hm Ha Hh st. destruct (Hm st) as (HR & HP & HQ).
  unfold try_catch, state_of, events_of, value_of in *.
  destruct (m st) as [[st1 ev1] [a|e]]; simpl in *.
  - split; [done|]. split; [done|]. by apply Ha.
  - destruct (Hh e HQ st1) as (HR2 & HP2 & HQ2).
    destruct (h e st1) as [[st2 ev2] r]. simpl in *.
    split; [by etrans|]. split; [by apply Forall_app|done].
Qed.

Lemma sat_weaken {A} (Q1 Q2 : result A -> Prop) (m : M St A) :
  sat R P Q1 m -> (forall r, Q1 r -> Q2 r) -> sat R P Q2 m.
Proof.
  intros Hm HQ st. destruct (Hm st) as (HR & HP & H). eauto.
Qed.

End Rules.

Lemma sat_events {St A} (R : St -> St -> Prop) (P1 P2 : Event -> Prop)
  (Q : result A -> Prop) (m : M St A) :
  sat R P1 Q m -> (forall e, P1 e -> P2 e) -> sat R P2 Q m.
Proof.
  intros Hm HP st. destruct (Hm st) as (HR & H & HQ).
  split; [done|]. split; [|done]. eapply Forall_impl; eauto.
Qed.

Lemma sat_frame {St A} (R1 R2 : St -> St -> Prop) (P : Event -> Prop)
  (Q : result A -> Prop) (m : M St A) :
  sat R1 P Q m -> (forall s s', R1 s s' -> R2 s s') -> sat R2 P Q m.
Proof.
  intros Hm HR st. destruct (Hm st) as (H & HP & HQ). eauto.
Qed.

#[local] Instance any_step_preorder {St} : PreOrder (fun _ _ : St => True).
Proof. by split. Qed.

Ltac sat_leaf :=
  first [apply sat_ret | apply sat_raise | apply sat_liftR];
  first [done | apply _].

(** Running a bind, piece by piece. *)
Lemma bind_run {St A B} (m : M St A) (k : A -> M St B) st st1 ev1 a :
  m st = (st1, ev1, Ok a) ->
  bind m k st = (state_of (k a st1), ev1 ++ events_of (k a st1), value_of (k a st1)).
Proof.
  intros E. unfold bind. rewrite E. by destruct (k a st1) as [[? ?] ?].
Qed.

Lemma bind_run_raise {St A B} (m : M St A) (k : A -> M St B) st st1 ev1 e :
  m st = (st1, ev1, Raise e) -> bind m k st = (st1, ev1, Raise e).
Proof. intros E. unfold bind. by rewrite E. Qed.

Lemma try_catch_run {St A} (m : M St A) (h : exn -> M St A) st st1 ev1 a :
  m st = (st1, ev1, Ok a) -> try_catch m h st = (st1, ev1, Ok a).
Proof. intros E. unfold try_catch. by rewrite E. Qed.

Lemma try_catch_run_raise {St A} (m : M St A) (h : exn -> M St A) st st1 ev1 e :
  m st = (st1, ev1, Raise e) ->
  try_catch m h st
  = (state_of (h e st1), ev1 ++ events_of (h e st1), value_of (h e st1)).
Proof.
  intros E. unfold try_catch. rewrite E. by destruct (h e st1) as [[? ?] ?].
Qed.

Lemma lift_run {St A} (m : W A) (st : St) evs r :
  m tt = (tt, evs, r) -> lift m st = (st, evs, r).
Proof. intros E. unfold lift. by rewrite E. Qed.

Lemma triple_eta {St A} (x : St * list Event * result A) :
  x = (state_of x, events_of x, value_of x).
Proof. by destruct x as [[? ?] ?]. Qed.

Ltac run_step H :=
  erewrite bind_run by exact H;
  cbv beta; cbn [state_of events_of value_of fst snd negb]; cbv iota.

(* ===================================================================== *)
(** * Facts about traces                                                  *)
(* ===================================================================== *)

Section TraceFacts.

Implicit Types (evs : list Event) (e : Event).

Lemma import_calls_app evs1 evs2 :
  import_calls (evs1 ++ evs2) = import_calls evs1 ++ import_calls evs2.
Proof. apply omap_app. Qed.

Lemma completions_app evs1 evs2 :
  completions (evs1 ++ evs2) = completions evs1 ++ completions evs2.
Proof. apply omap_app. Qed.

Lemma import_calls_cons e evs :
  import_calls (e :: evs) = import_calls [e] ++ import_calls evs.
Proof. apply (import_calls_app [e]). Qed.

Lemma completions_cons e evs :
  completions (e :: evs) = completions [e] ++ completions evs.
Proof. apply (completions_app [e]). Qed.

Lemma import_calls_none (P : Event -> Prop) evs :
  (forall u, ~ P (EvImportCall u)) -> Forall P evs -> import_calls evs = [].
Proof.
  intros HP. induction 1 as [|e evs He _ IH]; [done|].
  rewrite import_calls_cons, IH, app_nil_r.
  destruct e as [| | | | |u|]; try done. by destruct (HP u).
Qed.

Lemma completions_none (P : Event -> Prop) evs :
  (forall i d m f r, ~ P (EvStore (CompleteSyncRun i d m f r))) ->
  Forall P evs -> completions evs = [].
Proof.
  intros HP. induction 1 as [|e evs He _ IH]; [done|].
  rewrite completions_cons, IH, app_nil_r.
  destruct e as [| | | | | |c]; try done.
  destruct c as [| | | | |i d m f r|]; try done.
  by destruct (HP i d m f r).
Qed.

Lemma import_calls_net method evs :
  Forall (net_event method) evs -> import_calls evs = [].
Proof. apply import_calls_none. intros u H. exact H. Qed.

Lemma completions_net method evs :
  Forall (net_event method) evs -> completions evs = [].
Proof. apply completions_none. intros i d m f r H. exact H. Qed.

Lemma import_calls_discovery evs :
  Forall discovery_event evs -> import_calls evs = [].
Proof. apply import_calls_none. intros u H. exact H. Qed.

Lemma completions_discovery evs :
  Forall discovery_event evs -> completions evs = [].
Proof. apply completions_none. intros i d m f r H. exact H. Qed.

Lemma completions_import evs :
  Forall import_event evs -> completions evs = [].
Proof. apply completions_none. intros i d m f r H. exact H. Qed.

Lemma net_event_dry evs : Forall (net_event "GET") evs -> Forall dry_event evs.
Proof. intros H. eapply Forall_impl; [exact H|]. by intros []. Qed.

Lemma discovery_event_dry evs : Forall discovery_event evs -> Forall dry_event evs.
Proof. intros H. eapply Forall_impl; [exact H|]. intros [| | | | | |[]]; done. Qed.

End TraceFacts.

(* ===================================================================== *)
(** * Facts about the import client                                       *)
(* ===================================================================== *)

Section MealieFacts.

Import Mealie.

Variable env : Env.

Lemma urlopen_sat r left errors method target body n :
  sat (fun _ _ => True) (net_event method) anything
      (urlopen env r left errors method target body n).
Proof.
  revert errors n. induction left as [|left IH]; intros errors n; simpl.
  all: eapply sat_bind; [apply _|apply (sat_log _ _ anything); done| |done].
  all: intros _ _; destruct (server env method target body n) as [code ra js| |].
  all: repeat match goal with
         | |- context [if ?b then _ else _] => destruct b
         end.
  all: try (apply sat_raise; done); try (apply sat_ret; done).
  all: eapply sat_bind; [apply _|apply (sat_log _ _ anything); done| |done].
  all: intros _ _; apply IH.
Qed.

(** One call never puts more than [left + 1] requests on the wire. *)
Lemma urlopen_requests r left errors method target body n :
  length (requests (events_of (urlopen env r left errors method target body n tt)))
  <= S left.
Proof.
  revert errors n. induction left as [|left IH]; intros errors n; simpl.
  all: unfold requests in *; unfold bind, log; simpl.
  all: destruct (server env method target body n) as [code ra js| |].
  all: repeat match goal with
         | |- context [if ?b then _ else _] => destruct b
         end; simpl; try lia.
  all: specialize (IH (S errors) (S n)).
  all: destruct (urlopen env r left (S errors) method target body (S n) tt)
         as [[[] evs] res]; simpl in *; unfold omap in *; lia.
Qed.

(** An answer that is not one to retry is returned at once. *)
Lemma urlopen_no_retry r left errors method target body n code ra js :
  server env method target body n = WStatus code ra js ->
  is_retry r left method code (bool_decide (is_Some ra)) = false ->
  urlopen env r left errors method target body n tt
  = (tt, [EvHttp method target body], Ok {| status_code := code; json := js |}).
Proof.
  intros Hs Hr. destruct left; simpl; unfold bind, log; simpl; by rewrite Hs, Hr.
Qed.

(** An answer that is one to retry is followed by another request while a
    retry is left. *)
Lemma urlopen_retry r left errors method target body n code ra js :
  server env method target body n = WStatus code ra js ->
  is_retry r (S left) method code (bool_decide (is_Some ra)) = true ->
  let next := urlopen env r left (S errors) method target body (S n) tt in
  urlopen env r (S left) errors method target body n tt
  = (tt,
     EvHttp method target body :: EvBackoff (sleep_time r (S errors) ra)
       :: events_of next,
     value_of next).
Proof.
  intros Hs Hr. simpl. unfold bind, log at 1 2; simpl. rewrite Hs, Hr.
  by destruct (urlopen env r left (S errors) method target body (S n) tt)
    as [[[] evs] res].
Qed.

(** The policy that the client configures retries [GET] and [POST], and
    of the answers those with status 429, 500, 502, 503 or 504, or with a
    [Retry-After] header and status 413, 429 or 503. *)
Lemma is_retry_strategy left method code has_retry_after :
  is_retry retry_strategy left method code has_retry_after = true
  <-> (method = "GET" \/ method = "POST")
      /\ (code ∈ [429; 500; 502; 503; 504]%Z
          \/ (left <> 0 /\ has_retry_after = true /\ code ∈ [413; 429; 503]%Z)).
Proof.
  unfold is_retry, is_method_retryable, retry_strategy, RETRY_AFTER_STATUS_CODES.
  simpl. rewrite andb_true_iff, orb_true_iff, !andb_true_iff, negb_true_iff.
  rewrite !bool_decide_eq_true, Nat.eqb_neq.
  rewrite !elem_of_cons, elem_of_nil. tauto.
Qed.

Lemma conflict_not_retried left method has_retry_after :
  is_retry retry_strategy left method 409 has_retry_after = false.
Proof.
  apply not_true_is_false. rewrite is_retry_strategy.
  rewrite !elem_of_cons, !elem_of_nil. intros [_ [H|(_ & _ & H)]]; naive_solver.
Qed.

Lemma raise_for_status_sat (response : Response) :
  sat (fun _ _ => True) (net_event "POST") anything (raise_for_status response).
Proof.
  unfold raise_for_status.
  destruct (_ && _); [by apply sat_raise|by apply sat_ret].
Qed.

(** The connectivity check never raises, and sends nothing but [GET]. *)
Lemma test_connection_sat :
  sat (fun _ _ => True) (net_event "GET") returns (test_connection env).
Proof.
  unfold test_connection.
  eapply sat_try with (Q1 := anything); [apply _| |done|].
  - eapply sat_bind with (Q1 := anything); [apply _|apply urlopen_sat| |done].
    intros response _.
    eapply sat_bind with (Q1 := anything); [apply _| |intros; by apply sat_ret|done].
    unfold raise_for_status.
    destruct (_ && _); [by apply sat_raise|by apply sat_ret].
  - intros e _. destruct e; by apply sat_ret.
Qed.

Lemma test_connection_run :
  test_connection env tt = (tt, connection_events env, Ok (connected env)).
Proof.
  unfold connection_events, connected.
  destruct (test_connection_sat tt) as (_ & _ & Hv).
  destruct (test_connection env tt) as [[[] evs] [b|e]]; simpl in *; done.
Qed.

Lemma connection_events_get : Forall (net_event "GET") (connection_events env).
Proof. apply (test_connection_sat tt). Qed.

Lemma log_bind_run {St B} (e : Event) (k : unit -> M St B) st :
  bind (log e) k st
  = (state_of (k tt st), e :: events_of (k tt st), value_of (k tt st)).
Proof. unfold bind, log. by destruct (k tt st) as [[? ?] ?]. Qed.

Lemma import_body_sat url :
  sat (fun _ _ => True) (net_event "POST") recipe_shape
    (try_catch
      (let* response :=
         session_request env "POST" "/api/recipes/create-url" (Some url) in
       raise_for_status response;;
       let* recipe := liftR (json response) in
       let* recipe_name := liftR (py_get recipe "name" (PStr "Unknown")) in
       ret recipe)
      (fun e =>
         match e with
         | Timeout => ret PNone
         | HTTPError status =>
             if (status =? 400)%Z then ret PNone
             else if (status =? 409)%Z then ret (existing_recipe url)
             else if (status =? 429)%Z then ret PNone
             else ret PNone
         | _ => ret PNone
         end)).
Proof.
  eapply sat_try with
    (Q1 := fun r => match r with Ok v => exists d, v = PDict d | Raise _ => True end);
    [apply _| | |].
  - eapply sat_bind with (Q1 := anything); [apply _|apply urlopen_sat| |done].
    intros response _.
    eapply sat_bind with (Q1 := anything);
      [apply _|apply raise_for_status_sat| |done].
    intros _ _.
    eapply sat_bind with (Q1 := anything); [apply _|by apply sat_liftR| |done].
    intros recipe _.
    eapply sat_bind with (Q1 := eq (py_get recipe "name" (PStr "Unknown")));
      [apply _|by apply sat_liftR| |done].
    intros name Hname. destruct recipe; simpl in Hname; try discriminate Hname.
    apply sat_ret; by eauto.
  - intros a [d ->]. right. by eauto.
  - intros e _. destruct e;
      repeat match goal with
             | |- context [if ?b then _ else _] => destruct b
             end;
      (apply sat_ret; [apply _ ..|]); first [by left|right; by eexists].
Qed.

Lemma import_recipe_sat dry url :
  sat (fun _ _ => True)
      (fun e => e = EvImportCall url \/ net_event "POST" e)
      recipe_shape (import_recipe_from_url env dry url).
Proof.
  unfold import_recipe_from_url.
  eapply sat_bind with (Q1 := returns);
    [apply _|apply sat_log; first [by left|done|apply _]| |by intros ? []].
  intros _ _. destruct dry.
  - apply sat_ret; [apply _|]. right. by eexists.
  - eapply sat_events; [apply import_body_sat|]. intros e He. by right.
Qed.

Lemma import_recipe_run url :
  import_recipe_from_url env false url tt
  = (tt, import_events env url, Ok (recipe_of env url)).
Proof.
  unfold import_events, recipe_of.
  destruct (import_recipe_sat false url tt) as (_ & _ & Hv).
  destruct (import_recipe_from_url env false url tt) as [[[] evs] [v|e]];
    simpl in *; done.
Qed.

Lemma import_recipe_dry url :
  import_recipe_from_url env true url tt
  = (tt, [EvImportCall url], Ok (dry_run_recipe url)).
Proof. reflexivity. Qed.

Lemma recipe_of_shape url :
  recipe_of env url = PNone \/ exists d, recipe_of env url = PDict d.
Proof.
  destruct (import_recipe_sat false url tt) as (_ & _ & Hv).
  rewrite import_recipe_run in Hv. exact Hv.
Qed.

Lemma import_events_shape url :
  exists evs, import_events env url = EvImportCall url :: evs
              /\ Forall (net_event "POST") evs.
Proof.
  unfold import_events, import_recipe_from_url. rewrite log_bind_run. simpl.
  eexists. split; [done|]. apply (import_body_sat url tt).
Qed.

Lemma import_calls_import_events url : import_calls (import_events env url) = [url].
Proof.
  destruct (import_events_shape url) as (evs & -> & Hevs).
  by rewrite import_calls_cons, (import_calls_net "POST" evs Hevs).
Qed.

(** A [409] answer makes the client return the record of an existing
    recipe. *)
Lemma import_conflict url ra js :
  server env "POST" "/api/recipes/create-url" (Some url) 0 = WStatus 409 ra js ->
  import_recipe_from_url env false url tt
  = (tt, [EvImportCall url; EvHttp "POST" "/api/recipes/create-url" (Some url)],
     Ok (existing_recipe url)).
Proof.
  intros Hs. unfold import_recipe_from_url. rewrite log_bind_run.
  erewrite try_catch_run_raise; cycle 1.
  { unfold session_request. erewrite bind_run; cycle 1.
    { eapply urlopen_no_retry; [exact Hs|apply conflict_not_retried]. }
    reflexivity. }
  reflexivity.
Qed.

End MealieFacts.

Section TransportPolicy.

Import Mealie Fixtures.

Lemma backoff_time_exponential (errors : nat) :
  2 <= errors ->
  get_backoff_time retry_strategy errors = Z.min 120 (2 ^ Z.of_nat errors)%Z.
Proof.
  intros H. unfold get_backoff_time, retry_strategy; simpl.
  rewrite (proj2 (Nat.leb_gt errors 1)) by lia. f_equal.
  replace (Z.of_nat errors) with (Z.succ (Z.of_nat errors - 1)) at 2 by lia.
  rewrite Z.pow_succ_r by lia. done.
Qed.




End TransportPolicy.

(* ===================================================================== *)
(** * Facts about the sources                                             *)
(* ===================================================================== *)

Section SourceFacts.

Import Sources Fixtures.

Variable env : Env.

Lemma parse_feed_sat (Q : result Feed -> Prop) url :
  Q (feedparser_parse env url) ->
  sat (fun _ _ => True) source_event Q (parse_feed env url).
Proof.
  intros HQ st. unfold parse_feed, bind, log, liftR. simpl.
  split; [done|]. split; [|done]. by repeat constructor.
Qed.

Lemma crawl_sat url allow max_pages :
  sat (fun _ _ => True) source_event anything (crawl env url allow max_pages).
Proof.
  intros st. unfold crawl, bind, log, liftR. simpl.
  split; [done|]. split; [|done]. by repeat constructor.
Qed.

(** A feed is read under a handler that catches everything. *)
Lemma guarded_feed_sat rss_url allow max_entries :
  sat (fun _ _ => True) source_event returns
    (try_catch
       (let* feed := parse_feed env rss_url in
        liftR (entry_links env allow feed max_entries))
       (fun _ => ret [])).
Proof.
  eapply sat_try with (Q1 := anything); [apply _| |done|].
  - eapply sat_bind with (Q1 := anything);
      [apply _|by apply parse_feed_sat| |done].
    intros feed _. by apply sat_liftR.
  - intros e _. by apply sat_ret.
Qed.

(** The feed variant never raises, whatever the configuration holds. *)
Lemma rss_feed_never_raises config :
  sat (fun _ _ => True) source_event returns (RSSFeedSource_get_recipe_urls env config).
Proof.
  unfold RSSFeedSource_get_recipe_urls.
  destruct (negb _); [by apply sat_ret|]. apply guarded_feed_sat.
Qed.

(** The crawl variant never raises either. *)
Lemma crawl_index_never_raises config :
  sat (fun _ _ => True) source_event returns
      (CrawlIndexSource_get_recipe_urls env config).
Proof.
  unfold CrawlIndexSource_get_recipe_urls.
  destruct (negb _); [by apply sat_ret|].
  destruct (negb _); [by apply sat_ret|].
  eapply sat_try with (Q1 := anything); [apply _|apply crawl_sat|done|].
  intros e _. by apply sat_ret.
Qed.

(** One candidate: the feed is parsed, and the loop either returns with
    its URLs or goes on. *)
Lemma try_candidate_run allow max_entries rss_url :
  try_candidate env allow max_entries rss_url tt
  = (tt, [EvFeedParse rss_url], Ok (candidate_urls env allow max_entries rss_url)).
Proof.
  unfold try_candidate, candidate_urls, parse_feed, try_catch, bind, log, liftR, ret.
  simpl. destruct (feedparser_parse env rss_url) as [feed|e]; simpl; [|done].
  destruct (negb (bozo feed) && nonempty (entries feed)); simpl; [|done].
  by destruct (entry_links env allow feed max_entries) as [[|u us]|e].
Qed.

(** The loop over the candidates stops at the first usable one. *)
Lemma try_candidates_found allow max_entries skipped c rest urls :
  Forall (fun x => candidate_urls env allow max_entries x = None) skipped ->
  candidate_urls env allow max_entries c = Some urls ->
  try_candidates env allow max_entries (skipped ++ c :: rest) tt
  = (tt, map EvFeedParse (skipped ++ [c]), Ok (Some urls)).
Proof.
  intros Hs Hc. induction Hs as [|x skipped Hx _ IH]; simpl.
  - erewrite bind_run by apply try_candidate_run. by rewrite Hc.
  - erewrite bind_run by apply try_candidate_run. rewrite Hx, IH. done.
Qed.

Lemma try_candidates_none allow max_entries candidates :
  Forall (fun x => candidate_urls env allow max_entries x = None) candidates ->
  try_candidates env allow max_entries candidates tt
  = (tt, map EvFeedParse candidates, Ok None).
Proof.
  induction 1 as [|x l Hx _ IH]; simpl; [done|].
  erewrite bind_run by apply try_candidate_run. rewrite Hx, IH. done.
Qed.

Lemma try_candidates_sat allow max_entries candidates :
  sat (fun _ _ => True) source_event returns
      (try_candidates env allow max_entries candidates).
Proof.
  induction candidates as [|c rest IH]; simpl; [by apply sat_ret|].
  eapply sat_bind with (Q1 := returns); [apply _| | |by intros ? []].
  - intros []. rewrite try_candidate_run. simpl.
    split; [done|]. split; [|done]. by repeat constructor.
  - intros [urls|] _; [by apply sat_ret|apply IH].
Qed.

Lemma fallback_sat config :
  sat (fun _ _ => True) source_event returns
    (if truthy (dict_get config "crawl_fallback_url" PNone) then
       if negb (truthy (allow_domains_of config)) then ret []
       else
         try_catch
           (crawl env (dict_get config "crawl_fallback_url" PNone)
              (allow_domains_of config) (dict_get config "max_pages" (PInt 100)))
           (fun _ => ret [])
     else ret []).
Proof.
  destruct (truthy _); [|by apply sat_ret].
  destruct (negb _); [by apply sat_ret|].
  eapply sat_try with (Q1 := anything); [apply _|apply crawl_sat|done|].
  intros e _. by apply sat_ret.
Qed.

Lemma fallback_run_eq config :
  (if truthy (dict_get config "crawl_fallback_url" PNone) then
     if negb (truthy (allow_domains_of config)) then ret []
     else
       try_catch
         (crawl env (dict_get config "crawl_fallback_url" PNone)
            (allow_domains_of config) (dict_get config "max_pages" (PInt 100)))
         (fun _ => ret [])
   else ret []) tt
  = fallback_run env config.
Proof.
  unfold fallback_run.
  destruct (truthy (dict_get config "crawl_fallback_url" PNone)); [|done].
  destruct (truthy (allow_domains_of config)); simpl; [|done].
  unfold try_catch, crawl, bind, log, liftR, ret. simpl.
  by destruct (crawl_index_page env _ _ _).
Qed.

(** Every source produces source events only. *)
Lemma get_recipe_urls_sat kind config :
  sat (fun _ _ => True) source_event anything (get_recipe_urls env kind config).
Proof.
  destruct kind; simpl.
  - eapply sat_weaken; [apply rss_feed_never_raises|done].
  - unfold RSSSuffixSource_get_recipe_urls.
    destruct (negb _); [by apply sat_ret|].
    eapply sat_bind with (Q1 := anything); [apply _|by apply sat_liftR| |done].
    intros rss_url _. eapply sat_weaken; [apply guarded_feed_sat|done].
  - eapply sat_weaken; [apply crawl_index_never_raises|done].
  - unfold RSSOrCrawlSource_get_recipe_urls.
    eapply sat_bind with (Q1 := anything); [apply _|by apply sat_liftR| |done].
    intros candidates _.
    eapply sat_bind with (Q1 := anything);
      [apply _|eapply sat_weaken; [apply try_candidates_sat|done]| |done].
    intros [urls|] _; [by apply sat_ret|].
    eapply sat_weaken; [apply fallback_sat|done].
  - unfold URLListSource_get_recipe_urls.
    eapply sat_bind with (Q1 := anything); [apply _|by apply sat_liftR| |done].
    intros items _. by apply sat_liftR.
Qed.

Lemma unusable_candidate allow max_entries rss_url :
  Claims.parses_with_entries env rss_url = false ->
  candidate_urls env allow max_entries rss_url = None.
Proof.
  unfold Claims.parses_with_entries, candidate_urls.
  destruct (feedparser_parse env rss_url) as [feed|e]; [|done]. by intros ->.
Qed.

(** C6, as the code has it. The candidate feeds are tried in the
    configured order. The method returns at the first candidate that
    parses without the malformed-content flag, has entries, and whose first
    [max_entries] entries give at least one URL once empty links and links
    outside the allowed domains are dropped; the candidates before it are
    skipped, a flagged, empty or failing one among them without harm. If no
    candidate is of that kind, all of them are tried and the fallback is
    what remains: the index page is crawled when it is configured together
    with allowed domains. *)
Theorem feed_or_crawl_first_usable (config : dict) (candidates : list pyval) :
  py_iter (dict_get config "rss_url_candidates" (PList [])) = Ok candidates ->
  (forall skipped c rest urls,
      candidates = skipped ++ c :: rest ->
      Forall (fun x => candidate_urls env (allow_domains_of config)
                         (dict_get config "max_entries" (PInt 20)) x = None) skipped ->
      candidate_urls env (allow_domains_of config)
        (dict_get config "max_entries" (PInt 20)) c = Some urls ->
      RSSOrCrawlSource_get_recipe_urls env config tt
      = (tt, map EvFeedParse (skipped ++ [c]), Ok urls))
  /\ (Forall (fun x => candidate_urls env (allow_domains_of config)
                         (dict_get config "max_entries" (PInt 20)) x = None) candidates ->
      RSSOrCrawlSource_get_recipe_urls env config tt
      = (tt, map EvFeedParse candidates ++ events_of (fallback_run env config),
         value_of (fallback_run env config)))
  /\ (forall x, Claims.parses_with_entries env x = false ->
                candidate_urls env (allow_domains_of config)
                  (dict_get config "max_entries" (PInt 20)) x = None).
Proof.
  intros Hiter. split; [|split].
  - intros skipped c rest urls -> Hs Hc.
    unfold RSSOrCrawlSource_get_recipe_urls. rewrite Hiter.
    erewrite bind_run by reflexivity. simpl.
    erewrite bind_run by (by apply try_candidates_found). simpl.
    by rewrite app_nil_r.
  - intros Hall.
    unfold RSSOrCrawlSource_get_recipe_urls. rewrite Hiter.
    erewrite bind_run by reflexivity. simpl.
    erewrite bind_run by (by apply try_candidates_none).
    cbv beta iota. rewrite fallback_run_eq.
    by destruct (fallback_run env config) as [[[] ?] ?].
  - intros x. apply unusable_candidate.
Qed.

End SourceFacts.

Section SourceExamples.

Import Sources Fixtures.

Lemma feed_or_crawl_witness :
  RSSOrCrawlSource_get_recipe_urls env_feeds
    (feeds_config [feed_c; feed_a; feed_b] PNone) tt
  = (tt, [EvFeedParse feed_c; EvFeedParse feed_a; EvFeedParse feed_b],
     Ok ["https://example.com/r/1"]).
Proof.
  apply (proj1 (feed_or_crawl_first_usable env_feeds
                  (feeds_config [feed_c; feed_a; feed_b] PNone)
                  [feed_c; feed_a; feed_b] eq_refl)
           [feed_c; feed_a] feed_b [] ["https://example.com/r/1"]).
  - reflexivity.
  - repeat constructor.
  - reflexivity.
Defined.

(** C6, as stated, fails. The first candidate parses without the flag and
    has an entry, but the entry links to a site that is not allowed: the
    method goes on to the second candidate and returns its URL, and with no
    second candidate it crawls the fallback page. *)
Lemma feed_or_crawl_counterexample :
  List.find (Claims.parses_with_entries env_feeds) [feed_a; feed_b] = Some feed_a
  /\ RSSOrCrawlSource_get_recipe_urls env_feeds (feeds_config [feed_a; feed_b] PNone) tt
     = (tt, [EvFeedParse feed_a; EvFeedParse feed_b], Ok ["https://example.com/r/1"])
  /\ RSSOrCrawlSource_get_recipe_urls env_feeds
       (feeds_config [feed_a] (PStr "https://example.com/recipes")) tt
     = (tt, [EvFeedParse feed_a; EvCrawl (PStr "https://example.com/recipes")],
        Ok [u3])
  /\ ~ Claims.first_parsing_candidate_accepted.
Proof.
  split; [reflexivity|]. split; [reflexivity|]. split; [reflexivity|].
  intros H.
  specialize (H env_feeds (feeds_config [feed_a; feed_b] PNone)
                [feed_a; feed_b] feed_a eq_refl eq_refl).
  vm_compute in H. discriminate H.
Qed.

(** C8 at its failing input. A static list whose [urls] key holds [None]
    makes [URLListSource.get_recipe_urls] raise: the loop over the value is
    not under any handler. The feed-or-crawl variant raises in the same way
    when its candidate list holds [None], and the suffix variant when the
    suffix is not a string. *)
Theorem get_recipe_urls_raises (env : Env) :
  create_source empty_urls_config = Some URLListSource
  /\ value_of (get_recipe_urls env URLListSource empty_urls_config tt)
     = Raise (TypeError "'NoneType' object is not iterable")
  /\ value_of (get_recipe_urls env RSSOrCrawlSource null_candidates_config tt)
     = Raise (TypeError "'NoneType' object is not iterable")
  /\ value_of (get_recipe_urls env RSSSuffixSource
                 [("index_url", PStr "https://example.com/"); ("rss_suffix", PInt 1)] tt)
     = Raise (TypeError "can only concatenate str to str").
Proof. by repeat split. Qed.

End SourceExamples.

(* ===================================================================== *)
(** * Facts about the orchestrator                                        *)
(* ===================================================================== *)

Section Values.

Context {St : Type}.

Lemma value_bind {A B} (m : M St A) (k : A -> M St B) st :
  value_of (bind m k st)
  = match value_of (m st) with
    | Ok a => value_of (k a (state_of (m st)))
    | Raise e => Raise e
    end.
Proof.
  unfold bind. destruct (m st) as [[st1 ev1] [a|e]]; simpl; [|done].
  by destruct (k a st1) as [[? ?] ?].
Qed.

Lemma value_try {A} (m : M St A) (h : exn -> M St A) st :
  value_of (try_catch m h st)
  = match value_of (m st) with
    | Ok a => Ok a
    | Raise e => value_of (h e (state_of (m st)))
    end.
Proof.
  unfold try_catch. destruct (m st) as [[st1 ev1] [a|e]]; simpl; [done|].
  by destruct (h e st1) as [[? ?] ?].
Qed.

Lemma value_lift {A} (m : W A) (st : St) : value_of (lift m st) = value_of (m tt).
Proof. unfold lift. by destruct (m tt) as [[? ?] ?]. Qed.

End Values.

#[local] Instance only_seen_preorder : PreOrder only_seen.
Proof.
  split.
  - by intros st.
  - intros s1 s2 s3 (H1 & H2 & H3) (H4 & H5 & H6). unfold only_seen. by intuition congruence.
Qed.

Section DiscoveryFacts.

Import Main State.

Variable env : Env.

Lemma mark_url_seen_sat url domain :
  sat only_seen discovery_event returns (mark_url_seen url domain).
Proof.
  intros st. unfold mark_url_seen. simpl. split; [|split; [by repeat constructor|done]].
  by destruct (bool_decide _).
Qed.

Lemma mark_seen_all_sat urls :
  sat only_seen discovery_event anything (mark_seen_all env urls).
Proof.
  induction urls as [|url rest IH]; simpl; [sat_leaf|].
  eapply sat_bind with (Q1 := anything); [apply _|sat_leaf| |done].
  intros domain _.
  eapply sat_bind with (Q1 := anything);
    [apply _|eapply sat_weaken; [apply mark_url_seen_sat|done]| |done].
  intros _ _. apply IH.
Qed.

Lemma mark_seen_all_value urls st :
  domains_ok env urls = true -> value_of (mark_seen_all env urls st) = Ok tt.
Proof.
  revert st. induction urls as [|url rest IH]; intros st E; [done|].
  simpl in E. apply andb_true_iff in E as [E1 E2].
  simpl. rewrite value_bind. simpl.
  destruct (extract_domain env url); [|done].
  rewrite value_bind. simpl. by apply IH.
Qed.

Lemma mark_seen_all_fails urls st :
  domains_ok env urls = false -> exists e, value_of (mark_seen_all env urls st) = Raise e.
Proof.
  revert st. induction urls as [|url rest IH]; intros st E; [done|].
  simpl in *. rewrite value_bind. simpl.
  destruct (extract_domain env url) as [d|e]; [|by eauto].
  simpl in E. rewrite value_bind. simpl. by apply IH.
Qed.

Lemma discover_source_sat source_config all_urls :
  sat only_seen discovery_event anything (discover_source env source_config all_urls).
Proof.
  unfold discover_source.
  eapply sat_bind with (Q1 := anything); [apply _|sat_leaf| |done].
  intros enabled _. destruct (negb _); [sat_leaf|].
  destruct source_config; try (sat_leaf).
  destruct (Sources.create_source d) as [source|]; [|sat_leaf].
  eapply sat_try with (Q1 := anything); [apply _| |done|intros; sat_leaf].
  eapply sat_bind with (Q1 := anything); [apply _| | |done].
  - apply sat_lift; [apply _|].
    eapply sat_events; [apply get_recipe_urls_sat|]. by intros [].
  - intros urls _.
    eapply sat_bind with (Q1 := anything);
      [apply _|apply mark_seen_all_sat| |done].
    intros; sat_leaf.
Qed.

Lemma discover_source_value source_config all_urls st :
  value_of (discover_source env source_config all_urls st)
  = let? urls := contribution env source_config in Ok (all_urls ++ urls).
Proof.
  unfold discover_source, contribution. rewrite value_bind. simpl.
  destruct source_config as [| | | | |config]; try done. simpl.
  destruct (negb (truthy _)); simpl; [by rewrite app_nil_r|].
  destruct (Sources.create_source config) as [source|]; simpl; [|by rewrite app_nil_r].
  rewrite value_try, value_bind, value_lift.
  destruct (value_of (Sources.get_recipe_urls env source config tt)) as [urls|e];
    simpl; [|by rewrite app_nil_r].
  rewrite value_bind.
  destruct (domains_ok env urls) eqn:E.
  - by rewrite (mark_seen_all_value _ _ E).
  - destruct (mark_seen_all_fails urls
                (state_of (lift (Sources.get_recipe_urls env source config) st)) E)
      as [e ->].
    simpl. by rewrite app_nil_r.
Qed.

Lemma discover_loop_sat source_configs all_urls :
  sat only_seen discovery_event anything (discover_loop env source_configs all_urls).
Proof.
  revert all_urls. induction source_configs as [|sc rest IH]; intros all_urls; simpl.
  - sat_leaf.
  - eapply sat_bind with (Q1 := anything);
      [apply _|apply discover_source_sat| |done].
    intros all' _. apply IH.
Qed.

Lemma discover_loop_value source_configs all_urls st :
  value_of (discover_loop env source_configs all_urls st)
  = let? urls := contributions env source_configs in Ok (all_urls ++ urls).
Proof.
  revert all_urls st.
  induction source_configs as [|sc rest IH]; intros all_urls st; simpl.
  - by rewrite app_nil_r.
  - rewrite value_bind, discover_source_value.
    destruct (contribution env sc) as [urls|e]; simpl; [|done].
    rewrite IH. destruct (contributions env rest) as [more|e]; simpl; [|done].
    by rewrite app_assoc.
Qed.

Lemma discover_urls_sat self :
  sat only_seen discovery_event anything (discover_urls env self).
Proof.
  unfold discover_urls.
  eapply sat_bind with (Q1 := anything); [apply _|sat_leaf| |done].
  intros sources _.
  eapply sat_bind with (Q1 := anything); [apply _|sat_leaf| |done].
  intros source_configs _. apply discover_loop_sat.
Qed.

(** What [discover_urls] returns does not depend on the store: it is the
    concatenation of the contributions of the configured sources. *)
Lemma discover_urls_value self st :
  value_of (discover_urls env self st) = discovered env self.
Proof.
  unfold discover_urls, discovered. rewrite value_bind. simpl.
  destruct (py_get (sources_config self) "sources" (PList [])) as [sources|e];
    simpl; [|done].
  rewrite value_bind. simpl.
  destruct (py_iter sources) as [source_configs|e]; simpl; [|done].
  rewrite discover_loop_value.
  by destruct (contributions env source_configs).
Qed.

End DiscoveryFacts.

Section SyncFacts.

Import Main State Mealie.

Variable env : Env.

Lemma import_one_run self url counts st :
  dry_run self = false ->
  import_one env self url counts st
  = (after_import env st url, import_one_events env url,
     Ok (count_import env counts url)).
Proof.
  intros Hdry. destruct counts as [i f].
  unfold import_one, after_import, import_one_events, count_import, succeeded,
    import_record, attempt_record.
  rewrite Hdry.
  assert (Hcall : lift (import_recipe_from_url env false url) st
                  = (st, import_events env url, Ok (recipe_of env url))).
  { apply lift_run, import_recipe_run. }
  destruct (recipe_of_shape env url) as [E|[[|kv d] E]]; rewrite E in *.
  - erewrite try_catch_run; [reflexivity|].
    erewrite bind_run by exact Hcall. reflexivity.
  - erewrite try_catch_run; [reflexivity|].
    erewrite bind_run by exact Hcall. reflexivity.
  - erewrite try_catch_run; [reflexivity|].
    erewrite bind_run by exact Hcall. reflexivity.
Qed.

(** The import loop visits every URL that it is given, in order. *)
Lemma import_loop_run self urls counts st :
  dry_run self = false ->
  import_loop env self urls counts st
  = (foldl (after_import env) st urls,
     concat (map (import_one_events env) urls),
     Ok (foldl (count_import env) counts urls)).
Proof.
  intros Hdry. revert counts st.
  induction urls as [|url rest IH]; intros counts st; [done|].
  simpl. erewrite bind_run by (by apply import_one_run).
  rewrite IH. done.
Qed.

Lemma imports_opened st : imports (opened st) = imports st.
Proof. done. Qed.

Lemma discovery_only_seen self st :
  only_seen (opened st) (state_of (discover_urls env self (opened st))).
Proof. apply (discover_urls_sat env self (opened st)). Qed.

Lemma imported_urls_discovery self st :
  imported_urls (state_of (discover_urls env self (opened st))) = imported_urls st.
Proof.
  unfold imported_urls.
  by rewrite (proj1 (discovery_only_seen self st)).
Qed.

Lemma discovery_run self st :
  discover_urls env self (opened st)
  = (state_of (discover_urls env self (opened st)),
     events_of (discover_urls env self (opened st)),
     discovered env self).
Proof. rewrite <- (discover_urls_value env self (opened st)). apply triple_eta. Qed.

(** [sync] follows its plan. *)
Lemma sync_plan self st :
  sync env self st = run_of_plan env self st (plan env self st).
Proof.
  unfold sync, sync_with, plan, run_of_plan.
  erewrite bind_run by reflexivity. simpl app.
  assert (Htc : lift (test_connection env) (opened st)
                = (opened st, connection_events env, Ok (connected env))).
  { apply lift_run, test_connection_run. }
  destruct (connected env) eqn:Hc; simpl negb; cbv iota.
  2:{ erewrite try_catch_run; [reflexivity|].
      erewrite bind_run by exact Htc. reflexivity. }
  pose proof (discovery_run self st) as Hd.
  destruct (discovered env self) as [D|e] eqn:HD.
  2:{ erewrite try_catch_run_raise; cycle 1.
      { run_step Htc. erewrite bind_run_raise by exact Hd. reflexivity. }
      simpl. by rewrite <- ?app_assoc. }
  assert (Hi : get_imported_urls (state_of (discover_urls env self (opened st)))
               = (state_of (discover_urls env self (opened st)),
                  [EvStore GetImportedUrls], Ok (imported_urls st))).
  { unfold get_imported_urls. by rewrite imported_urls_discovery. }
  fold (candidates D st).
  destruct (negb (nonempty (candidates D st))) eqn:Hn.
  { erewrite try_catch_run; [reflexivity|].
    run_step Htc. run_step Hd. run_step Hi.
    fold (candidates D st). rewrite Hn.
    simpl. by rewrite <- ?app_assoc. }
  destruct (dry_run self) eqn:Hdry.
  { erewrite try_catch_run; [reflexivity|].
    run_step Htc. run_step Hd. run_step Hi.
    fold (candidates D st). rewrite Hn.
    simpl. by rewrite <- ?app_assoc. }
  erewrite try_catch_run; [reflexivity|].
  run_step Htc. run_step Hd. run_step Hi.
  fold (candidates D st). rewrite Hn.
  erewrite bind_run by (by apply import_loop_run).
  simpl. by rewrite <- ?app_assoc.
Qed.

Lemma import_one_events_import url : Forall import_event (import_one_events env url).
Proof.
  unfold import_one_events.
  destruct (import_events_shape env url) as (evs & -> & Hevs).
  apply Forall_app. split.
  - constructor; [done|]. eapply Forall_impl; [exact Hevs|]. by intros [].
  - destruct (succeeded env url); by repeat constructor.
Qed.

Lemma import_calls_import_one url : import_calls (import_one_events env url) = [url].
Proof.
  unfold import_one_events.
  rewrite import_calls_app, import_calls_import_events.
  by destruct (succeeded env url).
Qed.

Lemma import_calls_loop urls :
  import_calls (concat (map (import_one_events env) urls)) = urls.
Proof.
  induction urls as [|url rest IH]; [done|].
  simpl. by rewrite import_calls_app, import_calls_import_one, IH.
Qed.

Lemma loop_events_import urls :
  Forall import_event (concat (map (import_one_events env) urls)).
Proof.
  induction urls as [|url rest IH]; [constructor|].
  simpl. apply Forall_app. split; [apply import_one_events_import|done].
Qed.

Lemma after_import_loop st urls :
  seen (foldl (after_import env) st urls) = seen st
  /\ runs (foldl (after_import env) st urls) = runs st
  /\ imports (foldl (after_import env) st urls)
     = imports st ++ map (import_record env)
                        (filter (fun url => succeeded env url = true) urls)
  /\ attempts (foldl (after_import env) st urls)
     = attempts st ++ map (attempt_record env) urls.
Proof.
  revert st. induction urls as [|url rest IH]; intros st.
  - simpl. by rewrite !app_nil_r.
  - simpl foldl. destruct (IH (after_import env st url)) as (H1 & H2 & H3 & H4).
    rewrite H1, H2, H3, H4. simpl. repeat split.
    + rewrite filter_cons. destruct (succeeded env url) eqn:E.
      * rewrite decide_True by done. simpl. by rewrite <- app_assoc.
      * by rewrite decide_False by done.
    + by rewrite <- app_assoc.
Qed.

Lemma run_of_plan_import_calls self st p :
  import_calls (events_of (run_of_plan env self st p)) = attempted p.
Proof.
  pose proof (connection_events_get env) as Hc.
  pose proof (proj1 (proj2 (discover_urls_sat env self (opened st)))) as Hd.
  destruct p as [|e|D|D urls]; unfold run_of_plan; cbn [events_of fst snd attempted];
    rewrite import_calls_cons, !import_calls_app,
      (import_calls_net _ _ Hc), ?(import_calls_discovery _ Hd),
      ?import_calls_loop;
    unfold import_calls; simpl; by rewrite ?app_nil_r.
Qed.

Lemma run_of_plan_completions self st p :
  completions (events_of (run_of_plan env self st p)) = [final_call env st p].
Proof.
  pose proof (connection_events_get env) as Hc.
  pose proof (proj1 (proj2 (discover_urls_sat env self (opened st)))) as Hd.
  destruct p as [|e|D|D urls]; unfold run_of_plan; cbn [events_of fst snd final_call];
    rewrite completions_cons, !completions_app,
      (completions_net _ _ Hc), ?(completions_discovery _ Hd),
      ?(completions_import _ (loop_events_import urls));
    unfold completions; simpl; done.
Qed.

Lemma run_of_plan_store self st p :
  imports (state_of (run_of_plan env self st p)) = imports st ++ new_imports env p
  /\ attempts (state_of (run_of_plan env self st p)) = attempts st ++ new_attempts env p
  /\ runs (state_of (run_of_plan env self st p))
     = map (finalized_by (final_call env st p)) (runs st)
       ++ option_list (finished_run (final_call env st p)).
Proof.
  destruct (discovery_only_seen self st) as (Hi & Ha & Hr).
  unfold new_imports, new_attempts.
  destruct p as [|e|D|D urls]; simpl.
  1-3: rewrite ?Hi, ?Ha, ?Hr; simpl; rewrite ?app_nil_r; repeat split;
       rewrite map_app; simpl; unfold finalize at 2; simpl;
       by rewrite bool_decide_eq_true_2.
  destruct (after_import_loop (state_of (discover_urls env self (opened st))) urls)
    as (_ & H2 & H3 & H4).
  rewrite H2, H3, H4, Hi, Ha, Hr. simpl. repeat split.
  rewrite map_app; simpl. unfold finalize at 2; simpl.
  by rewrite bool_decide_eq_true_2.
Qed.

(** [sync] returns, whatever happens. *)
Lemma sync_returns self st : value_of (sync env self st) = Ok tt.
Proof. rewrite sync_plan. by destruct (plan env self st). Qed.

Lemma cycle_sync self st : cycle env self st = sync env self st.
Proof.
  unfold cycle, try_catch. pose proof (sync_returns self st) as H.
  destruct (sync env self st) as [[s evs] r]. simpl in H. by subst r.
Qed.

End SyncFacts.

Section RunFacts.

Import Main State Mealie.

Lemma elem_of_map {A B} (f : A -> B) (l : list A) (y : B) :
  y ∈ map f l <-> exists x, y = f x /\ x ∈ l.
Proof. apply (list_elem_of_fmap f). Qed.

Lemma elem_of_imported_urls st u :
  u ∈ imported_urls st <-> exists r, r ∈ imports st /\ imp_url r = u.
Proof.
  unfold imported_urls. rewrite elem_of_list_to_set, elem_of_map. naive_solver.
Qed.

Lemma elem_of_candidates D st u :
  u ∈ candidates D st <-> u ∈ D /\ u ∉ imported_urls st.
Proof.
  unfold candidates, new_urls_of.
  rewrite list_elem_of_filter, elem_of_dict_fromkeys. tauto.
Qed.

Lemma NoDup_candidates D st : NoDup (candidates D st).
Proof. apply NoDup_filter, NoDup_dict_fromkeys. Qed.

Lemma slice_to_nil {A} (n : Z) : slice_to (@nil A) n = [].
Proof. unfold slice_to. destruct (0 <=? n)%Z; apply take_nil. Qed.

Variable env : Env.

Lemma plan_dry self st : dry_run self = true -> attempted (plan env self st) = [].
Proof.
  intros Hdry. unfold plan. rewrite Hdry.
  destruct (negb (connected env)); [done|].
  destruct (discovered env self) as [D|e]; [|done].
  by destruct (negb (nonempty (candidates D st))).
Qed.

Lemma plan_attempted self st D :
  connected env = true -> discovered env self = Ok D -> dry_run self = false ->
  attempted (plan env self st) = slice_to (candidates D st) (max_recipes_per_run self).
Proof.
  intros Hc HD Hdry. unfold plan. rewrite Hc, HD, Hdry. simpl.
  destruct (candidates D st) as [|u us] eqn:E; simpl; [|done].
  by rewrite slice_to_nil.
Qed.

Lemma plan_candidates self st u :
  u ∈ attempted (plan env self st) ->
  exists D, discovered env self = Ok D /\ u ∈ candidates D st.
Proof.
  unfold plan. destruct (negb (connected env)); [by intros ?%elem_of_nil|].
  destruct (discovered env self) as [D|e]; [|by intros ?%elem_of_nil].
  destruct (negb (nonempty (candidates D st))); [by intros ?%elem_of_nil|].
  destruct (dry_run self); [by intros ?%elem_of_nil|].
  simpl. intros Hu. exists D. split; [done|]. by eapply elem_of_slice_to.
Qed.

Lemma sync_import_calls self st :
  import_calls (events_of (sync env self st)) = attempted (plan env self st).
Proof. rewrite sync_plan. apply run_of_plan_import_calls. Qed.

Lemma sync_completions self st :
  completions (events_of (sync env self st)) = [final_call env st (plan env self st)].
Proof. rewrite sync_plan. apply run_of_plan_completions. Qed.

Lemma sync_imports self st :
  imports (state_of (sync env self st))
  = imports st ++ new_imports env (plan env self st).
Proof. rewrite sync_plan. apply run_of_plan_store. Qed.

Lemma sync_attempts self st :
  attempts (state_of (sync env self st))
  = attempts st ++ new_attempts env (plan env self st).
Proof. rewrite sync_plan. apply run_of_plan_store. Qed.

Lemma sync_runs self st :
  runs (state_of (sync env self st))
  = map (finalized_by (final_call env st (plan env self st))) (runs st)
    ++ option_list (finished_run (final_call env st (plan env self st))).
Proof. rewrite sync_plan. apply run_of_plan_store. Qed.

(** After a run, the URLs with an ImportRecord are those that had one and
    those whose import succeeded in the run. *)
Lemma sync_imported_urls self st u :
  u ∈ imported_urls (state_of (sync env self st))
  <-> u ∈ imported_urls st
      \/ (u ∈ import_calls (events_of (sync env self st)) /\ succeeded env u = true).
Proof.
  rewrite !elem_of_imported_urls, sync_imports, sync_import_calls.
  unfold new_imports. split.
  - intros (r & Hr & <-). apply elem_of_app in Hr as [Hr|Hr]; [left; by eauto|].
    apply elem_of_map in Hr as (x & -> & Hx).
    apply list_elem_of_filter in Hx as [Hs Hx]. by right.
  - intros [(r & Hr & <-)|[Hu Hs]].
    + exists r. split; [|done]. apply elem_of_app. by left.
    + exists (import_record env u). split; [|done].
      apply elem_of_app. right. apply elem_of_map. exists u. split; [done|].
      by apply list_elem_of_filter.
Qed.

Lemma sync_keeps_imports self st u :
  u ∈ imported_urls st -> u ∈ imported_urls (state_of (sync env self st)).
Proof. intros H. apply sync_imported_urls. by left. Qed.

(** The gate: a run never hands a URL with an ImportRecord to the import
    client. *)
Lemma sync_skips_imported self st u :
  u ∈ imported_urls st -> u ∉ import_calls (events_of (sync env self st)).
Proof.
  intros Hu Hc. rewrite sync_import_calls in Hc.
  apply plan_candidates in Hc as (D & _ & Hc).
  apply elem_of_candidates in Hc as [_ Hc]. by apply Hc.
Qed.

End RunFacts.

Section CycleFacts.

Import Main State.

Lemma cycles_cons env self rest st :
  cycles ((env, self) :: rest) st
  = (state_of (cycles rest (state_of (sync env self st))),
     events_of (sync env self st) ++ events_of (cycles rest (state_of (sync env self st))),
     value_of (cycles rest (state_of (sync env self st)))).
Proof.
  simpl. erewrite bind_run; [reflexivity|].
  rewrite cycle_sync.
  rewrite (triple_eta (sync env self st)) at 1. by rewrite sync_returns.
Qed.

(** Once a URL has an ImportRecord, no later run hands it to the import
    client, whatever the configuration and the outside world are then. *)
Lemma cycles_skip_imported rs st u :
  u ∈ imported_urls st ->
  (u ∉ import_calls (events_of (cycles rs st)))
  /\ u ∈ imported_urls (state_of (cycles rs st)).
Proof.
  revert st. induction rs as [|[env self] rest IH]; intros st Hu.
  - split; [apply not_elem_of_nil|done].
  - rewrite cycles_cons. simpl.
    destruct (IH (state_of (sync env self st)) (sync_keeps_imports env self st u Hu))
      as [H1 H2].
    split; [|done]. rewrite import_calls_app, not_elem_of_app.
    split; [by apply sync_skips_imported|done].
Qed.

End CycleFacts.

(* ===================================================================== *)
(** * The run record                                                      *)
(* ===================================================================== *)

Section RunRecord.

Import Main State Fixtures.

Variable env : Env.

Lemma final_call_shape st p :
  exists d i f r, final_call env st p = CompleteSyncRun (next_id st) d i f r.
Proof. destruct p; simpl; by eauto 10. Qed.

Lemma sync_head self st :
  head (events_of (sync env self st)) = Some (EvStore (StartSyncRun (next_id st))).
Proof. rewrite sync_plan. by destruct (plan env self st). Qed.

(** With a store whose [get_stats] answers with its counts, every run of
    [sync] returns normally, opens its SyncRun first, and calls
    [complete_sync_run] exactly once, for the identifier of that run:
    after the connectivity check failed, after an exception in discovery
    (with the message of the exception as the reason), and on the ways
    that complete. In the store, the run is then the last one and is
    finalized with the arguments of that call. *)
Lemma sync_finalizes_once (self : Manager) (st : Store) :
  value_of (sync env self st) = Ok tt
  /\ head (events_of (sync env self st)) = Some (EvStore (StartSyncRun (next_id st)))
  /\ (exists d i f r,
        completions (events_of (sync env self st))
        = [CompleteSyncRun (next_id st) d i f r]
        /\ runs (state_of (sync env self st))
           = map (finalize (next_id st) d i f r) (runs st)
             ++ [ {| run_id := next_id st; run_finished := true;
                     run_discovered := d; run_imported := i; run_failed := f;
                     run_reason := r |} ])
  /\ (connected env = false ->
      completions (events_of (sync env self st))
      = [CompleteSyncRun (next_id st) 0 0 0 (Some "Failed to connect to Mealie")])
  /\ (forall e, connected env = true -> discovered env self = Raise e ->
      completions (events_of (sync env self st))
      = [CompleteSyncRun (next_id st) 0 0 0 (Some (str_exn e))]).
Proof.
  split; [apply sync_returns|]. split; [apply sync_head|].
  rewrite sync_completions, sync_runs. split; [|split].
  - destruct (final_call_shape st (plan env self st)) as (d & i & f & r & ->).
    by exists d, i, f, r.
  - intros Hc. unfold plan. by rewrite Hc.
  - intros e Hc He. unfold plan. by rewrite Hc, He.
Qed.

Lemma dry_plan self st :
  dry_run self = true ->
  plan env self st = Offline
  \/ (exists e, plan env self st = Fatal e)
  \/ (exists D, plan env self st = Idle D).
Proof.
  intros Hdry. unfold plan. rewrite Hdry.
  destruct (negb (connected env)); [by left|].
  destruct (discovered env self) as [D|e]; [|by eauto].
  destruct (negb (nonempty (candidates D st))); by eauto.
Qed.

Lemma dry_sync_events self st :
  dry_run self = true -> Forall dry_event (events_of (sync env self st)).
Proof.
  intros Hdry. rewrite sync_plan.
  pose proof (net_event_dry _ (connection_events_get env)) as Hc.
  pose proof (discovery_event_dry _
                (proj1 (proj2 (discover_urls_sat env self (opened st))))) as Hd.
  destruct (dry_plan self st Hdry) as [->|[[e ->]|[D ->]]]; simpl.
  - constructor; [done|]. apply Forall_app. split; [done|]. by repeat constructor.
  - constructor; [done|]. rewrite !Forall_app. repeat split; try done.
    by repeat constructor.
  - constructor; [done|]. rewrite !Forall_app. repeat split; try done.
    by repeat constructor.
Qed.

(** C4. In dry-run mode a run sends no request other than the [GET] of the
    connectivity check, never calls the import client, and calls nothing on
    the store but [start_sync_run], [mark_url_seen], [get_imported_urls]
    and [complete_sync_run]: no ImportRecord and no AttemptRecord is
    written. The run is finalized once, with zero imported and failed
    counts, and with the number of discovered URLs when discovery returned
    (with zero and a reason when the run was aborted before). *)
Theorem dry_run_writes_nothing (self : Manager) (st : Store) :
  dry_run self = true ->
  Forall dry_event (events_of (sync env self st))
  /\ import_calls (events_of (sync env self st)) = []
  /\ imports (state_of (sync env self st)) = imports st
  /\ attempts (state_of (sync env self st)) = attempts st
  /\ (exists d r,
        completions (events_of (sync env self st))
        = [CompleteSyncRun (next_id st) d 0 0 r]
        /\ runs (state_of (sync env self st))
           = map (finalize (next_id st) d 0 0 r) (runs st)
             ++ [ {| run_id := next_id st; run_finished := true;
                     run_discovered := d; run_imported := 0; run_failed := 0;
                     run_reason := r |} ])
  /\ (forall D, connected env = true -> discovered env self = Ok D ->
      completions (events_of (sync env self st))
      = [CompleteSyncRun (next_id st) (length D) 0 0 None]).
Proof.
  intros Hdry. split; [by apply dry_sync_events|].
  rewrite sync_import_calls, sync_imports, sync_attempts, sync_completions, sync_runs.
  unfold new_imports, new_attempts. rewrite (plan_dry env self st Hdry). simpl.
  rewrite !app_nil_r. repeat split.
  - destruct (dry_plan self st Hdry) as [->|[[e ->]|[D ->]]]; simpl; by eauto.
  - intros D Hc HD. unfold plan. rewrite Hc, HD, Hdry. simpl.
    by destruct (negb (nonempty (candidates D st))).
Qed.

Lemma length_concat_sum {A} (lists : list (list A)) :
  length (concat lists) = sum_list (map length lists).
Proof.
  induction lists as [|l lists IH]; [done|].
  simpl. by rewrite length_app, IH.
Qed.

(** The contribution of an enabled entry of a known type is the list that
    its source returns, when the source returns and the domain of each of
    its URLs is found. *)
Lemma contribution_returns config source urls :
  truthy (dict_get config "enabled" (PBool true)) = true ->
  Sources.create_source config = Some source ->
  value_of (Sources.get_recipe_urls env source config tt) = Ok urls ->
  domains_ok env urls = true ->
  contribution env (PDict config) = Ok urls.
Proof.
  intros He Hs Hu Hd. unfold contribution. simpl. by rewrite He, Hs, Hu, Hd.
Qed.

Lemma contributions_concat source_configs lists :
  Forall2 (fun sc urls => contribution env sc = Ok urls) source_configs lists ->
  contributions env source_configs = Ok (concat lists).
Proof.
  induction 1 as [|sc urls scs lists Hsc _ IH]; [done|].
  simpl. by rewrite Hsc, IH.
Qed.

Lemma contributions_app scs1 scs2 us1 us2 :
  contributions env scs1 = Ok us1 -> contributions env scs2 = Ok us2 ->
  contributions env (scs1 ++ scs2) = Ok (us1 ++ us2).
Proof.
  revert us1. induction scs1 as [|sc scs1 IH]; intros us1; simpl.
  - by intros [= <-].
  - destruct (contribution env sc) as [urls|e]; simpl; [|done].
    destruct (contributions env scs1) as [more|e] eqn:E; simpl; [|done].
    intros [= <-] H2. rewrite (IH more eq_refl H2). simpl. by rewrite app_assoc.
Qed.

(** C10. The discovered count with which a run that is not aborted is
    finalized is the length of the concatenation of the lists that the
    configured sources contributed, taken before deduplication: it is the
    sum of the lengths of these lists, so that a URL counts once for each
    of its occurrences. *)
Theorem discovered_count_before_dedup (self : Manager) (st : Store)
  (sources : pyval) (source_configs : list pyval) (lists : list (list string)) :
  connected env = true ->
  py_get (sources_config self) "sources" (PList []) = Ok sources ->
  py_iter sources = Ok source_configs ->
  Forall2 (fun sc urls => contribution env sc = Ok urls) source_configs lists ->
  (forall st', value_of (discover_urls env self st') = Ok (concat lists))
  /\ (exists i f,
        completions (events_of (sync env self st))
        = [CompleteSyncRun (next_id st) (length (concat lists)) i f None]
        /\ runs (state_of (sync env self st))
           = map (finalize (next_id st) (length (concat lists)) i f None) (runs st)
             ++ [ {| run_id := next_id st; run_finished := true;
                     run_discovered := length (concat lists); run_imported := i;
                     run_failed := f; run_reason := None |} ])
  /\ length (concat lists) = sum_list (map length lists).
Proof.
  intros Hc Hs Hi Hl.
  assert (HD : discovered env self = Ok (concat lists)).
  { unfold discovered. rewrite Hs. simpl. rewrite Hi. simpl.
    by apply contributions_concat. }
  split; [intros st'; by rewrite discover_urls_value|].
  split; [|apply length_concat_sum].
  rewrite sync_completions, sync_runs. unfold plan. rewrite Hc, HD. simpl.
  destruct (negb (nonempty (candidates (concat lists) st))); [by eauto|].
  destruct (dry_run self); simpl; by eauto.
Qed.

End RunRecord.

Section RunRecordExamples.

Import Main State Fixtures.

Lemma dry_run_witness :
  events_of (sync plain_env dry_manager State.empty)
  = [EvStore (StartSyncRun 1); EvHttp "GET" "/api/app/about" None;
     EvStore (MarkUrlSeen u1 "example.com"); EvStore (MarkUrlSeen u2 "example.com");
     EvStore GetImportedUrls; EvStore (CompleteSyncRun 1 2 0 0 None)]
  /\ completions (events_of (sync plain_env dry_manager State.empty))
     = [CompleteSyncRun 1 2 0 0 None].
Proof.
  split; [reflexivity|].
  apply (proj2 (proj2 (proj2 (proj2 (proj2
           (dry_run_writes_nothing plain_env dry_manager State.empty eq_refl)))))
           [u1; u2]); reflexivity.
Defined.

(** Two sources return the same two URLs, the second one of them twice:
    five URLs are counted as discovered, two remain after deduplication. *)
Lemma discovered_count_witness :
  value_of (discover_urls plain_env twice_manager State.empty)
  = Ok [u1; u2; u2; u1; u1]
  /\ dict_fromkeys [u1; u2; u2; u1; u1] = [u1; u2]
  /\ completions (events_of (sync plain_env twice_manager State.empty))
     = [CompleteSyncRun 1 5 2 0 None].
Proof.
  destruct (discovered_count_before_dedup plain_env twice_manager State.empty
              (PList [url_list_source "a" [u1; u2]; url_list_source "b" [u2; u1; u1]])
              [url_list_source "a" [u1; u2]; url_list_source "b" [u2; u1; u1]]
              [[u1; u2]; [u2; u1; u1]] eq_refl eq_refl eq_refl) as (HD & _ & _).
  { repeat constructor. }
  split; [exact (HD State.empty)|]. split; reflexivity.
Defined.

(** Both ways out of [sync]: a run that completes, and a run that is
    aborted by an exception in discovery. *)
Example sync_completes_example :
  completions (events_of (sync plain_env five_manager State.empty))
  = [CompleteSyncRun 1 5 2 0 None].
Proof. reflexivity. Qed.

Example sync_aborts_example :
  completions (events_of (sync plain_env broken_manager State.empty))
  = [CompleteSyncRun 1 0 0 0 (Some "object has no attribute 'get'")].
Proof. reflexivity. Qed.

End RunRecordExamples.

Section ClosedTwice.

Import Main State Mealie.

Variable env : Env.

#[local] Arguments py_getitem : simpl never.

(** The finalization of a run that imported, and what follows it. *)
Lemma summary_run r id d i f st1 :
  (complete_sync_run id d i f None;;
   let* stats := get_stats_giving r in
   let* total_imports := liftR (py_getitem stats "total_imports") in
   ret tt) st1
  = (closed id d i f None st1,
     [EvStore (CompleteSyncRun id d i f None); EvStore GetStats],
     match summary r with Ok _ => Ok tt | Raise e => Raise e end).
Proof.
  unfold bind, complete_sync_run, get_stats_giving, summary, closed, liftR, ret.
  destruct r as [stats|e]; simpl; [|done].
  by destruct (py_getitem stats "total_imports").
Qed.

(** [sync] over a [get_stats] that ends with [r]. Where the run imports
    and reading the summary raises, the handler of the [try] calls
    [complete_sync_run] once more; everywhere else the run is the one of
    the plan. *)
Lemma sync_with_giving r self st :
  sync_with env (get_stats_giving r) self st
  = match plan env self st, summary r with
    | Run.Import D urls, Raise e =>
        (closed (next_id st) 0 0 0 (Some (str_exn e))
           (state_of (run_of_plan env self st (Run.Import D urls))),
         events_of (run_of_plan env self st (Run.Import D urls))
         ++ [EvStore (CompleteSyncRun (next_id st) 0 0 0 (Some (str_exn e)))],
         Ok tt)
    | p, _ => run_of_plan env self st p
    end.
Proof.
  unfold sync_with, plan, run_of_plan.
  erewrite bind_run by reflexivity. simpl app.
  assert (Htc : lift (test_connection env) (opened st)
                = (opened st, connection_events env, Ok (connected env))).
  { apply lift_run, test_connection_run. }
  destruct (connected env) eqn:Hc; simpl negb; cbv iota.
  2:{ erewrite try_catch_run; [reflexivity|].
      erewrite bind_run by exact Htc. reflexivity. }
  pose proof (discovery_run env self st) as Hd.
  destruct (discovered env self) as [D|e] eqn:HD.
  2:{ erewrite try_catch_run_raise; cycle 1.
      { run_step Htc. erewrite bind_run_raise by exact Hd. reflexivity. }
      simpl. by rewrite <- ?app_assoc. }
  assert (Hi : get_imported_urls (state_of (discover_urls env self (opened st)))
               = (state_of (discover_urls env self (opened st)),
                  [EvStore GetImportedUrls], Ok (imported_urls st))).
  { unfold get_imported_urls. by rewrite imported_urls_discovery. }
  fold (candidates D st).
  destruct (negb (nonempty (candidates D st))) eqn:Hn.
  { erewrite try_catch_run; [reflexivity|].
    run_step Htc. run_step Hd. run_step Hi.
    fold (candidates D st). rewrite Hn.
    simpl. by rewrite <- ?app_assoc. }
  destruct (dry_run self) eqn:Hdry.
  { erewrite try_catch_run; [reflexivity|].
    run_step Htc. run_step Hd. run_step Hi.
    fold (candidates D st). rewrite Hn.
    simpl. by rewrite <- ?app_assoc. }
  destruct (summary r) as [total|e] eqn:Hs.
  - erewrite try_catch_run; [reflexivity|].
    run_step Htc. run_step Hd. run_step Hi.
    fold (candidates D st). rewrite Hn.
    erewrite bind_run by (by apply import_loop_run).
    cbn [state_of events_of value_of fst snd].
    rewrite summary_run, Hs. simpl. by rewrite <- ?app_assoc.
  - erewrite try_catch_run_raise; cycle 1.
    { run_step Htc. run_step Hd. run_step Hi.
      fold (candidates D st). rewrite Hn.
      erewrite bind_run by (by apply import_loop_run).
      cbn [state_of events_of value_of fst snd].
      rewrite summary_run, Hs. simpl. reflexivity. }
    simpl. by rewrite <- ?app_assoc.
Qed.

Lemma finalize_again id d i f r d' i' f' r' run :
  finalize id d' i' f' r' (finalize id d i f r run) = finalize id d i f r run.
Proof.
  unfold finalize.
  destruct (bool_decide (run_id run = id) && negb (run_finished run)) eqn:E; simpl.
  - by rewrite andb_false_r.
  - by rewrite E.
Qed.

(** C7, where the code departs from it. In a run that imports, the
    summary that follows the finalization, [stats = get_stats()] and
    [stats['total_imports']], sits in the same [try]: when the store
    cannot be read there, or answers with a mapping that lacks the key,
    the handler calls [complete_sync_run] a second time for the same run,
    now with zero counts and the message of the exception. The run still
    returns normally, and a store that ignores the second call keeps the
    record of the first. Everywhere else, on the ways that do not reach
    the summary and when the summary can be read, the run calls
    [complete_sync_run] exactly once. *)
Theorem sync_finalizes_twice (self : Manager) (st : Store) (r : result pyval) :
  (forall D e,
     connected env = true -> discovered env self = Ok D ->
     dry_run self = false -> candidates D st <> [] ->
     summary r = Raise e ->
     (exists i f,
        completions (events_of (sync_with env (get_stats_giving r) self st))
        = [CompleteSyncRun (next_id st) (length D) i f None;
           CompleteSyncRun (next_id st) 0 0 0 (Some (str_exn e))])
     /\ value_of (sync_with env (get_stats_giving r) self st) = Ok tt
     /\ runs (state_of (sync_with env (get_stats_giving r) self st))
        = runs (state_of (sync env self st)))
  /\ (is_ok (summary r) = true
      \/ dry_run self = true
      \/ connected env = false
      \/ is_ok (discovered env self) = false
      \/ (exists D, discovered env self = Ok D /\ candidates D st = []) ->
      exists d i f reason,
        completions (events_of (sync_with env (get_stats_giving r) self st))
        = [CompleteSyncRun (next_id st) d i f reason]).
Proof.
  rewrite sync_with_giving. split.
  - intros D e Hc HD Hdry Hne Hs.
    assert (Hp : plan env self st
                 = Run.Import D (slice_to (candidates D st) (max_recipes_per_run self))).
    { unfold plan. rewrite Hc, HD, Hdry. simpl.
      by destruct (candidates D st). }
    rewrite sync_plan, Hp, Hs.
    pose proof (run_of_plan_completions env self st
                  (Run.Import D (slice_to (candidates D st) (max_recipes_per_run self))))
      as Hcompl.
    destruct (run_of_plan_store env self st
                (Run.Import D (slice_to (candidates D st) (max_recipes_per_run self))))
      as (_ & _ & Hruns).
    destruct (run_of_plan env self st
                (Run.Import D (slice_to (candidates D st) (max_recipes_per_run self))))
      as [[st1 evs1] v1].
    cbn [state_of events_of value_of fst snd] in *.
    split; [|split; [done|]].
    + rewrite completions_app, Hcompl. simpl. by eauto.
    + unfold closed, complete_sync_run. cbn [state_of fst snd runs].
      rewrite Hruns, map_app, map_map.
      f_equal.
      * apply map_ext. intros run. simpl. apply finalize_again.
      * simpl. unfold finalize. simpl. by rewrite andb_false_r.
  - intros Hcase.
    assert (Hsame : match plan env self st, summary r with
                    | Run.Import D urls, Raise e =>
                        (closed (next_id st) 0 0 0 (Some (str_exn e))
                           (state_of (run_of_plan env self st (Run.Import D urls))),
                         events_of (run_of_plan env self st (Run.Import D urls))
                         ++ [EvStore (CompleteSyncRun (next_id st) 0 0 0
                                        (Some (str_exn e)))],
                         Ok tt)
                    | p, _ => run_of_plan env self st p
                    end = run_of_plan env self st (plan env self st)).
    { destruct Hcase as [Hok|[Hdry|[Hc|[HD|(D & HD & Hnone)]]]].
      - destruct (summary r); [|done]. by destruct (plan env self st).
      - pose proof (dry_plan env self st Hdry) as [-> |[[e ->]|[D ->]]]; done.
      - unfold plan. by rewrite Hc.
      - unfold plan. destruct (negb (connected env)); [done|].
        by destruct (discovered env self).
      - unfold plan. destruct (negb (connected env)); [done|].
        by rewrite HD, Hnone. }
    rewrite Hsame, run_of_plan_completions.
    destruct (final_call_shape env st (plan env self st)) as (d & i & f & reason & ->).
    by eauto.
Qed.

End ClosedTwice.

Section ClosedTwiceExamples.

Import Main State Fixtures.

(** The store cannot be read after the two imports of a run: the run is
    closed twice. *)
Lemma sync_finalizes_twice_witness :
  completions
    (events_of (sync_with plain_env
                  (get_stats_giving (Raise (OtherError "database is locked")))
                  two_manager State.empty))
  = [CompleteSyncRun 1 2 2 0 None;
     CompleteSyncRun 1 0 0 0 (Some "database is locked")].
Proof.
  destruct (proj1 (sync_finalizes_twice plain_env two_manager State.empty
                     (Raise (OtherError "database is locked")))
              [u1; u2] (OtherError "database is locked")
              eq_refl eq_refl eq_refl ltac:(discriminate) eq_refl)
    as ((i & f & H) & _).
  rewrite H. vm_compute in H. by injection H as <- <-.
Defined.

(** The same with a store that answers without the key. *)
Example sync_summary_without_key :
  completions
    (events_of (sync_with plain_env (get_stats_giving (Ok (PDict []))) two_manager
                  State.empty))
  = [CompleteSyncRun 1 2 2 0 None;
     CompleteSyncRun 1 0 0 0 (Some "'total_imports'")].
Proof. reflexivity. Qed.

End ClosedTwiceExamples.

(* ===================================================================== *)
(** * The import gate, the cap and the conflict answer                    *)
(* ===================================================================== *)

Section Gate.

Import Main State Mealie Fixtures.

Lemma record_attempt_imported_urls st u ok msg :
  imported_urls (state_of (record_attempt u ok msg st)) = imported_urls st.
Proof. reflexivity. Qed.

(** C1. The candidate list of a run is the deduplicated list of the
    discovered URLs without exactly those that have an ImportRecord, and a
    run hands no URL to the import client that is not on it. A URL with an
    ImportRecord is therefore on no candidate list and is attempted in no
    later run, whatever is discovered then; the record itself stays. An
    AttemptRecord does not touch the gate: a URL gets an ImportRecord in a
    run only by a successful import, so that a URL whose attempts all
    failed is a candidate again whenever it is rediscovered, and is
    attempted again when it is among the first of the candidates up to the
    cap. *)
Theorem import_gate :
  (forall D st u, u ∈ candidates D st <-> u ∈ D /\ u ∉ imported_urls st)
  /\ (forall D st,
        candidates D st = filter (fun url => url ∉ imported_urls st) (dict_fromkeys D)
        /\ NoDup (candidates D st))
  /\ (forall env self st u,
        u ∈ import_calls (events_of (sync env self st)) ->
        exists D, discovered env self = Ok D /\ u ∈ candidates D st)
  /\ (forall rs st u,
        u ∈ imported_urls st ->
        (u ∉ import_calls (events_of (cycles rs st)))
        /\ u ∈ imported_urls (state_of (cycles rs st)))
  /\ (forall st u ok msg,
        imported_urls (state_of (record_attempt u ok msg st)) = imported_urls st)
  /\ (forall env self st u,
        u ∈ imported_urls (state_of (sync env self st))
        <-> u ∈ imported_urls st
            \/ (u ∈ import_calls (events_of (sync env self st))
                /\ succeeded env u = true))
  /\ (forall env self st D u,
        connected env = true -> discovered env self = Ok D ->
        dry_run self = false ->
        u ∈ slice_to (candidates D st) (max_recipes_per_run self) ->
        u ∈ import_calls (events_of (sync env self st))).
Proof.
  split; [apply elem_of_candidates|].
  split; [intros D st; split; [done|apply NoDup_candidates]|].
  split.
  { intros env self st u. rewrite sync_import_calls. apply plan_candidates. }
  split; [apply cycles_skip_imported|].
  split; [apply record_attempt_imported_urls|].
  split; [apply sync_imported_urls|].
  intros env self st D u Hc HD Hdry Hu.
  by rewrite sync_import_calls, (plan_attempted env self st D).
Qed.

Variable env : Env.

Lemma take_drop_disjoint (n : nat) (l : list string) u :
  NoDup l -> u ∈ drop n l -> u ∉ take n l.
Proof.
  intros Hl Hd Ht. rewrite <- (take_drop n l) in Hl.
  apply NoDup_app in Hl as (_ & Hl & _). by apply (Hl u).
Qed.

Lemma drop_elem_of (n : nat) (l : list string) u : u ∈ drop n l -> u ∈ l.
Proof.
  intros Hu. rewrite <- (take_drop n l). apply elem_of_app. by right.
Qed.

(** C2. In a run that is not a dry run and is not aborted, the import
    client is called for exactly the first [cap] candidates, in their
    order: the candidates are the discovered URLs, deduplicated with the
    order of their first occurrences kept, without the imported ones. The
    candidates beyond the cap get no ImportRecord in the run and so remain
    candidates. The discovered URLs are the contributions of the sources
    in the order of the configuration. *)
Theorem capped_import_order (self : Manager) (st : Store) (D : list string) :
  connected env = true ->
  discovered env self = Ok D ->
  dry_run self = false ->
  (0 <= max_recipes_per_run self)%Z ->
  import_calls (events_of (sync env self st))
  = take (Z.to_nat (max_recipes_per_run self))
         (filter (fun url => url ∉ imported_urls st) (dict_fromkeys D))
  /\ (NoDup (dict_fromkeys D)
      /\ (forall x, x ∈ dict_fromkeys D <-> x ∈ D)
      /\ (forall x y, index_of x (dict_fromkeys D) < index_of y (dict_fromkeys D)
                      <-> index_of x D < index_of y D))
  /\ (forall u,
        u ∈ drop (Z.to_nat (max_recipes_per_run self))
                 (filter (fun url => url ∉ imported_urls st) (dict_fromkeys D)) ->
        (u ∉ imported_urls (state_of (sync env self st)))
        /\ forall D', u ∈ D' -> u ∈ candidates D' (state_of (sync env self st)))
  /\ (forall st', value_of (discover_urls env self st') = Ok D)
  /\ (forall sources source_configs,
        py_get (sources_config self) "sources" (PList []) = Ok sources ->
        py_iter sources = Ok source_configs ->
        contributions env source_configs = Ok D)
  /\ (forall scs1 scs2 us1 us2,
        contributions env scs1 = Ok us1 -> contributions env scs2 = Ok us2 ->
        contributions env (scs1 ++ scs2) = Ok (us1 ++ us2)).
Proof.
  intros Hc HD Hdry Hcap.
  assert (Hcalls : import_calls (events_of (sync env self st))
                   = take (Z.to_nat (max_recipes_per_run self)) (candidates D st)).
  { by rewrite sync_import_calls, (plan_attempted env self st D),
      slice_to_nonneg. }
  split; [exact Hcalls|].
  split.
  { split; [apply NoDup_dict_fromkeys|].
    split; [intros x; apply elem_of_dict_fromkeys|apply dict_fromkeys_order]. }
  split.
  { intros u Hu. fold (new_urls_of (dict_fromkeys D) (imported_urls st)) in Hu.
    fold (candidates D st) in Hu.
    assert (Hnot : u ∉ imported_urls (state_of (sync env self st))).
    { rewrite sync_imported_urls, Hcalls. intros [Hi|[Ht _]].
      - apply drop_elem_of, elem_of_candidates in Hu as [_ Hu]. by apply Hu.
      - by apply (take_drop_disjoint _ _ u (NoDup_candidates D st) Hu). }
    split; [done|]. intros D' HD'. by apply elem_of_candidates. }
  split; [intros st'; by rewrite discover_urls_value|].
  split; [|apply contributions_app].
  intros sources scs Hs Hi. unfold discovered in HD.
  rewrite Hs in HD. simpl in HD. by rewrite Hi in HD.
Qed.

(** The client's answer to a [409]. *)
Lemma conflict_recipe url js :
  value_of (session_request env "POST" "/api/recipes/create-url" (Some url) tt)
  = Ok {| status_code := 409; json := js |} ->
  value_of (import_recipe_from_url env false url tt) = Ok (existing_recipe url).
Proof.
  intros H. unfold import_recipe_from_url.
  rewrite value_bind. unfold log at 1 2. cbn [value_of state_of fst snd].
  rewrite value_try, value_bind, H. cbn [value_of state_of fst snd].
  rewrite value_bind. reflexivity.
Qed.

(** C3. When the downstream API answers an import call with status 409,
    the import client returns the record of an existing recipe, which is
    not a failure. The run that made the call therefore writes an
    ImportRecord and a successful AttemptRecord for the URL, and no later
    run calls the import client for it. *)
Theorem conflict_is_success (url : string) (js : result pyval) :
  value_of (session_request env "POST" "/api/recipes/create-url" (Some url) tt)
  = Ok {| status_code := 409; json := js |} ->
  value_of (import_recipe_from_url env false url tt) = Ok (existing_recipe url)
  /\ truthy (existing_recipe url) = true
  /\ (forall self st,
        url ∈ import_calls (events_of (sync env self st)) ->
        {| imp_url := url; imp_name := PStr "Existing Recipe"; imp_source := None |}
          ∈ imports (state_of (sync env self st))
        /\ {| att_url := url; att_success := true; att_error := None |}
             ∈ attempts (state_of (sync env self st))
        /\ forall rs,
             url ∉ import_calls
                     (events_of (cycles rs (state_of (sync env self st))))).
Proof.
  intros H. pose proof (conflict_recipe url js H) as Hr.
  split; [done|]. split; [done|].
  assert (Hrec : recipe_of env url = existing_recipe url).
  { unfold recipe_of. by rewrite Hr. }
  assert (Hs : succeeded env url = true).
  { unfold succeeded. by rewrite Hrec. }
  intros self st Hu. split; [|split].
  - rewrite sync_imports. apply elem_of_app. right.
    unfold new_imports. apply elem_of_map. exists url.
    split; [unfold import_record; by rewrite Hrec|].
    apply list_elem_of_filter. split; [done|]. by rewrite <- sync_import_calls.
  - rewrite sync_attempts. apply elem_of_app. right.
    unfold new_attempts. apply elem_of_map. exists url.
    split; [unfold attempt_record; by rewrite Hrec|].
    by rewrite <- sync_import_calls.
  - intros rs. apply cycles_skip_imported, sync_imported_urls. by right.
Qed.

End Gate.

Section GateExamples.

Import Main State Mealie Fixtures.

(** Five new URLs and a cap of two: the first two are attempted, and the
    other three are candidates of the next run. *)
Lemma capped_import_witness :
  import_calls (events_of (sync plain_env five_manager State.empty)) = [u1; u2]
  /\ candidates [u1; u2; u3; u4; u5]
       (state_of (sync plain_env five_manager State.empty)) = [u3; u4; u5].
Proof.
  destruct (capped_import_order plain_env five_manager State.empty
              [u1; u2; u3; u4; u5] eq_refl eq_refl eq_refl) as (H & _).
  { simpl. lia. }
  split; [exact H|reflexivity].
Defined.

(** The server answers 503 in the first run and 200 afterwards: the two
    URLs that failed are attempted again in the second run; once they are
    imported, the third run turns to the next two, although all five are
    discovered every time. *)
Example import_gate_three_runs :
  import_calls (events_of
    (cycles [(env_503, five_manager); (plain_env, five_manager);
             (plain_env, five_manager)] State.empty))
  = [u1; u2; u1; u2; u3; u4].
Proof. reflexivity. Qed.

Lemma import_gate_witness :
  u1 ∉ import_calls (events_of
         (cycles [(plain_env, five_manager); (plain_env, five_manager)]
            (state_of (sync plain_env five_manager State.empty)))).
Proof.
  assert (Hu : u1 ∈ imported_urls (state_of (sync plain_env five_manager State.empty))).
  { apply (bool_decide_unpack _). vm_compute. exact I. }
  exact (proj1 (proj1 (proj2 (proj2 (proj2 import_gate)))
                  [(plain_env, five_manager); (plain_env, five_manager)]
                  (state_of (sync plain_env five_manager State.empty)) u1 Hu)).
Defined.

Lemma conflict_witness :
  value_of (import_recipe_from_url env_409 false u1 tt) = Ok (existing_recipe u1)
  /\ imports (state_of (sync env_409 five_manager State.empty))
     = [ {| imp_url := u1; imp_name := PStr "Existing Recipe"; imp_source := None |};
         {| imp_url := u2; imp_name := PStr "Existing Recipe"; imp_source := None |} ]
  /\ import_calls (events_of
       (cycles [(env_409, five_manager); (env_409, five_manager)] State.empty))
     = [u1; u2; u3; u4].
Proof.
  split; [|split; reflexivity].
  apply (proj1 (conflict_is_success env_409 u1 (Raise JSONDecodeError) eq_refl)).
Defined.

(** The scenario of the design document: one static list with two URLs,
    an empty store, a cap of ten, both imports succeed. The run is
    finalized with two discovered, two imported and none failed, two
    ImportRecords exist, and the next run has no candidate. *)
Example two_urls_scenario :
  completions (events_of (sync plain_env two_manager State.empty))
  = [CompleteSyncRun 1 2 2 0 None]
  /\ map imp_url (imports (state_of (sync plain_env two_manager State.empty)))
     = [u1; u2]
  /\ candidates [u1; u2] (state_of (sync plain_env two_manager State.empty)) = []
  /\ import_calls (events_of
       (cycles [(plain_env, two_manager); (plain_env, two_manager)] State.empty))
     = [u1; u2].
Proof. repeat split. Qed.

(** A server that cannot be reached: the run is aborted before discovery,
    after the four requests of the connectivity check. *)
Example offline_scenario :
  events_of (sync env_offline two_manager State.empty)
  = [EvStore (StartSyncRun 1);
     EvHttp "GET" "/api/app/about" None; EvBackoff 0;
     EvHttp "GET" "/api/app/about" None; EvBackoff 4;
     EvHttp "GET" "/api/app/about" None; EvBackoff 8;
     EvHttp "GET" "/api/app/about" None;
     EvStore (CompleteSyncRun 1 0 0 0 (Some "Failed to connect to Mealie"))].
Proof. reflexivity. Qed.

(** The orchestrator is shielded from a source that raises: the entry
    contributes nothing and the other sources run. *)
Example raising_source_scenario :
  discovered plain_env
    (manager_of [PDict empty_urls_config; url_list_source "list" [u1]] 10 false)
  = Ok [u1].
Proof. reflexivity. Qed.

End GateExamples.

(* ===================================================================== *)
(** * More about the sources                                              *)
(* ===================================================================== *)

Section MoreSources.

Import Sources.

Variable env : Env.

Lemma collect_links_spec allow es acc urls :
  collect_links env allow es acc = Ok urls ->
  exists new,
    urls = acc ++ new
    /\ length new <= length es
    /\ forall u, u ∈ new ->
         exists link, Some link ∈ es /\ link <> ""
                      /\ normalize env (PStr link) = Ok u
                      /\ (truthy allow = true ->
                          matches_domain env (PStr link) allow = Ok true).
Proof.
  revert acc. induction es as [|entry es IH]; intros acc; simpl.
  - intros [= <-]. exists []. rewrite app_nil_r. split; [done|]. split; [done|].
    by intros u ?%elem_of_nil.
  - assert (Hskip : collect_links env allow es acc = Ok urls ->
                    exists new, urls = acc ++ new /\ length new <= S (length es)
                      /\ forall u, u ∈ new ->
                           exists link, Some link ∈ entry :: es /\ link <> ""
                             /\ normalize env (PStr link) = Ok u
                             /\ (truthy allow = true ->
                                 matches_domain env (PStr link) allow = Ok true)).
    { intros H. destruct (IH acc H) as (new & -> & Hlen & Hnew).
      exists new. split; [done|]. split; [lia|].
      intros u Hu. destruct (Hnew u Hu) as (link & Hl & Hrest).
      exists link. split; [by right|done]. }
    destruct (String.eqb_spec (default "" entry) "") as [Hempty|Hlink]; [done|].
    unfold outside_allowed.
    destruct (truthy allow) eqn:Hallow; simpl.
    + destruct (matches_domain env (PStr (default "" entry)) allow) as [[|]|e] eqn:Hm;
        simpl; [|done|done].
      destruct (normalize env (PStr (default "" entry))) as [n|e] eqn:Hn; simpl; [|done].
      intros H. destruct (IH _ H) as (new & -> & Hlen & Hnew).
      exists (n :: new). rewrite <- app_assoc. split; [done|]. split; [simpl; lia|].
      intros u [->|Hu]%elem_of_cons.
      * destruct entry as [link|]; [|done]. exists link. split; [by left|done].
      * destruct (Hnew u Hu) as (link & Hl & Hrest).
        exists link. split; [by right|done].
    + destruct (normalize env (PStr (default "" entry))) as [n|e] eqn:Hn; simpl; [|done].
      intros H. destruct (IH _ H) as (new & -> & Hlen & Hnew).
      exists (n :: new). rewrite <- app_assoc. split; [done|]. split; [simpl; lia|].
      intros u [->|Hu]%elem_of_cons.
      * destruct entry as [link|]; [|done]. exists link. split; [by left|done].
      * destruct (Hnew u Hu) as (link & Hl & Hrest).
        exists link. split; [by right|done].
Qed.

Lemma length_slice_to {A} (l : list A) (n : Z) :
  (0 <= n)%Z -> length (slice_to l n) <= Z.to_nat n.
Proof. intros Hn. rewrite slice_to_nonneg by done. rewrite length_take. lia. Qed.

Lemma rss_feed_run config :
  RSSFeedSource_get_recipe_urls env config tt
  = if truthy (dict_get config "rss_url" PNone) then
      (tt, [EvFeedParse (dict_get config "rss_url" PNone)],
       Ok match feedparser_parse env (dict_get config "rss_url" PNone) with
          | Ok feed =>
              match entry_links env (allow_domains_of config) feed
                      (dict_get config "max_entries" (PInt 20)) with
              | Ok urls => urls
              | Raise _ => []
              end
          | Raise _ => []
          end)
    else (tt, [], Ok []).
Proof.
  unfold RSSFeedSource_get_recipe_urls.
  destruct (truthy (dict_get config "rss_url" PNone)); simpl; [|done].
  unfold try_catch, parse_feed, bind, log, liftR, ret. simpl.
  destruct (feedparser_parse env _) as [feed|e]; simpl; [|done].
  by destruct (entry_links env _ feed _).
Qed.

(** X1. The feed variant never raises and fetches at most one feed: without
    an [rss_url] it returns the empty list and fetches nothing; with one,
    it parses that feed once, and whatever goes wrong there or with one of
    the entries (the parser, [max_entries] that is no number, the domain
    matcher, the normaliser) turns the whole result into the empty list. *)
Theorem rss_feed_degrades (config : dict) :
  (truthy (dict_get config "rss_url" PNone) = false ->
   RSSFeedSource_get_recipe_urls env config tt = (tt, [], Ok []))
  /\ (truthy (dict_get config "rss_url" PNone) = true ->
      events_of (RSSFeedSource_get_recipe_urls env config tt)
      = [EvFeedParse (dict_get config "rss_url" PNone)]
      /\ (is_ok (rbind (feedparser_parse env (dict_get config "rss_url" PNone))
                   (fun feed => entry_links env (allow_domains_of config) feed
                                  (dict_get config "max_entries" (PInt 20)))) = false ->
          value_of (RSSFeedSource_get_recipe_urls env config tt) = Ok []))
  /\ is_ok (value_of (RSSFeedSource_get_recipe_urls env config tt)) = true.
Proof.
  rewrite rss_feed_run.
  destruct (truthy (dict_get config "rss_url" PNone)); simpl.
  - split; [done|]. split; [|done]. intros _. split; [done|].
    destruct (feedparser_parse env _) as [feed|e]; simpl; [|done].
    by destruct (entry_links env _ feed _).
  - by repeat split.
Qed.

(** X2. What the feed variant returns is bounded by [max_entries] when that
    is a non-negative number (20 when the key is missing), and each URL of
    the result is the normalised form of a non-empty link of an entry of
    the parsed feed, one that the domain matcher accepts when domains are
    configured. *)
Theorem rss_feed_bounded (config : dict) (urls : list string) :
  value_of (RSSFeedSource_get_recipe_urls env config tt) = Ok urls ->
  (forall n, dict_get config "max_entries" (PInt 20) = PInt n -> (0 <= n)%Z ->
             length urls <= Z.to_nat n)
  /\ (forall u, u ∈ urls ->
        exists feed link,
          feedparser_parse env (dict_get config "rss_url" PNone) = Ok feed
          /\ Some link ∈ entries feed /\ link <> ""
          /\ normalize env (PStr link) = Ok u
          /\ (truthy (allow_domains_of config) = true ->
              matches_domain env (PStr link) (allow_domains_of config) = Ok true)).
Proof.
  rewrite rss_feed_run.
  destruct (truthy (dict_get config "rss_url" PNone)); simpl;
    [|intros [= <-]; split; [simpl; lia|by intros u ?%elem_of_nil]].
  destruct (feedparser_parse env _) as [feed|e]; simpl;
    [|intros [= <-]; split; [simpl; lia|by intros u ?%elem_of_nil]].
  unfold entry_links.
  destruct (py_slice_to (entries feed) _) as [es|e] eqn:Hs; simpl;
    [|intros [= <-]; split; [simpl; lia|by intros u ?%elem_of_nil]].
  destruct (collect_links env _ es []) as [us|e] eqn:Hc;
    [|intros [= <-]; split; [simpl; lia|by intros u ?%elem_of_nil]].
  intros [= <-]. destruct (collect_links_spec _ _ _ _ Hc) as (new & -> & Hlen & Hnew).
  simpl. split.
  - intros n Hn Hpos. rewrite Hn in Hs. simpl in Hs. injection Hs as <-.
    pose proof (length_slice_to (entries feed) n Hpos). lia.
  - intros u Hu. destruct (Hnew u Hu) as (link & Hl & Hne & Hnorm & Hall).
    exists feed, link. repeat split; try done.
    destruct (dict_get config "max_entries" (PInt 20)); simpl in Hs; try done;
      injection Hs as <-; try done; by eapply elem_of_slice_to.
Qed.

End MoreSources.

Section MoreSourceExamples.

Import Sources Fixtures Fixtures3.

Lemma rss_feed_bounded_witness :
  value_of (RSSFeedSource_get_recipe_urls env_feeds feed_b_config tt) = Ok [u1]
  /\ length [u1] <= Z.to_nat 1.
Proof.
  split; [reflexivity|].
  apply (proj1 (rss_feed_bounded env_feeds feed_b_config [u1] eq_refl) 1%Z);
    [reflexivity|lia].
Defined.

End MoreSourceExamples.

Section SuffixSource.

Import Sources.

Variable env : Env.

Lemma rstrip_snoc c s : rstrip c (String.append s (String c "")) = rstrip c s.
Proof.
  induction s as [|a s IH]; simpl.
  - by rewrite Ascii.eqb_refl.
  - by rewrite IH.
Qed.

Lemma truthy_str s : s <> "" -> truthy (PStr s) = true.
Proof. intros H. simpl. by destruct (String.eqb_spec s ""). Qed.

Lemma append_nonempty s t : s <> "" -> String.append s t <> "".
Proof. by destruct s. Qed.

(** X3. The suffix variant is the feed variant at the feed address
    [index_url.rstrip('/') + rss_suffix]: when [index_url] is a non-empty
    string, the suffix is a string, and the address they give is not empty,
    the two do the same, event by event. (For an empty address they
    differ: the feed variant returns at once, the suffix variant asks the
    parser.) *)
Theorem suffix_source_is_feed_source (config : dict) (s t : string) :
  dict_get config "index_url" PNone = PStr s -> s <> "" ->
  dict_get config "rss_suffix" (PStr "/rss") = PStr t ->
  String.append (rstrip "/" s) t <> "" ->
  RSSSuffixSource_get_recipe_urls env config tt
  = RSSFeedSource_get_recipe_urls env
      (("rss_url", PStr (String.append (rstrip "/" s) t)) :: config) tt.
Proof.
  intros Hi Hs Ht Hne.
  unfold RSSSuffixSource_get_recipe_urls, RSSFeedSource_get_recipe_urls, allow_domains_of.
  rewrite Hi, Ht. cbn [dict_get String.eqb Ascii.eqb Bool.eqb].
  rewrite (truthy_str _ Hs), (truthy_str _ Hne). cbn [negb suffix_url].
  erewrite bind_run by reflexivity. simpl. symmetry. apply triple_eta.
Qed.

(** X4. A trailing slash of [index_url] makes no difference to the suffix
    variant, as long as there is something before it. *)
Theorem suffix_source_trailing_slash (config : dict) (s : string) :
  s <> "" ->
  RSSSuffixSource_get_recipe_urls env
    (("index_url", PStr (String.append s "/")) :: config) tt
  = RSSSuffixSource_get_recipe_urls env (("index_url", PStr s) :: config) tt.
Proof.
  intros Hs.
  unfold RSSSuffixSource_get_recipe_urls, allow_domains_of.
  cbn [dict_get String.eqb Ascii.eqb Bool.eqb].
  rewrite (truthy_str _ Hs), (truthy_str _ (append_nonempty s "/" Hs)).
  cbn [negb suffix_url]. by rewrite rstrip_snoc.
Qed.

End SuffixSource.

Section SuffixSourceExamples.

Import Sources Fixtures Fixtures3.

Lemma suffix_source_witness :
  RSSSuffixSource_get_recipe_urls env_feeds suffix_config tt
  = (tt, [EvFeedParse feed_b], Ok [u1]).
Proof.
  rewrite (suffix_source_is_feed_source env_feeds suffix_config
             "https://example.com/b.xml//" "" eq_refl);
    [reflexivity|done|reflexivity|done].
Defined.

Lemma trailing_slash_witness :
  RSSSuffixSource_get_recipe_urls env_feeds
    [("index_url", PStr "https://example.com/b.xml/"); ("rss_suffix", PStr "")] tt
  = (tt, [EvFeedParse feed_b], Ok [u1]).
Proof.
  refine (eq_trans (suffix_source_trailing_slash env_feeds [("rss_suffix", PStr "")]
                      "https://example.com/b.xml" _) _); [done|reflexivity].
Defined.

End SuffixSourceExamples.

Section StaticList.

Import Sources Entries.

Variable env : Env.

Lemma kept_skip allow url m :
  outside_allowed env allow url = Ok m -> kept env allow url = negb m.
Proof.
  unfold outside_allowed, kept. destruct (truthy allow); simpl.
  - destruct (matches_domain env url allow) as [b|e]; simpl; [|done].
    intros [= <-]. by rewrite negb_involutive.
  - by intros [= <-].
Qed.

Lemma url_list_loop_spec allow items acc urls :
  url_list_loop env allow items acc = Ok urls ->
  exists new,
    urls = acc ++ new
    /\ Forall2 (fun url n => normalize env url = Ok n)
               (List.filter (kept env allow) items) new.
Proof.
  revert acc. induction items as [|url rest IH]; intros acc; simpl.
  - intros [= <-]. exists []. by rewrite app_nil_r.
  - destruct (outside_allowed env allow url) as [skip|e] eqn:Hs; simpl; [|done].
    rewrite (kept_skip _ _ _ Hs). destruct skip; simpl.
    + apply IH.
    + destruct (normalize env url) as [n|e] eqn:Hn; simpl; [|done].
      intros H. destruct (IH _ H) as (new & -> & Hnew).
      exists (n :: new). rewrite <- app_assoc. split; [done|]. by constructor.
Qed.

Lemma url_list_loop_total allow items acc :
  (forall url, url ∈ items ->
     is_ok (normalize env url) = true
     /\ (truthy allow = true -> is_ok (matches_domain env url allow) = true)) ->
  is_ok (url_list_loop env allow items acc) = true.
Proof.
  revert acc. induction items as [|url rest IH]; intros acc Hall; simpl; [done|].
  destruct (Hall url) as [Hn Hm]; [by left|].
  assert (Hrest : forall acc', is_ok (url_list_loop env allow rest acc') = true).
  { intros acc'. apply IH. intros u Hu. apply Hall. by right. }
  unfold outside_allowed. destruct (truthy allow); simpl.
  - destruct (matches_domain env url allow) as [[|]|e]; simpl; [| |by apply Hm].
    + destruct (normalize env url); [apply Hrest|done].
    + apply Hrest.
  - destruct (normalize env url); [apply Hrest|done].
Qed.

(** X5. The static list never touches the network. When it returns, its
    result is, in the order of the configuration, the normalised form of
    each configured URL that is kept: all of them without [allow_domains],
    those that the domain matcher accepts with it. It returns whenever
    [urls] can be iterated and the normaliser (and, with [allow_domains],
    the matcher) returns for every item; the method has no handler of its
    own. *)
Theorem url_list_in_order (config : dict) :
  events_of (URLListSource_get_recipe_urls env config tt) = []
  /\ forall items,
       py_iter (dict_get config "urls" (PList [])) = Ok items ->
       (forall urls,
          value_of (URLListSource_get_recipe_urls env config tt) = Ok urls ->
          Forall2 (fun url n => normalize env url = Ok n)
                  (List.filter (kept env (allow_domains_of config)) items) urls)
       /\ ((forall url, url ∈ items ->
              is_ok (normalize env url) = true
              /\ (truthy (allow_domains_of config) = true ->
                  is_ok (matches_domain env url (allow_domains_of config)) = true)) ->
           is_ok (value_of (URLListSource_get_recipe_urls env config tt)) = true).
Proof.
  unfold URLListSource_get_recipe_urls, bind, liftR. split.
  - destruct (py_iter _); [|done].
    by destruct (url_list_loop env _ _ _).
  - intros items ->. simpl. split.
    + intros urls H. by destruct (url_list_loop_spec _ _ _ _ H) as (new & -> & Hnew).
    + apply url_list_loop_total.
Qed.

End StaticList.

(* ===================================================================== *)
(** * More about discovery                                                *)
(* ===================================================================== *)

Section MoreDiscovery.

Import Sources Main State Entries.

Variable env : Env.

Lemma seen_urls_mark url domain st u :
  u ∈ seen_urls (state_of (mark_url_seen url domain st))
  <-> u ∈ seen_urls st \/ u = url.
Proof.
  unfold mark_url_seen, seen_urls. simpl.
  destruct (bool_decide_reflect (url ∈ map seen_url (seen st))) as [Hin|Hout]; simpl.
  - split; [by left|]. by intros [H| ->].
  - rewrite map_app. simpl. rewrite elem_of_app, list_elem_of_singleton. done.
Qed.

Lemma seen_urls_marked st urls u :
  u ∈ seen_urls (marked env st urls) <-> u ∈ seen_urls st \/ u ∈ urls.
Proof.
  revert st. induction urls as [|url rest IH]; intros st.
  - simpl. split; [by left|]. by intros [H|H%elem_of_nil].
  - change (marked env st (url :: rest))
      with (marked env (state_of (mark_url_seen url (domain_of env url) st)) rest).
    rewrite IH, seen_urls_mark, elem_of_cons. tauto.
Qed.

(** Marking a list of URLs: all of them when every domain is found, and
    those before the first one whose domain is not found otherwise. *)
Lemma mark_seen_all_run urls st :
  domains_ok env urls = true ->
  mark_seen_all env urls st = (marked env st urls, marks env urls, Ok tt).
Proof.
  revert st. induction urls as [|url rest IH]; intros st E; [done|].
  simpl in E. apply andb_true_iff in E as [E1 E2].
  simpl. unfold domain_of. destruct (extract_domain env url) as [d|e] eqn:Hd; [|done].
  erewrite bind_run by reflexivity. cbn [state_of events_of value_of fst snd].
  erewrite bind_run by reflexivity. cbn [state_of events_of value_of fst snd].
  by rewrite (IH _ E2).
Qed.

Lemma mark_seen_all_stops pre bad post e st :
  domains_ok env pre = true -> extract_domain env bad = Raise e ->
  mark_seen_all env (pre ++ bad :: post) st = (marked env st pre, marks env pre, Raise e).
Proof.
  revert st. induction pre as [|url rest IH]; intros st E Hbad.
  - simpl. rewrite Hbad. reflexivity.
  - simpl in E. apply andb_true_iff in E as [E1 E2].
    simpl. unfold domain_of. destruct (extract_domain env url) as [d|e'] eqn:Hd; [|done].
    erewrite bind_run by reflexivity. cbn [state_of events_of value_of fst snd].
    erewrite bind_run by reflexivity. cbn [state_of events_of value_of fst snd].
    by rewrite (IH _ E2 Hbad).
Qed.

Lemma discover_source_dict config all_urls st kind :
  truthy (dict_get config "enabled" (PBool true)) = true ->
  create_source config = Some kind ->
  discover_source env (PDict config) all_urls st
  = try_catch
      (let* urls := lift (get_recipe_urls env kind config) in
       mark_seen_all env urls;;
       ret (all_urls ++ urls))
      (fun _ => ret all_urls) st.
Proof.
  intros He Hk. unfold discover_source. simpl py_get.
  erewrite bind_run by reflexivity. cbn [state_of events_of value_of fst snd].
  rewrite He, Hk. simpl. symmetry. apply triple_eta.
Qed.

(** X6. One source in discovery, when it returns a list. If the domain of
    every URL of the list is found, each URL is marked seen, in order, and
    the list is added to the discovered URLs. If the domain of one of them
    is not found, the source adds nothing to the discovered URLs, so none
    of its URLs is counted or imported in this run, although the URLs
    before that one have been marked seen already. *)
Theorem source_all_or_nothing (config : dict) (kind : SourceKind)
  (all_urls : list string) (st : Store) (evs : list Event) (urls : list string) :
  truthy (dict_get config "enabled" (PBool true)) = true ->
  create_source config = Some kind ->
  get_recipe_urls env kind config tt = (tt, evs, Ok urls) ->
  (domains_ok env urls = true ->
   discover_source env (PDict config) all_urls st
   = (marked env st urls, evs ++ marks env urls, Ok (all_urls ++ urls)))
  /\ (forall pre bad post e,
        urls = pre ++ bad :: post ->
        domains_ok env pre = true -> extract_domain env bad = Raise e ->
        discover_source env (PDict config) all_urls st
        = (marked env st pre, evs ++ marks env pre, Ok all_urls)).
Proof.
  intros He Hk Hrun. rewrite (discover_source_dict _ _ _ _ He Hk). split.
  - intros Hok. erewrite try_catch_run; [reflexivity|].
    erewrite bind_run by (by apply lift_run). cbn [state_of events_of value_of fst snd].
    erewrite bind_run by (by apply mark_seen_all_run).
    simpl. by rewrite app_nil_r.
  - intros pre bad post e -> Hpre Hbad.
    erewrite try_catch_run_raise; [simpl; by rewrite app_nil_r|].
    erewrite bind_run by (by apply lift_run). cbn [state_of events_of value_of fst snd].
    erewrite bind_run_raise by (by apply mark_seen_all_stops). done.
Qed.

Lemma inactive_source sc all_urls st :
  active sc = false -> discover_source env sc all_urls st = (st, [], Ok all_urls).
Proof.
  destruct sc as [| | | | |config]; try done. simpl. intros H.
  unfold discover_source. simpl py_get.
  erewrite bind_run by reflexivity. cbn [state_of events_of value_of fst snd].
  destruct (truthy (dict_get config "enabled" (PBool true))); simpl; [|done].
  simpl in H. by destruct (create_source config).
Qed.

(** X7. Entries that are disabled, and entries whose type is not one of
    the five known ones, have no effect on discovery at all: nothing is
    fetched or marked for them, and the run is the one of the configuration
    without these entries. *)
Theorem inactive_entries_skipped (source_configs : list pyval)
  (all_urls : list string) (st : Store) :
  discover_loop env source_configs all_urls st
  = discover_loop env (List.filter active source_configs) all_urls st.
Proof.
  revert all_urls st.
  induction source_configs as [|sc rest IH]; intros all_urls st; [done|].
  simpl. destruct (active sc) eqn:Ha.
  - simpl. unfold bind. destruct (discover_source env sc all_urls st) as [[st1 ev1] [a|e]];
      [|done]. by rewrite IH.
  - erewrite bind_run by (by apply inactive_source). simpl.
    rewrite <- IH. symmetry. apply triple_eta.
Qed.

End MoreDiscovery.

(* ===================================================================== *)
(** * More about the import client                                        *)
(* ===================================================================== *)

Section MoreClient.

Import Mealie Outcome Search.

Variable env : Env.

Lemma urlopen_unit r left errors method target body n :
  state_of (urlopen env r left errors method target body n tt) = tt.
Proof. by destruct (state_of _). Qed.

(** What one call through the session can end with. *)
Lemma urlopen_outcome r left errors method target body n :
  match value_of (urlopen env r left errors method target body n tt) with
  | Ok response =>
      is_method_retryable r method = true ->
      status_code response ∉ status_forcelist r
  | Raise e => e = RetryError \/ e = Timeout \/ e = ConnectionError
  end.
Proof.
  revert errors n. induction left as [|left IH]; intros errors n; simpl.
  all: rewrite value_bind; simpl.
  all: destruct (server env method target body n) as [code ra js| |].
  all: try (destruct (is_retry r _ method code _) eqn:Hr).
  all: try (rewrite value_bind; simpl; apply IH).
  all: simpl; try tauto.
  all: intros Hm Hin; unfold is_retry in Hr; rewrite Hm in Hr; simpl in Hr.
  all: apply orb_false_iff in Hr as [Hr _]; by apply bool_decide_eq_false in Hr.
Qed.

Lemma import_recipe_classify url :
  import_recipe_from_url env false url tt
  = (tt,
     EvImportCall url
       :: events_of (session_request env "POST" "/api/recipes/create-url" (Some url) tt),
     Ok (classify url
           (value_of (session_request env "POST" "/api/recipes/create-url"
                        (Some url) tt)))).
Proof.
  unfold import_recipe_from_url. rewrite log_bind_run.
  unfold try_catch, bind, raise_for_status, classify, error_status, on_error, liftR, ret.
  destruct (session_request env "POST" "/api/recipes/create-url" (Some url) tt)
    as [[[] evs] [response|e]]; simpl.
  - destruct ((400 <=? status_code response)%Z && (status_code response <? 600)%Z)
      eqn:Herr; simpl.
    + destruct (Z.eqb_spec (status_code response) 400) as [E|_]; simpl;
        [rewrite E; simpl; by rewrite !app_nil_r|].
      destruct (status_code response =? 409)%Z; simpl; [by rewrite !app_nil_r|].
      destruct (status_code response =? 429)%Z; simpl; by rewrite !app_nil_r.
    + destruct (json response) as [[| | | | |d]|e]; simpl; rewrite ?app_nil_r; try done.
      destruct e; simpl; rewrite ?app_nil_r; try done.
      destruct (Z.eqb_spec status 400) as [-> |_]; simpl; [by rewrite !app_nil_r|].
      destruct (status =? 409)%Z; simpl; [by rewrite !app_nil_r|].
      destruct (status =? 429)%Z; simpl; by rewrite !app_nil_r.
  - destruct e; simpl; rewrite ?app_nil_r; try done.
    destruct (Z.eqb_spec status 400) as [-> |_]; simpl; [by rewrite !app_nil_r|].
    destruct (status =? 409)%Z; simpl; [by rewrite !app_nil_r|].
    destruct (status =? 429)%Z; simpl; by rewrite !app_nil_r.
Qed.

Lemma recipe_of_classify url :
  recipe_of env url
  = classify url (value_of (session_request env "POST" "/api/recipes/create-url"
                              (Some url) tt)).
Proof. unfold recipe_of. by rewrite import_recipe_classify. Qed.

Lemma session_raises method target body e :
  value_of (session_request env method target body tt) = Raise e ->
  e = RetryError \/ e = Timeout \/ e = ConnectionError.
Proof.
  intros Hv. unfold session_request in Hv.
  pose proof (urlopen_outcome retry_strategy (total retry_strategy) 0
                method target body 0) as H.
  by rewrite Hv in H.
Qed.

(** X8. A response that the session hands back for a [GET] or a [POST]
    never has one of the statuses 429, 500, 502, 503 and 504: an answer
    with such a status is retried until the retries are used up, and the
    call then ends with an exception instead of a response. So
    [raise_for_status] never raises an [HTTPError] with status 429 for what
    the session returned, and the import client's branch for that status
    is never taken. *)
Theorem retried_status_never_returned (method target : string) (body : option string)
  (response : Response) :
  method = "GET" \/ method = "POST" ->
  value_of (session_request env method target body tt) = Ok response ->
  (status_code response ∉ [429; 500; 502; 503; 504]%Z)
  /\ value_of (raise_for_status response tt) <> Raise (HTTPError 429).
Proof.
  intros Hm Hv. unfold session_request in Hv.
  pose proof (urlopen_outcome retry_strategy (total retry_strategy) 0
                method target body 0) as H.
  rewrite Hv in H.
  assert (Hout : status_code response ∉ [429; 500; 502; 503; 504]%Z).
  { apply H. unfold is_method_retryable. apply bool_decide_eq_true. simpl.
    destruct Hm as [-> | ->]; [by left|right; by left]. }
  split; [done|].
  unfold raise_for_status. destruct (_ && _); [|done].
  simpl. intros [= Hs]. apply Hout. rewrite Hs. by left.
Qed.

(** X9. What the import client returns outside dry-run mode, by what the
    session gives back. An exception of the session gives [None]. An error
    status gives the record of an existing recipe for 409 and [None] for
    every other one. Any other status gives the JSON body if that is an
    object and [None] if it is anything else or cannot be read; the caller
    then counts the import as a success exactly when the object is not
    empty. *)
Theorem import_outcome (url : string) :
  let s := value_of (session_request env "POST" "/api/recipes/create-url"
                       (Some url) tt) in
  (forall e, s = Raise e -> recipe_of env url = PNone)
  /\ (forall response,
        s = Ok response -> error_status (status_code response) = true ->
        recipe_of env url
        = if (status_code response =? 409)%Z then existing_recipe url else PNone)
  /\ (forall response v,
        s = Ok response -> error_status (status_code response) = false ->
        json response = Ok v ->
        recipe_of env url = match v with PDict d => PDict d | _ => PNone end
        /\ succeeded env url = match v with PDict (_ :: _) => true | _ => false end)
  /\ (forall response,
        s = Ok response -> error_status (status_code response) = false ->
        json response = Raise JSONDecodeError ->
        recipe_of env url = PNone).
Proof.
  intros s. unfold succeeded. rewrite recipe_of_classify. fold s.
  split; [|split; [|split]].
  - intros e Hs. rewrite Hs. simpl.
    destruct (session_raises "POST" "/api/recipes/create-url" (Some url) e Hs)
      as [-> |[-> | ->]]; done.
  - intros response Hs Herr. rewrite Hs. simpl. by rewrite Herr.
  - intros response v Hs Herr Hj. rewrite Hs. simpl. rewrite Herr, Hj.
    by destruct v as [| | | | |[|? ?]].
  - intros response Hs Herr Hj. rewrite Hs. simpl. by rewrite Herr, Hj.
Qed.



End MoreClient.

Section MoreClientExamples.

Import Mealie Outcome Fixtures Fixtures2.

Lemma retried_status_witness :
  value_of (session_request plain_env "POST" "/api/recipes/create-url" (Some u1) tt)
  = Ok {| status_code := 200; json := Ok soup |}
  /\ (200%Z ∉ [429; 500; 502; 503; 504]%Z)
  /\ value_of (raise_for_status {| status_code := 200; json := Ok soup |} tt)
     <> Raise (HTTPError 429).
Proof.
  split; [reflexivity|].
  apply (retried_status_never_returned plain_env "POST" "/api/recipes/create-url"
           (Some u1) {| status_code := 200; json := Ok soup |} (or_intror eq_refl)).
  reflexivity.
Defined.

(** A server that answers every [POST] with 503 gets four requests, and
    the call ends with [RetryError], not with a response. *)
Example exhausted_retries_raise :
  value_of (session_request env_503 "POST" "/api/recipes/create-url" (Some u1) tt)
  = Raise RetryError.
Proof. reflexivity. Qed.

(** An answer [200] with an empty object, and an answer [200] whose body
    is a string: both are failures for the caller. *)
Lemma import_outcome_witness :
  succeeded env_empty_object u1 = false
  /\ recipe_of (env_with_post (WStatus 200 None (Ok (PStr "soup")))) u1 = PNone.
Proof.
  split.
  - apply (proj2 (proj1 (proj2 (proj2 (import_outcome env_empty_object u1)))
                    {| status_code := 200; json := Ok (PDict []) |} (PDict [])
                    eq_refl eq_refl eq_refl)).
  - apply (proj1 (proj1 (proj2 (proj2 (import_outcome
                    (env_with_post (WStatus 200 None (Ok (PStr "soup")))) u1)))
                    {| status_code := 200; json := Ok (PStr "soup") |} (PStr "soup")
                    eq_refl eq_refl eq_refl)).
Defined.

End MoreClientExamples.

(* ===================================================================== *)
(** * More about a run                                                    *)
(* ===================================================================== *)

Section MoreRuns.

Import Main State Mealie Outcome Entries.

Variable env : Env.

Lemma count_import_foldl urls a b :
  foldl (count_import env) (a, b) urls
  = (a + length (filter (fun url => succeeded env url = true) urls),
     b + length (filter (fun url => succeeded env url = false) urls)).
Proof.
  revert a b. induction urls as [|url rest IH]; intros a b; simpl.
  - by rewrite !Nat.add_0_r.
  - rewrite !filter_cons. unfold count_import at 2. simpl.
    destruct (succeeded env url) eqn:E.
    + rewrite decide_True, decide_False by done. rewrite IH. simpl. f_equal; lia.
    + rewrite decide_False, decide_True by done. rewrite IH. simpl. f_equal; lia.
Qed.

Lemma length_filter_split urls :
  length (filter (fun url => succeeded env url = true) urls)
  + length (filter (fun url => succeeded env url = false) urls)
  = length urls.
Proof.
  induction urls as [|url rest IH]; [done|].
  rewrite !filter_cons. destruct (succeeded env url) eqn:E.
  - rewrite decide_True, decide_False by done. simpl. lia.
  - rewrite decide_False, decide_True by done. simpl. lia.
Qed.

Lemma final_call_counts st p :
  final_call env st p
  = CompleteSyncRun (next_id st)
      match p with Idle D | Import D _ => length D | _ => 0 end
      (length (filter (fun url => succeeded env url = true) (attempted p)))
      (length (filter (fun url => succeeded env url = false) (attempted p)))
      match p with
      | Offline => Some "Failed to connect to Mealie"
      | Fatal e => Some (str_exn e)
      | _ => None
      end.
Proof. destruct p as [|e|D|D urls]; simpl; try done. by rewrite count_import_foldl. Qed.

(** X12. The counters with which a run is closed add up. The imported
    count is the number of calls of the import client whose result the
    run took for a success, the failed count the number of the others,
    and together they are the number of calls. The run added one
    ImportRecord for each success and one AttemptRecord for each call. *)
Theorem run_counters (self : Manager) (st : Store) :
  exists id d i f r,
    completions (events_of (sync env self st)) = [CompleteSyncRun id d i f r]
    /\ i = length (filter (fun url => succeeded env url = true)
                     (import_calls (events_of (sync env self st))))
    /\ f = length (filter (fun url => succeeded env url = false)
                     (import_calls (events_of (sync env self st))))
    /\ i + f = length (import_calls (events_of (sync env self st)))
    /\ length (imports (state_of (sync env self st))) = length (imports st) + i
    /\ length (attempts (state_of (sync env self st)))
       = length (attempts st) + (i + f).
Proof.
  rewrite sync_completions, sync_import_calls, sync_imports, sync_attempts,
    final_call_counts.
  do 5 eexists. split; [reflexivity|]. split; [done|]. split; [done|].
  split; [apply length_filter_split|].
  unfold new_imports, new_attempts.
  rewrite !length_app, !length_map, length_filter_split. done.
Qed.

(** X13. The records that a run adds. There is one AttemptRecord for each
    call of the import client, in the order of the calls; it says success
    exactly when the client returned something the run took for a success,
    and its message is then absent and ["Import failed"] otherwise. There
    is one ImportRecord for each success, in the same order; its name is
    the [name] of what the client returned, and the source of an import is
    never recorded. *)
Theorem run_records (self : Manager) (st : Store) :
  exists new_i new_a,
    imports (state_of (sync env self st)) = imports st ++ new_i
    /\ attempts (state_of (sync env self st)) = attempts st ++ new_a
    /\ map att_url new_a = import_calls (events_of (sync env self st))
    /\ map imp_url new_i
       = filter (fun url => succeeded env url = true)
                (import_calls (events_of (sync env self st)))
    /\ Forall (fun a =>
                 att_success a = succeeded env (att_url a)
                 /\ att_error a = if att_success a then None else Some "Import failed")
              new_a
    /\ Forall (fun r =>
                 imp_source r = None
                 /\ imp_name r = recipe_name (recipe_of env (imp_url r)))
              new_i.
Proof.
  rewrite sync_imports, sync_attempts, sync_import_calls.
  exists (new_imports env (plan env self st)), (new_attempts env (plan env self st)).
  split; [done|]. split; [done|]. unfold new_imports, new_attempts.
  generalize (attempted (plan env self st)) as urls. intros urls. split; [|split; [|split]].
  - induction urls as [|u rest IH]; [done|]. simpl. rewrite IH. f_equal.
    unfold attempt_record. by destruct (truthy (recipe_of env u)).
  - generalize (filter (fun url => succeeded env url = true) urls) as l.
    induction l as [|u rest IH]; [done|]. simpl. by rewrite IH.
  - apply Forall_forall. intros a (u & -> & _)%elem_of_map.
    unfold attempt_record, succeeded.
    destruct (truthy (recipe_of env u)) eqn:E; simpl; by rewrite E.
  - apply Forall_forall. by intros r (u & -> & _)%elem_of_map.
Qed.

(** X14. A negative cap is not "no limit" and not "nothing": the slice
    [new_urls[:cap]] then leaves out the last [-cap] candidates. In a run
    that is connected and not a dry run, the import client is called for
    all candidates but those, so never for the last one, and for none when
    there are no more than [-cap] of them. *)
Theorem negative_cap (self : Manager) (st : Store) (D : list string) :
  connected env = true ->
  discovered env self = Ok D ->
  dry_run self = false ->
  (max_recipes_per_run self < 0)%Z ->
  import_calls (events_of (sync env self st))
  = take (length (candidates D st) - Z.to_nat (- max_recipes_per_run self))
         (candidates D st)
  /\ (candidates D st <> [] ->
      length (import_calls (events_of (sync env self st))) < length (candidates D st))
  /\ ((Z.of_nat (length (candidates D st)) <= - max_recipes_per_run self)%Z ->
      import_calls (events_of (sync env self st)) = []).
Proof.
  intros Hc HD Hdry Hcap.
  rewrite sync_import_calls, (plan_attempted env self st D Hc HD Hdry).
  unfold slice_to. destruct (Z.leb_spec 0 (max_recipes_per_run self)) as [?|_]; [lia|].
  replace (Z.to_nat (Z.of_nat (length (candidates D st)) + max_recipes_per_run self))
    with (length (candidates D st) - Z.to_nat (- max_recipes_per_run self)) by lia.
  split; [done|]. split.
  - intros Hne. rewrite length_take.
    destruct (candidates D st); [done|]. simpl length. lia.
  - intros Hle.
    replace (length (candidates D st) - Z.to_nat (- max_recipes_per_run self))
      with 0 by lia.
    done.
Qed.

(** X15. When the server is not reached, a run touches nothing but its own
    run record: no feed is parsed and no page crawled, no URL is marked
    seen, the import client is not called, and no ImportRecord or
    AttemptRecord is written. The only traffic is that of the connectivity
    check. *)
Theorem offline_run_touches_nothing (self : Manager) (st : Store) :
  connected env = false ->
  events_of (sync env self st)
  = EvStore (StartSyncRun (next_id st)) :: connection_events env
    ++ [EvStore (CompleteSyncRun (next_id st) 0 0 0 (Some "Failed to connect to Mealie"))]
  /\ fetches (events_of (sync env self st)) = []
  /\ import_calls (events_of (sync env self st)) = []
  /\ seen (state_of (sync env self st)) = seen st
  /\ imports (state_of (sync env self st)) = imports st
  /\ attempts (state_of (sync env self st)) = attempts st.
Proof.
  intros Hc.
  assert (Hp : plan env self st = Offline) by (unfold plan; by rewrite Hc).
  rewrite sync_import_calls, sync_imports, sync_attempts, sync_plan, Hp. simpl.
  rewrite !app_nil_r. repeat split.
  unfold fetches. pose proof (connection_events_get env) as Hg.
  induction Hg as [|e evs He _ IH]; [done|].
  simpl in *. destruct e; simpl in *; try done.
Qed.

End MoreRuns.

Section MoreRunExamples.

Import Main State Fixtures Fixtures2.

Lemma negative_cap_witness :
  import_calls (events_of (sync plain_env negative_cap_manager State.empty))
  = [u1; u2; u3; u4].
Proof.
  refine (eq_trans (proj1 (negative_cap plain_env negative_cap_manager State.empty
                             [u1; u2; u3; u4; u5] eq_refl eq_refl eq_refl _)) _);
    reflexivity.
Defined.

Lemma offline_run_witness :
  events_of (sync env_offline two_manager State.empty)
  = [EvStore (StartSyncRun 1);
     EvHttp "GET" "/api/app/about" None; EvBackoff 0;
     EvHttp "GET" "/api/app/about" None; EvBackoff 4;
     EvHttp "GET" "/api/app/about" None; EvBackoff 8;
     EvHttp "GET" "/api/app/about" None;
     EvStore (CompleteSyncRun 1 0 0 0 (Some "Failed to connect to Mealie"))].
Proof.
  refine (eq_trans (proj1 (offline_run_touches_nothing env_offline two_manager
                             State.empty eq_refl)) _).
  reflexivity.
Defined.

End MoreRunExamples.

Section Aborts.

Import Main State Mealie Outcome Entries.

Variable env : Env.

(** X16. A success that the run does not see. When the server answers an
    import with a status outside 400..599 and a JSON body that is not a
    non-empty object (the empty object, a string, a list, [null]), the run
    records a failed attempt with the message ["Import failed"] and no
    ImportRecord, so that the URL is a candidate again whenever it is
    rediscovered. *)
Theorem unrecorded_success (url : string) (response : Response) (v : pyval)
  (self : Manager) (st : Store) :
  value_of (session_request env "POST" "/api/recipes/create-url" (Some url) tt)
  = Ok response ->
  error_status (status_code response) = false ->
  json response = Ok v ->
  match v with PDict (_ :: _) => False | _ => True end ->
  url ∈ import_calls (events_of (sync env self st)) ->
  {| att_url := url; att_success := false; att_error := Some "Import failed" |}
    ∈ attempts (state_of (sync env self st))
  /\ (url ∉ imported_urls (state_of (sync env self st)))
  /\ forall D, url ∈ D -> url ∈ candidates D (state_of (sync env self st)).
Proof.
  intros Hs Herr Hj Hv Hcall.
  assert (Hfail : succeeded env url = false).
  { unfold succeeded. rewrite recipe_of_classify, Hs. simpl. rewrite Herr, Hj.
    by destruct v as [| | | | |[|? ?]]. }
  assert (Hout : url ∉ imported_urls (state_of (sync env self st))).
  { intros [Hin|[_ Hok]]%sync_imported_urls; [|congruence].
    by apply (sync_skips_imported env self st url Hin). }
  split; [|split; [done|]].
  - rewrite sync_attempts. apply elem_of_app. right.
    unfold new_attempts. apply elem_of_map. exists url.
    split; [|by rewrite <- sync_import_calls].
    unfold attempt_record. fold (succeeded env url). by rewrite Hfail.
  - intros D HD. by apply elem_of_candidates.
Qed.

Lemma contribution_dict config : is_ok (contribution env (PDict config)) = true.
Proof.
  unfold contribution. simpl.
  destruct (negb (truthy _)); [done|].
  destruct (Sources.create_source config) as [kind|]; [|done].
  destruct (value_of _) as [urls|e]; [|done]. by destruct (domains_ok env urls).
Qed.

Lemma contributions_malformed scs sc :
  sc ∈ scs -> (forall c, sc <> PDict c) ->
  contributions env scs = Raise (AttributeError "object has no attribute 'get'").
Proof.
  intros Hin Hsc. induction scs as [|a rest IH]; [by apply elem_of_nil in Hin|].
  simpl. destruct a as [| | | | |config]; try done.
  pose proof (contribution_dict config) as Hok.
  destruct (contribution env (PDict config)) as [urls|e]; [|done]. simpl.
  rewrite IH; [done|]. apply elem_of_cons in Hin as [-> |Hin]; [|done].
  by destruct (Hsc config).
Qed.

(** X17. One entry of [sources] that is not a mapping aborts every run
    that reaches discovery: the loop over the entries has no handler for
    it. The run is closed with zero counts and the message of the
    [AttributeError], and nothing is imported, whatever the other entries
    deliver. *)
Theorem malformed_entry_aborts (self : Manager) (st : Store) (d : dict)
  (scs : list pyval) (sc : pyval) :
  sources_config self = PDict d ->
  py_iter (dict_get d "sources" (PList [])) = Ok scs ->
  sc ∈ scs -> (forall c, sc <> PDict c) ->
  connected env = true ->
  (exists msg,
     completions (events_of (sync env self st))
     = [CompleteSyncRun (next_id st) 0 0 0 (Some (str_exn (AttributeError msg)))])
  /\ import_calls (events_of (sync env self st)) = []
  /\ imports (state_of (sync env self st)) = imports st.
Proof.
  intros Hcfg Hiter Hin Hsc Hc.
  assert (Hp : plan env self st
               = Fatal (AttributeError "object has no attribute 'get'")).
  { unfold plan, discovered. rewrite Hc, Hcfg. simpl. rewrite Hiter. simpl.
    by rewrite (contributions_malformed scs sc Hin Hsc). }
  rewrite sync_completions, sync_import_calls, sync_imports, Hp. simpl.
  rewrite app_nil_r. split; [by eexists|done].
Qed.

End Aborts.

Section AbortExamples.

Import Main State Mealie Fixtures Fixtures2.

Lemma unrecorded_success_witness :
  {| att_url := u1; att_success := false; att_error := Some "Import failed" |}
    ∈ attempts (state_of (sync env_empty_object two_manager State.empty))
  /\ (u1 ∉ imported_urls (state_of (sync env_empty_object two_manager State.empty)))
  /\ forall D, u1 ∈ D ->
               u1 ∈ candidates D (state_of (sync env_empty_object two_manager State.empty)).
Proof.
  apply (unrecorded_success env_empty_object u1
           {| status_code := 200; json := Ok (PDict []) |} (PDict [])
           two_manager State.empty eq_refl eq_refl eq_refl I).
  apply (bool_decide_unpack _). vm_compute. exact I.
Defined.

Lemma malformed_entry_witness :
  (exists msg,
     completions (events_of (sync plain_env broken_manager State.empty))
     = [CompleteSyncRun 1 0 0 0 (Some (str_exn (AttributeError msg)))])
  /\ import_calls (events_of (sync plain_env broken_manager State.empty)) = []
  /\ imports (state_of (sync plain_env broken_manager State.empty)) = [].
Proof.
  apply (malformed_entry_aborts plain_env broken_manager State.empty
           [("sources", PList [url_list_source "a" [u1]; PStr "oops"])]
           [url_list_source "a" [u1]; PStr "oops"] (PStr "oops") eq_refl eq_refl).
  - right. left.
  - done.
  - reflexivity.
Defined.

End AbortExamples.

Section SeenMarks.

Import Sources Main State Entries.

Variable env : Env.

Lemma mark_seen_all_grows urls st u :
  u ∈ seen_urls st -> u ∈ seen_urls (state_of (mark_seen_all env urls st)).
Proof.
  revert st. induction urls as [|url rest IH]; intros st Hu; [done|].
  simpl. destruct (extract_domain env url) as [d|e] eqn:Hd; [|done].
  erewrite bind_run by reflexivity. cbn [state_of events_of value_of fst snd].
  erewrite bind_run by reflexivity. cbn [state_of events_of value_of fst snd].
  apply IH, seen_urls_mark. by left.
Qed.

Lemma discover_source_seen sc all_urls st all' :
  value_of (discover_source env sc all_urls st) = Ok all' ->
  (forall u, u ∈ seen_urls st ->
             u ∈ seen_urls (state_of (discover_source env sc all_urls st)))
  /\ exists urls,
       all' = all_urls ++ urls
       /\ forall u, u ∈ urls ->
            u ∈ seen_urls (state_of (discover_source env sc all_urls st))
            /\ EvStore (MarkUrlSeen u (domain_of env u))
                 ∈ events_of (discover_source env sc all_urls st).
Proof.
  assert (Hnone : forall st', (forall u, u ∈ seen_urls st -> u ∈ seen_urls st') ->
            forall evs : list Event,
            (forall u, u ∈ seen_urls st -> u ∈ seen_urls st')
            /\ exists urls, all_urls = all_urls ++ urls
                 /\ forall u, u ∈ urls ->
                      u ∈ seen_urls st' /\ EvStore (MarkUrlSeen u (domain_of env u)) ∈ evs).
  { intros st' Hst' evs. split; [done|]. exists []. rewrite app_nil_r. split; [done|].
    by intros u ?%elem_of_nil. }
  destruct sc as [| | | | |config]; try done.
  destruct (truthy (dict_get config "enabled" (PBool true))) eqn:He.
  2:{ unfold discover_source. simpl py_get.
      erewrite bind_run by reflexivity. cbn [state_of events_of value_of fst snd].
      rewrite He. simpl. intros [= <-]. by apply Hnone. }
  destruct (create_source config) as [kind|] eqn:Hk.
  2:{ unfold discover_source. simpl py_get.
      erewrite bind_run by reflexivity. cbn [state_of events_of value_of fst snd].
      rewrite He, Hk. simpl. intros [= <-]. by apply Hnone. }
  rewrite (discover_source_dict env _ _ _ _ He Hk).
  destruct (get_recipe_urls env kind config tt) as [[[] evs] [urls|e]] eqn:Hrun.
  2:{ erewrite try_catch_run_raise; cycle 1.
      { erewrite bind_run_raise by (by apply lift_run). reflexivity. }
      simpl. intros [= <-]. by apply Hnone. }
  destruct (domains_ok env urls) eqn:Hok.
  - erewrite try_catch_run; cycle 1.
    { erewrite bind_run by (by apply lift_run).
      cbn [state_of events_of value_of fst snd].
      erewrite bind_run by (by apply mark_seen_all_run). reflexivity. }
    simpl. intros [= <-]. split.
    + intros u Hu. apply seen_urls_marked. by left.
    + exists urls. split; [done|]. intros u Hu. split.
      * apply seen_urls_marked. by right.
      * apply elem_of_app. right. apply elem_of_app. left.
        unfold marks. apply elem_of_map. by exists u.
  - destruct (mark_seen_all_fails env urls st Hok) as [e He'].
    erewrite try_catch_run_raise; cycle 1.
    { erewrite bind_run by (by apply lift_run).
      cbn [state_of events_of value_of fst snd].
      erewrite bind_run_raise; [reflexivity|].
      rewrite (triple_eta (mark_seen_all env urls st)), He'. reflexivity. }
    simpl. intros [= <-]. apply Hnone. intros u Hu. by apply mark_seen_all_grows.
Qed.

Lemma discover_loop_seen scs all_urls st D :
  value_of (discover_loop env scs all_urls st) = Ok D ->
  (forall u, u ∈ seen_urls st ->
             u ∈ seen_urls (state_of (discover_loop env scs all_urls st)))
  /\ exists urls,
       D = all_urls ++ urls
       /\ forall u, u ∈ urls ->
            u ∈ seen_urls (state_of (discover_loop env scs all_urls st))
            /\ EvStore (MarkUrlSeen u (domain_of env u))
                 ∈ events_of (discover_loop env scs all_urls st).
Proof.
  revert all_urls st. induction scs as [|sc rest IH]; intros all_urls st.
  - simpl. intros [= <-]. split; [done|]. exists []. rewrite app_nil_r.
    split; [done|]. by intros u ?%elem_of_nil.
  - cbn [discover_loop]. pose proof (discover_source_seen sc all_urls st) as Hsrc.
    destruct (discover_source env sc all_urls st) as [[st1 ev1] [all1|e]] eqn:E.
    2:{ by erewrite bind_run_raise by exact E. }
    erewrite bind_run by exact E. cbn [state_of events_of value_of fst snd].
    intros HD. destruct (Hsrc all1 eq_refl) as (Hmono1 & urls1 & -> & Hurls1).
    destruct (IH _ _ HD) as (Hmono2 & urls2 & -> & Hurls2).
    simpl in Hmono1, Hurls1. split; [by eauto|].
    exists (urls1 ++ urls2). rewrite app_assoc. split; [done|].
    intros u [Hu|Hu]%elem_of_app.
    + destruct (Hurls1 u Hu) as [Hs Hev]. split; [by apply Hmono2|].
      apply elem_of_app. by left.
    + destruct (Hurls2 u Hu) as [Hs Hev]. split; [done|].
      apply elem_of_app. by right.
Qed.

Lemma run_of_plan_seen self st D urls :
  seen (state_of (run_of_plan env self st (Run.Import D urls)))
  = seen (state_of (discover_urls env self (opened st))).
Proof.
  simpl.
  by destruct (after_import_loop env (state_of (discover_urls env self (opened st))) urls)
    as (-> & _).
Qed.

(** X18. Every URL that discovery returns has been passed to
    [mark_url_seen] together with its domain, and has a SeenRecord
    afterwards; discovery never takes a SeenRecord away. Hence every URL
    that a run hands to the import client has a SeenRecord at the end of
    the run. *)
Theorem discovered_are_seen (self : Manager) (st : Store) :
  (forall D u,
     value_of (discover_urls env self st) = Ok D -> u ∈ D ->
     u ∈ seen_urls (state_of (discover_urls env self st))
     /\ EvStore (MarkUrlSeen u (domain_of env u))
          ∈ events_of (discover_urls env self st))
  /\ (forall u, u ∈ seen_urls st ->
                u ∈ seen_urls (state_of (discover_urls env self st)))
  /\ (forall u, u ∈ import_calls (events_of (sync env self st)) ->
                u ∈ seen_urls (state_of (sync env self st))).
Proof.
  assert (Hloop : forall st0,
            (forall D, value_of (discover_urls env self st0) = Ok D ->
               forall u, u ∈ D ->
                 u ∈ seen_urls (state_of (discover_urls env self st0))
                 /\ EvStore (MarkUrlSeen u (domain_of env u))
                      ∈ events_of (discover_urls env self st0))
            /\ (forall u, u ∈ seen_urls st0 ->
                          u ∈ seen_urls (state_of (discover_urls env self st0)))).
  { intros st0. unfold discover_urls.
    destruct (py_get (sources_config self) "sources" (PList [])) as [sources|e];
      [|split; [done|by intros u Hu]].
    erewrite bind_run by reflexivity. cbn [state_of events_of value_of fst snd].
    destruct (py_iter sources) as [scs|e]; [|split; [done|by intros u Hu]].
    erewrite bind_run by reflexivity. cbn [state_of events_of value_of fst snd].
    pose proof (discover_loop_seen scs [] st0) as H.
    destruct (value_of (discover_loop env scs [] st0)) as [D'|e] eqn:HD.
    - destruct (H D' eq_refl) as (Hmono & urls & -> & Hurls). split; [|done].
      intros D [= <-] u Hu. by apply Hurls.
    - split; [done|]. intros u Hu.
      clear H. revert st0 HD Hu. generalize (@nil string) as all_urls.
      induction scs as [|sc rest IH]; intros all_urls st0 HD Hu; [done|].
      cbn [discover_loop] in *.
      pose proof (discover_source_seen sc all_urls st0) as Hsrc.
      destruct (discover_source env sc all_urls st0) as [[st1 ev1] [all1|e1]] eqn:E.
      + erewrite bind_run by exact E. cbn [state_of events_of value_of fst snd].
        erewrite bind_run in HD by exact E.
        cbn [state_of events_of value_of fst snd] in HD.
        apply (IH all1 st1 HD). by apply (proj1 (Hsrc all1 eq_refl)).
      + erewrite bind_run_raise by exact E. simpl.
        destruct sc as [| | | | |config];
          try (by (simpl in E; injection E as <- _ _)).
        clear Hsrc HD IH. revert E.
        unfold discover_source. simpl py_get.
        erewrite bind_run by reflexivity. cbn [state_of events_of value_of fst snd].
        destruct (negb (truthy _)); [done|].
        destruct (create_source config) as [kind|]; [|done].
        unfold try_catch.
        destruct (bind _ _ st0) as [[st2 ev2] [a|e2]]; done. }
  split; [intros D u HD Hu; by apply (proj1 (Hloop st) D)|].
  split; [apply Hloop|].
  intros u Hu. rewrite sync_import_calls in Hu.
  pose proof (plan_candidates env self st u Hu) as (D & HD & Hc).
  apply elem_of_candidates in Hc as [HuD _].
  rewrite sync_plan. destruct (plan env self st) as [|e|D'|D' urls];
    try (by apply elem_of_nil in Hu).
  unfold seen_urls. rewrite run_of_plan_seen.
  apply (proj1 (Hloop (opened st)) D); [|done].
  by rewrite discover_urls_value.
Qed.

End SeenMarks.

(* ===================================================================== *)
(** * The configuration loader                                            *)
(* ===================================================================== *)

Section LoaderFacts.

Import Main State Loader.

(** X19. Which document the loader returns. [sources.yaml] decides when it
    exists: [recipe_sources.yaml] is read only when it does not, so that an
    unreadable or rejected [sources.yaml] stops the process although the
    other file may be fine. What is returned was read from the file that
    decided, is not empty, and has ["sources"] in it. *)
Theorem loader_precedence (files : string -> option (result pyval)) :
  (forall loaded other,
     files "sources.yaml" = Some loaded -> check_config loaded = None ->
     files "recipe_sources.yaml" = Some (Ok other) ->
     load_sources_config files = None)
  /\ (forall config,
        load_sources_config files = Some config
        <-> truthy config = true
            /\ py_contains "sources" config = Ok true
            /\ (files "sources.yaml" = Some (Ok config)
                \/ (files "sources.yaml" = None
                    /\ files "recipe_sources.yaml" = Some (Ok config)))).
Proof.
  assert (Hcheck : forall loaded config,
            check_config loaded = Some config ->
            loaded = Ok config /\ truthy config = true
            /\ py_contains "sources" config = Ok true).
  { intros [c|e] config; simpl; [|done].
    destruct (truthy c) eqn:Ht; simpl; [|done].
    destruct (py_contains "sources" c) as [[|]|e] eqn:Hc; try done.
    by intros [= <-]. }
  unfold load_sources_config. split.
  - by intros loaded other -> -> _.
  - intros config. split.
    + destruct (files "sources.yaml") as [loaded|].
      * intros (-> & Ht & Hc)%Hcheck. by eauto.
      * destruct (files "recipe_sources.yaml") as [loaded|]; [|done].
        intros (-> & Ht & Hc)%Hcheck. by eauto.
    + intros (Ht & Hc & [-> |[-> ->]]); unfold check_config; by rewrite Ht, Hc.
Qed.

(** X20. The loader lets documents through on which no run gets past
    discovery. Its test is ['sources' in config], which a list with the
    item ["sources"] and a string that contains the word pass as well as a
    mapping does, and which does not look at the value of the key. With a
    document that is no mapping, and with a mapping whose [sources] key is
    left empty, every connected run is closed with zero counts and the
    message of the exception, and imports nothing. *)
Theorem accepted_document_aborts (config : pyval) (env : Env) (self : Manager)
  (st : Store) :
  truthy config = true ->
  py_contains "sources" config = Ok true ->
  sources_config self = config ->
  connected env = true ->
  (forall files,
     files "sources.yaml" = Some (Ok config) -> load_sources_config files = Some config)
  /\ ((forall d, config <> PDict d) ->
      (exists msg,
         completions (events_of (sync env self st))
         = [CompleteSyncRun (next_id st) 0 0 0 (Some (str_exn (AttributeError msg)))])
      /\ import_calls (events_of (sync env self st)) = [])
  /\ (forall d, config = PDict d -> dict_get d "sources" (PList []) = PNone ->
      completions (events_of (sync env self st))
      = [CompleteSyncRun (next_id st) 0 0 0 (Some "'NoneType' object is not iterable")]
      /\ import_calls (events_of (sync env self st)) = []).
Proof.
  intros Ht Hin Hcfg Hc. split.
  { intros files Hf. unfold load_sources_config, check_config. by rewrite Hf, Ht, Hin. }
  rewrite sync_completions, sync_import_calls. split.
  - intros Hnd.
    assert (Hp : plan env self st
                 = Fatal (AttributeError "object has no attribute 'get'")).
    { unfold plan, discovered. rewrite Hc, Hcfg. simpl.
      destruct config as [| | | | |d]; try done. by destruct (Hnd d). }
    rewrite Hp. split; [by eexists|done].
  - intros d -> Hs.
    assert (Hp : plan env self st
                 = Fatal (TypeError "'NoneType' object is not iterable")).
    { unfold plan, discovered. rewrite Hc, Hcfg. simpl. by rewrite Hs. }
    by rewrite Hp.
Qed.

End LoaderFacts.

Section LoaderExamples.

Import Main State Loader Fixtures Fixtures2.

Lemma loader_precedence_witness :
  load_sources_config
    (fun name =>
       if String.eqb name "sources.yaml" then Some (Ok (PDict []))
       else Some (Ok (PDict [("sources", PList [])])))
  = None.
Proof.
  apply (proj1 (loader_precedence _) (Ok (PDict [])) (PDict [("sources", PList [])]));
    reflexivity.
Defined.

Lemma accepted_document_witness :
  load_sources_config list_document = Some (PList [PStr "sources"])
  /\ exists msg,
       completions
         (events_of (sync plain_env
                       {| sources_config := PList [PStr "sources"];
                          max_recipes_per_run := 10; dry_run := false |}
                       State.empty))
       = [CompleteSyncRun 1 0 0 0 (Some (str_exn (AttributeError msg)))].
Proof.
  destruct (accepted_document_aborts (PList [PStr "sources"]) plain_env
              {| sources_config := PList [PStr "sources"];
                 max_recipes_per_run := 10; dry_run := false |}
              State.empty eq_refl eq_refl eq_refl eq_refl) as (Hload & Hlist & _).
  split; [by apply Hload|]. by apply Hlist.
Defined.

End LoaderExamples.

(* ===================================================================== *)
(** * From one run to the next                                            *)
(* ===================================================================== *)

Section Backlog.

Import Main State.

Variable env : Env.

Lemma filter_all {A} (P : A -> Prop) `{forall a, Decision (P a)} (l : list A) :
  (forall a, a ∈ l -> P a) -> filter P l = l.
Proof.
  induction l as [|a l IH]; intros Hall; [done|].
  rewrite filter_cons_True by (apply Hall; by left).
  rewrite IH; [done|]. intros b Hb. apply Hall. by right.
Qed.

Lemma filter_none {A} (P : A -> Prop) `{forall a, Decision (P a)} (l : list A) :
  (forall a, a ∈ l -> ~ P a) -> filter P l = [].
Proof.
  induction l as [|a l IH]; intros Hall; [done|].
  rewrite filter_cons_False by (apply Hall; by left).
  apply IH. intros b Hb. apply Hall. by right.
Qed.

Lemma candidates_after self st D' :
  candidates D' (state_of (sync env self st))
  = filter (fun u => u ∉ imported_urls (state_of (sync env self st))) (candidates D' st).
Proof.
  unfold candidates, new_urls_of. symmetry. apply list_filter_filter_l.
  intros u Hout Hin. apply Hout. by apply sync_keeps_imports.
Qed.

(** X21. How the candidate list moves from one run to the next. A run
    takes from the candidates exactly the URLs that it handed to the import
    client with success. So when the imports of the first [cap] candidates
    all succeed, the next run over the same discovered URLs starts where
    this one stopped. When they all fail, the candidate list stays as it
    is, and the next run in the same world calls the import client for the
    same URLs again: the candidates behind them are not reached. *)
Theorem backlog (self : Manager) (st : Store) (D : list string) :
  connected env = true ->
  discovered env self = Ok D ->
  dry_run self = false ->
  (0 <= max_recipes_per_run self)%Z ->
  (forall D' u,
     u ∈ candidates D' (state_of (sync env self st))
     <-> u ∈ candidates D' st
         /\ ~ (u ∈ take (Z.to_nat (max_recipes_per_run self)) (candidates D st)
               /\ succeeded env u = true))
  /\ ((forall u, u ∈ take (Z.to_nat (max_recipes_per_run self)) (candidates D st) ->
                 succeeded env u = true) ->
      candidates D (state_of (sync env self st))
      = drop (Z.to_nat (max_recipes_per_run self)) (candidates D st))
  /\ ((forall u, u ∈ take (Z.to_nat (max_recipes_per_run self)) (candidates D st) ->
                 succeeded env u = false) ->
      candidates D (state_of (sync env self st)) = candidates D st
      /\ import_calls (events_of (sync env self (state_of (sync env self st))))
         = import_calls (events_of (sync env self st))).
Proof.
  intros Hc HD Hdry Hcap.
  assert (Hcalls : forall st0,
            import_calls (events_of (sync env self st0))
            = take (Z.to_nat (max_recipes_per_run self)) (candidates D st0)).
  { intros st0.
    by rewrite sync_import_calls, (plan_attempted env self st0 D Hc HD Hdry),
      slice_to_nonneg. }
  assert (Hin : forall u,
            u ∈ imported_urls (state_of (sync env self st))
            <-> u ∈ imported_urls st
                \/ (u ∈ take (Z.to_nat (max_recipes_per_run self)) (candidates D st)
                    /\ succeeded env u = true)).
  { intros u. by rewrite sync_imported_urls, Hcalls. }
  split; [|split].
  - intros D' u. rewrite !elem_of_candidates, Hin. tauto.
  - intros Hall. rewrite candidates_after.
    rewrite <- (take_drop (Z.to_nat (max_recipes_per_run self)) (candidates D st)) at 1.
    rewrite filter_app, filter_none, filter_all; [done| |].
    + intros u Hu Hu'. apply Hin in Hu' as [Hu'|[Hu' _]].
      * apply drop_elem_of, elem_of_candidates in Hu as [_ Hu]. by apply Hu.
      * by apply (take_drop_disjoint _ _ u (NoDup_candidates D st) Hu).
    + intros u Hu Hout. apply Hout, Hin. right. split; [done|by apply Hall].
  - intros Hall.
    assert (Hsame : candidates D (state_of (sync env self st)) = candidates D st).
    { rewrite candidates_after. apply filter_all.
      intros u Hu [Hu'|[Hu' Hok]]%Hin.
      - apply elem_of_candidates in Hu as [_ Hu]. by apply Hu.
      - rewrite (Hall u Hu') in Hok. done. }
    split; [done|]. by rewrite !Hcalls, Hsame.
Qed.

End Backlog.

Section BacklogExamples.

Import Main State Fixtures.

Lemma backlog_witness :
  candidates [u1; u2; u3; u4; u5] (state_of (sync plain_env five_manager State.empty))
  = [u3; u4; u5]
  /\ import_calls
       (events_of (sync env_503 five_manager
                     (state_of (sync env_503 five_manager State.empty))))
     = import_calls (events_of (sync env_503 five_manager State.empty)).
Proof.
  split.
  - refine (eq_trans (proj1 (proj2 (backlog plain_env five_manager State.empty
                       [u1; u2; u3; u4; u5] eq_refl eq_refl eq_refl _)) _) _).
    + done.
    + intros u Hu. vm_compute in Hu.
      apply elem_of_cons in Hu as [-> |Hu]; [reflexivity|].
      apply elem_of_cons in Hu as [-> |Hu]; [reflexivity|].
      by apply elem_of_nil in Hu.
    + reflexivity.
  - refine (proj2 (proj2 (proj2 (backlog env_503 five_manager State.empty
                       [u1; u2; u3; u4; u5] eq_refl eq_refl eq_refl _)) _)).
    + done.
    + intros u Hu. vm_compute in Hu.
      apply elem_of_cons in Hu as [-> |Hu]; [reflexivity|].
      apply elem_of_cons in Hu as [-> |Hu]; [reflexivity|].
      by apply elem_of_nil in Hu.
Defined.

End BacklogExamples.

(* ===================================================================== *)
(** * Discovery on small configurations                                   *)
(* ===================================================================== *)

Section MoreDiscoveryExamples.

Import Sources Main State Entries Fixtures Fixtures2 Fixtures3.

(** The domain of the second of three URLs is not found: the first one is
    marked seen, and none of the three is discovered. *)
Lemma source_all_or_nothing_witness :
  discover_source env_no_domain (url_list_source "list" [u1; u2; u3]) [] State.empty
  = ({| seen := [ {| seen_url := u1; seen_domain := "example.com" |} ];
        imports := []; attempts := []; runs := [] |},
     [EvStore (MarkUrlSeen u1 "example.com")], Ok []).
Proof.
  refine (eq_trans
            (proj2 (source_all_or_nothing env_no_domain
                      [("name", PStr "list"); ("type", PStr "url_list");
                       ("urls", PList [PStr u1; PStr u2; PStr u3])]
                      URLListSource [] State.empty [] [u1; u2; u3]
                      eq_refl eq_refl eq_refl)
               [u1] u2 [u3] (OtherError "no domain") eq_refl eq_refl eq_refl) _).
  reflexivity.
Defined.

Lemma inactive_entries_witness :
  discover_loop plain_env mixed_sources [] State.empty
  = discover_loop plain_env [url_list_source "list" [u1; u2]] [] State.empty.
Proof. exact (inactive_entries_skipped plain_env mixed_sources [] State.empty). Defined.

Lemma url_list_witness :
  is_ok (value_of (URLListSource_get_recipe_urls plain_env
                     [("urls", PList [PStr u1; PStr u2])] tt)) = true.
Proof.
  apply (proj2 (proj2 (url_list_in_order plain_env [("urls", PList [PStr u1; PStr u2])])
                  [PStr u1; PStr u2] eq_refl)).
  intros url Hurl. split; [|done].
  apply elem_of_cons in Hurl as [-> |Hurl]; [reflexivity|].
  apply elem_of_cons in Hurl as [-> |Hurl]; [reflexivity|].
  by apply elem_of_nil in Hurl.
Defined.

End MoreDiscoveryExamples.

(* ===================================================================== *)
(** * Where exceptions of the sources end                                 *)
(* ===================================================================== *)

Section Containment.

Import Sources Main State Entries.

Variable env : Env.

Lemma returns_is_ok {A} (r : result A) : returns r -> is_ok r = true.
Proof. by destruct r. Qed.

(** X26. Where the sources raise. The feed variant and the crawl variant
    never do. The suffix variant raises exactly when [index_url] is set
    and the feed address cannot be built from it, because it or the suffix
    is no string. The feed-or-crawl variant raises exactly when
    [rss_url_candidates] cannot be iterated. The static list raises
    exactly when [urls] cannot be iterated or the matcher or the normaliser
    raises for one of the URLs that the loop comes to. *)
Theorem where_sources_raise (config : dict) :
  is_ok (value_of (get_recipe_urls env RSSFeedSource config tt)) = true
  /\ is_ok (value_of (get_recipe_urls env CrawlIndexSource config tt)) = true
  /\ is_ok (value_of (get_recipe_urls env RSSSuffixSource config tt))
     = negb (truthy (dict_get config "index_url" PNone))
       || is_ok (suffix_url (dict_get config "index_url" PNone)
                            (dict_get config "rss_suffix" (PStr "/rss")))
  /\ is_ok (value_of (get_recipe_urls env RSSOrCrawlSource config tt))
     = is_ok (py_iter (dict_get config "rss_url_candidates" (PList [])))
  /\ is_ok (value_of (get_recipe_urls env URLListSource config tt))
     = is_ok (let? items := py_iter (dict_get config "urls" (PList [])) in
              url_list_loop env (allow_domains_of config) items []).
Proof.
  split; [apply returns_is_ok, (rss_feed_never_raises env config tt)|].
  split; [apply returns_is_ok, (crawl_index_never_raises env config tt)|].
  split; [|split].
  - simpl. unfold RSSSuffixSource_get_recipe_urls.
    destruct (truthy (dict_get config "index_url" PNone)); simpl; [|done].
    rewrite value_bind. simpl.
    destruct (suffix_url _ _) as [rss_url|e]; simpl; [|done].
    apply returns_is_ok, (guarded_feed_sat env rss_url _ _ tt).
  - simpl. unfold RSSOrCrawlSource_get_recipe_urls.
    rewrite value_bind. simpl.
    destruct (py_iter _) as [candidates|e]; simpl; [|done].
    rewrite value_bind.
    pose proof (try_candidates_sat env (allow_domains_of config)
                  (dict_get config "max_entries" (PInt 20)) candidates tt) as (_ & _ & Hv).
    destruct (value_of (try_candidates env _ _ candidates tt)) as [[urls|]|e]; try done.
    apply returns_is_ok, (fallback_sat env config).
  - simpl. unfold URLListSource_get_recipe_urls.
    rewrite value_bind. simpl.
    by destruct (py_iter _) as [items|e].
Qed.

Lemma contributions_dicts scs :
  Forall (fun sc => exists c, sc = PDict c) scs -> is_ok (contributions env scs) = true.
Proof.
  induction 1 as [|sc rest [c ->] _ IH]; [done|].
  simpl. pose proof (contribution_dict env c) as Hc.
  destruct (contribution env (PDict c)); [|done]. simpl.
  by destruct (contributions env rest).
Qed.

(** X27. What the sources do never aborts a run. When the configuration
    is a mapping whose [sources] can be iterated and are mappings
    themselves, discovery returns, whatever the feeds, the crawler, the
    matcher, the normaliser and the domain extraction do: a source that
    raises adds nothing and the next one is read. A connected run is then
    closed without a failure reason. *)
Theorem source_failures_contained (self : Manager) (d : dict) (scs : list pyval) :
  sources_config self = PDict d ->
  py_iter (dict_get d "sources" (PList [])) = Ok scs ->
  Forall (fun sc => exists c, sc = PDict c) scs ->
  exists D,
    (forall st, value_of (discover_urls env self st) = Ok D)
    /\ (connected env = true ->
        forall st, exists i f,
          completions (events_of (sync env self st))
          = [CompleteSyncRun (next_id st) (length D) i f None]).
Proof.
  intros Hcfg Hiter Hall.
  assert (HD : exists D, discovered env self = Ok D).
  { unfold discovered. rewrite Hcfg. simpl. rewrite Hiter. simpl.
    pose proof (contributions_dicts scs Hall) as H.
    destruct (contributions env scs) as [D|e]; [by eauto|done]. }
  destruct HD as [D HD]. exists D. split.
  - intros st. by rewrite discover_urls_value.
  - intros Hc st. rewrite sync_completions. unfold plan. rewrite Hc, HD. simpl.
    destruct (negb (nonempty (candidates D st))); [by exists 0, 0|].
    destruct (dry_run self); [by exists 0, 0|].
    simpl. by eauto.
Qed.

End Containment.

Section ContainmentExamples.

Import Sources Main State Fixtures.

(** A static list whose [urls] are left empty raises; the run goes on with
    the next source. *)
Lemma source_failures_witness :
  exists D,
    (forall st,
       value_of (discover_urls plain_env
                   (manager_of [PDict empty_urls_config; url_list_source "list" [u1]]
                      10 false) st)
       = Ok D)
    /\ (connected plain_env = true ->
        forall st, exists i f,
          completions
            (events_of (sync plain_env
                          (manager_of [PDict empty_urls_config; url_list_source "list" [u1]]
                             10 false) st))
          = [CompleteSyncRun (next_id st) (length D) i f None]).
Proof.
  apply (source_failures_contained plain_env
           (manager_of [PDict empty_urls_config; url_list_source "list" [u1]] 10 false)
           [("sources", PList [PDict empty_urls_config; url_list_source "list" [u1]])]
           [PDict empty_urls_config; url_list_source "list" [u1]]
           eq_refl eq_refl).
  repeat constructor; eexists; reflexivity.
Defined.

End ContainmentExamples.

(* ===================================================================== *)
(** * The watcher of the document indexer                                 *)
(* ===================================================================== *)

Section IndexerFacts.

Import Indexer.

Lemma checks_of_stat steps : checks_of (StatFile :: steps) = S (checks_of steps).
Proof. reflexivity. Qed.

Lemma checks_of_sleep n steps : checks_of (Sleep n :: steps) = checks_of steps.
Proof. reflexivity. Qed.

Lemma wait_loop_returns settle max_wait stat fuel checks last_size stable_count wait_time :
  (0 < settle)%Z ->
  Z.to_nat (max_wait - wait_time) <= fuel ->
  exists steps b,
    wait_loop settle max_wait stat fuel checks last_size stable_count wait_time
    = Some (steps, Returned b)
    /\ (Z.of_nat (checks_of steps) * settle < Z.max 0 (max_wait - wait_time) + settle)%Z
    /\ (slept steps <= Z.of_nat (checks_of steps) * settle)%Z
    /\ (b = false -> max_wait <= wait_time + slept steps)%Z.
Proof.
  intros Hs. revert checks last_size stable_count wait_time.
  induction fuel as [|fuel IH]; intros checks last_size stable_count wait_time Hf.
  - simpl. destruct (Z.ltb_spec wait_time max_wait) as [Hlt|Hge]; [lia|]. simpl.
    exists [], false. simpl. split; [done|]. unfold checks_of. simpl. lia.
  - cbn [wait_loop]. destruct (Z.ltb_spec wait_time max_wait) as [Hlt|Hge]; simpl negb; cbv iota.
    2:{ exists [], false. split; [done|]. unfold checks_of. simpl. lia. }
    assert (Hnext : forall last sc,
              exists steps b,
                step_then StatFile
                  (sleep_then settle
                     (wait_loop settle max_wait stat fuel (S checks) last sc
                        (wait_time + settle)))
                = Some (steps, Returned b)
                /\ (Z.of_nat (checks_of steps) * settle
                    < Z.max 0 (max_wait - wait_time) + settle)%Z
                /\ (slept steps <= Z.of_nat (checks_of steps) * settle)%Z
                /\ (b = false -> max_wait <= wait_time + slept steps)%Z).
    { intros last sc.
      destruct (IH (S checks) last sc (wait_time + settle)%Z) as (steps & b & -> & H1 & H2 & H3);
        [lia|].
      unfold sleep_then. destruct (Z.ltb_spec settle 0) as [?|_]; [lia|]. simpl.
      exists (StatFile :: Sleep settle :: steps), b. split; [done|].
      rewrite checks_of_stat, checks_of_sleep. simpl slept.
      rewrite Nat2Z.inj_succ, Z.mul_succ_l.
      assert (Z.of_nat (checks_of steps) = 0 \/ settle <= Z.of_nat (checks_of steps) * settle)%Z
        as Hk by nia.
      split; [lia|]. split; [lia|]. intros Hb. specialize (H3 Hb). lia. }
    destruct (stat checks) as [current_size|]; [|apply Hnext].
    destruct (current_size =? last_size)%Z; [|apply Hnext].
    destruct (2 <=? stable_count + 1)%Z; [|apply Hnext].
    exists [StatFile], true. simpl. split; [done|]. unfold checks_of. simpl.
    split; [lia|]. split; [lia|done].
Qed.


Lemma wait_loop_too_short settle max_wait stat fuel checks last_size stable_count
  wait_time steps b :
  (0 < settle)%Z ->
  (forall n, stat n <> Some (-1)%Z) ->
  (0 <= stable_count <= 1)%Z ->
  (last_size = (-1)%Z /\ stable_count = 0%Z /\ max_wait <= wait_time + 2 * settle
   \/ max_wait <= wait_time + (1 - stable_count) * settle)%Z ->
  wait_loop settle max_wait stat fuel checks last_size stable_count wait_time
  = Some (steps, Returned b) ->
  b = false.
Proof.
  intros Hs Hstat. revert checks last_size stable_count wait_time steps.
  induction fuel as [|fuel IH]; intros checks last_size stable_count wait_time steps Hsc Hinv;
    cbn [wait_loop].
  - destruct (Z.ltb_spec wait_time max_wait) as [Hlt|Hge]; simpl; [done|]. by intros [= <- <-].
  - destruct (Z.ltb_spec wait_time max_wait) as [Hlt|Hge]; simpl negb; cbv iota;
      [|by intros [= <- <-]].
    assert (Hnext : forall last sc st,
              (0 <= sc <= 1)%Z ->
              (last = (-1)%Z /\ sc = 0%Z /\ max_wait <= wait_time + settle + 2 * settle
               \/ max_wait <= wait_time + settle + (1 - sc) * settle)%Z ->
              step_then StatFile
                (sleep_then settle
                   (wait_loop settle max_wait stat fuel (S checks) last sc
                      (wait_time + settle)))
              = Some (st, Returned b) -> b = false).
    { intros last sc st Hsc' Hinv'. unfold sleep_then.
      destruct (Z.ltb_spec settle 0) as [?|_]; [lia|].
      destruct (wait_loop settle max_wait stat fuel (S checks) last sc (wait_time + settle))
        as [[st' r]|] eqn:E; simpl; [|done].
      intros [= _ ->]. by eapply IH. }
    destruct (stat checks) as [current_size|] eqn:Hst.
    + destruct (Z.eqb_spec current_size last_size) as [-> |Hne].
      * destruct (Z.leb_spec 2 (stable_count + 1)) as [Hge|Hlt2].
        { assert (stable_count = 1%Z) as -> by lia.
          destruct Hinv as [(_ & ? & _)|?]; lia. }
        intros H. eapply (Hnext last_size (stable_count + 1)%Z); [lia| |exact H].
        right. destruct Hinv as [(-> & _ & _)|?]; [|lia].
        by destruct (Hstat checks).
      * intros H. eapply (Hnext current_size 0%Z); [lia| |exact H].
        right. destruct Hinv as [(_ & -> & ?)|?]; [lia|]. nia.
    + intros H. eapply (Hnext last_size stable_count); [lia| |exact H].
      destruct Hinv as [(? & ? & ?)|?]; [left; lia|right; nia].
Qed.

(** X23. When the wait says that the file has settled. Three checks in a
    row that give the same size make it return [True], after two sleeps,
    provided that two settle times are less than [max_wait]. When two
    settle times are not less than [max_wait], the third check is never
    made and the wait never returns [True], whatever the file does. *)
Theorem wait_settles (settle max_wait : Z) (stat : nat -> option Z) (fuel : nat) :
  (forall n, stat n <> Some (-1)%Z) ->
  (forall size,
     (0 <= settle)%Z -> (2 * settle < max_wait)%Z -> 3 <= fuel ->
     stat 0 = Some size -> stat 1 = Some size -> stat 2 = Some size ->
     wait_for_file_stable settle max_wait stat fuel
     = Some ([StatFile; Sleep settle; StatFile; Sleep settle; StatFile], Returned true))
  /\ (forall steps b,
        (0 < settle)%Z -> (max_wait <= 2 * settle)%Z ->
        wait_for_file_stable settle max_wait stat fuel = Some (steps, Returned b) ->
        b = false).
Proof.
  intros Hstat. split.
  - intros size Hs Hmw Hf H0 H1 H2.
    destruct fuel as [|[|[|fuel]]]; try lia.
    unfold wait_for_file_stable. cbn [wait_loop]. rewrite H0, H1, H2.
    assert (size <> (-1)%Z) as Hne. { intros ->. by destruct (Hstat 0). }
    unfold sleep_then.
    destruct (Z.ltb_spec settle 0) as [?|_]; [lia|].
    destruct (Z.ltb_spec 0 max_wait) as [_|?]; [|lia].
    destruct (Z.eqb_spec size (-1)) as [?|_]; [done|].
    rewrite Z.eqb_refl.
    destruct (Z.ltb_spec (0 + settle) max_wait) as [_|?]; [|lia].
    destruct (Z.ltb_spec (0 + settle + settle) max_wait) as [_|?]; [|lia].
    reflexivity.
  - intros steps b Hs Hmw H.
    eapply (wait_loop_too_short settle max_wait stat fuel 0 (-1) 0 0 steps b Hs Hstat);
      [lia| |exact H].
    left. lia.
Qed.

Lemma wait_loop_spins max_wait stat fuel checks last_size stable_count wait_time :
  (forall n, stat n = None) -> (wait_time < max_wait)%Z ->
  wait_loop 0 max_wait stat fuel checks last_size stable_count wait_time = None.
Proof.
  intros Hnone Hlt. revert checks.
  induction fuel as [|fuel IH]; intros checks; cbn [wait_loop].
  - by destruct (Z.ltb_spec wait_time max_wait) as [_|?]; [|lia].
  - destruct (Z.ltb_spec wait_time max_wait) as [_|?]; [|lia]. simpl.
    rewrite Hnone. unfold sleep_then. simpl. by rewrite Z.add_0_r, IH.
Qed.

(** X24. Settle times that are not positive. With a negative
    [FILE_SETTLE_TIME] the first [time.sleep] raises [ValueError], which
    the wait does not catch, right after the first check. With a settle
    time of zero the waited time never grows, so that the wait never
    returns for a file that cannot be read. *)
Theorem wait_degenerate (max_wait : Z) (stat : nat -> option Z) :
  (0 < max_wait)%Z ->
  (forall settle fuel,
     (settle < 0)%Z -> 1 <= fuel ->
     wait_for_file_stable settle max_wait stat fuel = Some ([StatFile], ValueError))
  /\ ((forall n, stat n = None) ->
      forall fuel, wait_for_file_stable 0 max_wait stat fuel = None).
Proof.
  intros Hmw. split.
  - intros settle [|fuel] Hs Hf; [lia|].
    unfold wait_for_file_stable. cbn [wait_loop].
    destruct (Z.ltb_spec 0 max_wait) as [_|?]; [|lia]. simpl.
    unfold sleep_then. destruct (Z.ltb_spec settle 0) as [_|?]; [|lia].
    destruct (stat 0) as [size|]; [|done].
    by destruct (size =? -1)%Z.
  - intros Hnone fuel. by apply wait_loop_spins.
Qed.

(** X25. The watcher does not look at what the wait returns. An event on
    a directory or on a path whose suffix is not supported does nothing.
    For a supported suffix and a positive settle time, the file is handed
    to [index_document] once the wait is over, whether the file has settled
    or not; when it has not, at least ten seconds have been slept. *)
Theorem watcher_indexes_anyway (suffix : string) (settle : Z) (stat : nat -> option Z)
  (fuel : nat) :
  on_event true suffix settle stat fuel = Some ([], Returned tt)
  /\ (supported suffix = false ->
      on_event false suffix settle stat fuel = Some ([], Returned tt))
  /\ (supported suffix = true -> (0 < settle)%Z -> 10 <= fuel ->
      exists steps b,
        wait_for_file_stable settle 10 stat fuel = Some (steps, Returned b)
        /\ on_event false suffix settle stat fuel
           = Some (steps ++ [IndexDocument], Returned tt)
        /\ (b = false -> (10 <= slept steps)%Z)).
Proof.
  split; [done|]. split; [by intros Hs; unfold on_event; rewrite Hs|].
  intros Hsup Hs Hf. unfold on_event. rewrite Hsup.
  destruct (wait_loop_returns settle 10 stat fuel 0 (-1) 0 0 Hs) as (steps & b & H & _ & _ & Hb);
    [lia|].
  unfold wait_for_file_stable. rewrite H. exists steps, b.
  split; [done|]. split; [done|]. intros ->. specialize (Hb eq_refl). lia.
Qed.

(** X22. With a positive [FILE_SETTLE_TIME], the wait for a file to
    settle always returns. It checks the size at most once per settle time
    that fits into [max_wait], rounded up, sleeps less than [max_wait] plus
    one settle time in all, and returns [False] only after it has slept
    [max_wait] or longer. *)
Theorem wait_returns (settle max_wait : Z) (stat : nat -> option Z) (fuel : nat) :
  (0 < settle)%Z ->
  Z.to_nat max_wait <= fuel ->
  exists steps b,
    wait_for_file_stable settle max_wait stat fuel = Some (steps, Returned b)
    /\ (Z.of_nat (checks_of steps) * settle < Z.max 0 max_wait + settle)%Z
    /\ (slept steps < Z.max 0 max_wait + settle)%Z
    /\ (b = false -> max_wait <= slept steps)%Z.
Proof.
  intros Hs Hf.
  destruct (wait_loop_returns settle max_wait stat fuel 0 (-1) 0 0 Hs)
    as (steps & b & H & H1 & H2 & H3); [lia|].
  exists steps, b. split; [done|]. rewrite Z.sub_0_r in H1.
  split; [done|]. split; [lia|]. intros Hb. specialize (H3 Hb). lia.
Qed.

End IndexerFacts.

Section IndexerExamples.

Import Indexer.

Lemma wait_returns_witness :
  exists steps b,
    wait_for_file_stable 2 10 (fun n => Some (Z.of_nat n)) 10 = Some (steps, Returned b)
    /\ (Z.of_nat (checks_of steps) * 2 < Z.max 0 10 + 2)%Z
    /\ (slept steps < Z.max 0 10 + 2)%Z
    /\ (b = false -> 10 <= slept steps)%Z.
Proof.
  apply (wait_returns 2 10 (fun n => Some (Z.of_nat n)) 10); [reflexivity|simpl; lia].
Defined.

Lemma wait_settles_witness :
  wait_for_file_stable 2 10 (fun _ => Some 5%Z) 3
  = Some ([StatFile; Sleep 2; StatFile; Sleep 2; StatFile], Returned true).
Proof.
  apply (proj1 (wait_settles 2 10 (fun _ => Some 5%Z) 3 (fun n => ltac:(discriminate)))
           5%Z); first [reflexivity|lia|discriminate].
Defined.

Lemma wait_degenerate_witness :
  wait_for_file_stable (-1) 10 (fun _ => Some 5%Z) 1 = Some ([StatFile], ValueError).
Proof.
  apply (proj1 (wait_degenerate 10 (fun _ => Some 5%Z) eq_refl) (-1)%Z 1);
    [reflexivity|lia].
Defined.

(** A file that keeps growing is indexed all the same, ten seconds later. *)
Lemma watcher_witness :
  on_event false ".PDF" 2 (fun n => Some (Z.of_nat n)) 10
  = Some ([StatFile; Sleep 2; StatFile; Sleep 2; StatFile; Sleep 2; StatFile; Sleep 2;
           StatFile; Sleep 2; IndexDocument], Returned tt).
Proof.
  destruct (proj2 (proj2 (watcher_indexes_anyway ".PDF" 2 (fun n => Some (Z.of_nat n)) 10))
              eq_refl eq_refl (le_n 10)) as (steps & b & Hw & -> & _).
  injection Hw as <- _. reflexivity.
Defined.

End IndexerExamples.
